(** * PokerBuddy: the Telegram worker's session ledger and its status message

    A shallow embedding of [tg-bot-worker/src/index.ts]: the four D1 tables
    (games, players, buyins, approvals), the handlers that mutate them
    ([startGame], [joinGame], [buyIn], [processApproval], [endGame]), the
    projection [composeGameState], the renderers, [refreshGameMessage], and
    the dispatchers [handleMessage] and [handleCallback] from their
    [switch] on.

    Conventions of the embedding.
    - A JavaScript [number] that is an identifier, a count or a timestamp is
      a [Z]; the amount parsed from text is a binary64 [float], as in the
      source, until [toCents] has rounded it. The quotient [fmtMoney]
      prints is the binary64 quotient too, computed on its value.
    - A TEXT column holds a [string]; [String(n)] is [String_of_number].
      Text is a string of bytes, the UTF-8 encoding of the text: the digits
      and the dot the source looks for are single bytes, the blanks that
      [trim] removes are one to three bytes.
    - Every D1 statement succeeds, except that a number which is not finite
      cannot be stored in an INTEGER NOT NULL column: there the statement
      fails and the handler's promise rejects ([Threw]).
    - The Telegram API is an oracle: for one handler run it says whether
      [editMessageText] succeeds and what [sendMessage] returns. The calls
      made are collected in a trace.
    - [step] and [run] handle the events one after the other, each handler
      run to completion before the next one starts. The worker can also
      run handlers that overlap at their awaited statements; such an
      execution is written with the statements themselves, which are
      definitions of their own ([insert_game], and the pieces of
      [processApproval]: its checks, the insert, the tally and the
      transition), as in [race_db] and [two_starts]. *)

From Stdlib Require Import ZArith List String Ascii Bool Lia.
From Stdlib Require Import Floats DecimalString QArith Qround.
From Stdlib Require DecimalZ DecimalPos.
From Stdlib Require Import Permutation Sorted OrderedTypeEx RelationClasses.
Import ListNotations.

Local Open Scope string_scope.
Local Open Scope Z_scope.

(** ** Numbers and text *)

(** [String(n)] for an integer [n] (decimal, a leading minus sign). *)
Definition String_of_number (n : Z) : string :=
  NilZero.string_of_int (Z.to_int n).

(** [Number(s)] for a string that is a decimal integer, as [String(n)]
    writes it; the source applies it to stored chat ids and message ids
    only. [None] for any other string. *)
Definition Number_of_string (s : string) : option Z :=
  option_map Z.of_int (NilZero.int_of_string s).

(** The character class [\d]. *)
Definition is_digit (c : ascii) : bool :=
  ((48 <=? nat_of_ascii c) && (nat_of_ascii c <=? 57))%nat.

Definition digit_value (c : ascii) : Z := Z.of_nat (nat_of_ascii c) - 48.

(** The longest prefix of digits, and what follows it. *)
Fixpoint take_digits (s : string) : string * string :=
  match s with
  | String c s' =>
      if is_digit c
      then let (ds, rest) := take_digits s' in (String c ds, rest)
      else (EmptyString, s)
  | EmptyString => (EmptyString, EmptyString)
  end.

(** [text.match(/(\d+(?:\.\d+)?)/)]: the leftmost run of digits, with a dot
    and a second run of digits when they follow at once. The result is the
    pair (integer digits, fraction digits), the fraction empty when the
    optional group did not match. *)
Fixpoint match_amount (s : string) : option (string * string) :=
  match s with
  | EmptyString => None
  | String c s' =>
      if is_digit c then
        let (ds, rest) := take_digits s in
        match rest with
        | String "."%char rest' =>
            let (fs, _) := take_digits rest' in Some (ds, fs)
        | _ => Some (ds, EmptyString)
        end
      else match_amount s'
  end.

(** The digits read as a natural number in base ten. *)
Fixpoint digits_value_from (acc : Z) (s : string) : Z :=
  match s with
  | EmptyString => acc
  | String c s' => digits_value_from (10 * acc + digit_value c) s'
  end.

Definition digits_value (s : string) : Z := digits_value_from 0 s.

(** The binary64 number nearest to [n / d] ([0 <= n], [0 < d]), ties to the
    even significand: what [parseFloat] returns for a decimal literal. *)
Definition nearest_double (n d : Z) : float :=
  if n =? 0 then zero else
  let l := Z.log2 n - Z.log2 d in
  let e1 := l - 52 in
  let scaled e := if 0 <=? e then n / (d * 2 ^ e) else (n * 2 ^ (- e)) / d in
  let e2 := if scaled e1 <? 2 ^ 52 then e1 - 1 else e1 in
  let e := Z.max e2 (-1074) in
  let num := if 0 <=? e then n else n * 2 ^ (- e) in
  let den := if 0 <=? e then d * 2 ^ e else d in
  let q := num / den in
  let r := num mod den in
  let m :=
    if 2 * r <? den then q
    else if den <? 2 * r then q + 1
    else if Z.even q then q else q + 1 in
  if m =? 0 then zero
  else if (971 <? e) || ((e =? 971) && (m =? 2 ^ 53)) then infinity
  else Z.ldexp (of_uint63 (Uint63.of_Z m)) e.

(** [parseFloat(match[1])] on the text the pattern matched. *)
Definition parseFloat (m : string * string) : float :=
  let (ds, fs) := m in
  nearest_double (digits_value (ds ++ fs)) (10 ^ Z.of_nat (String.length fs)).

(** [Math.round]: the integer nearest to [x], a tie going to the larger
    one. The result is given as the integer it denotes; [None] when [x] is
    NaN or infinite, which [Math.round] returns as they are. *)
Definition Math_round (x : float) : option Z :=
  match Prim2SF x with
  | S754_zero _ => Some 0
  | S754_finite s m e =>
      let v := if s then Z.neg m else Z.pos m in
      if 0 <=? e then Some (v * 2 ^ e)
      else Some ((2 * v + 2 ^ (- e)) / 2 ^ (1 - e))
  | _ => None
  end.

(** [const toCents = (n: number) => Math.round(n * 100);] *)
Definition toCents (n : float) : option Z := Math_round (n * 100)%float.

(** ** Numbers by their value *)

(** A number that is not negative, given by its value: zero, the number
    [m * 2 ^ e], or Infinity. *)
Inductive dyadic := dy_zero | dy_fin (m e : Z) | dy_inf.

(** The quotient [num / den] rounded to the nearest integer, a tie going
    to the even one. *)
Definition round_to_even (num den : Z) : Z :=
  let q := num / den in
  let r := num mod den in
  if 2 * r <? den then q
  else if den <? 2 * r then q + 1
  else if Z.even q then q else q + 1.

(** The exponent of the binary64 number nearest to [n / d]. *)
Definition binary_exponent (n d : Z) : Z :=
  let e1 := Z.log2 n - Z.log2 d - 52 in
  let scaled := if 0 <=? e1 then n / (d * 2 ^ e1) else (n * 2 ^ (- e1)) / d in
  Z.max (if scaled <? 2 ^ 52 then e1 - 1 else e1) (-1074).

(** The binary64 number nearest to [n / d] ([0 <= n], [0 < d]) by its
    value: the computation of [nearest_double], without the conversion to
    [float]. *)
Definition nearest_dyadic (n d : Z) : dyadic :=
  if n =? 0 then dy_zero else
  let e := binary_exponent n d in
  let m := if 0 <=? e then round_to_even n (d * 2 ^ e)
           else round_to_even (n * 2 ^ (- e)) d in
  if m =? 0 then dy_zero
  else if (971 <? e) || ((e =? 971) && (m =? 2 ^ 53)) then dy_inf
  else dy_fin m e.

Definition float_of_dyadic (x : dyadic) : float :=
  match x with
  | dy_zero => zero
  | dy_inf => infinity
  | dy_fin m e => Z.ldexp (of_uint63 (Uint63.of_Z m)) e
  end.

(** [x / y] in binary64, for [x] given by its value and [y] a positive
    integer that is a binary64 number: the quotient of the two values,
    rounded once. *)
Definition dyadic_div (x : dyadic) (y : Z) : dyadic :=
  match x with
  | dy_zero => dy_zero
  | dy_inf => dy_inf
  | dy_fin m e =>
      if 0 <=? e then nearest_dyadic (m * 2 ^ e) y
      else nearest_dyadic m (2 ^ (- e) * y)
  end.

(** [toFixed(2)] below 10^21: the integer [n] for which [n / 100] is
    nearest to the value [m * 2 ^ e], the larger one of two, written with
    a dot before its last two digits. *)
Definition toFixed2_digits (m e : Z) : Z :=
  if 0 <=? e then 100 * m * 2 ^ e
  else (200 * m + 2 ^ (- e)) / 2 ^ (1 - e).

Definition two_digits (n : Z) : string :=
  if n <? 10 then "0" ++ String_of_number n else String_of_number n.

Definition fixed2 (n : Z) : string :=
  String_of_number (n / 100) ++ "." ++ two_digits (n mod 100).

(** [toFixed(2)] from 10^21 on is [Number::toString]: the shortest decimal
    numeral that reads back as the number, the one nearest to it when
    there are several, in exponent notation. The value [m * 2 ^ e] is an
    integer there, with [2 ^ 52 <= m < 2 ^ 53]. [reads_back m e v] tells
    whether the integer [v] rounds to [m * 2 ^ e]. *)
Definition reads_back (m e v : Z) : bool :=
  let x := m * 2 ^ e in
  let below := if m =? 2 ^ 52 then 2 ^ (e - 1) else 2 ^ e in
  let above := 2 ^ e in
  if Z.even m
  then (2 * x - below <=? 2 * v) && (2 * v <=? 2 * x + above)
  else (2 * x - below <? 2 * v) && (2 * v <? 2 * x + above).

(** The numeral with the fewest digits, [k] and more, among the multiples
    of [10 ^ (size - k)] next to the value; [size] is the number of digits
    of the value. Seventeen digits always read back. *)
Fixpoint shortest_from (fuel : nat) (k : Z) (m e size : Z) : Z :=
  let x := m * 2 ^ e in
  match fuel with
  | O => x
  | S fuel' =>
      let p := 10 ^ (size - k) in
      let t := x / p in
      let lo := t * p in
      let hi := (t + 1) * p in
      match reads_back m e lo, reads_back m e hi with
      | true, true =>
          if x - lo <? hi - x then lo
          else if hi - x <? x - lo then hi
          else if Z.even t then lo else hi
      | true, false => lo
      | false, true => hi
      | false, false => shortest_from fuel' (k + 1) m e size
      end
  end.

Fixpoint strip_zeros (fuel : nat) (v : Z) : Z :=
  match fuel with
  | O => v
  | S fuel' => if v mod 10 =? 0 then strip_zeros fuel' (v / 10) else v
  end.

Definition exponent_notation (m e : Z) : string :=
  let x := m * 2 ^ e in
  let size := Z.of_nat (String.length (String_of_number x)) in
  let v := shortest_from 17 1 m e size in
  let n := Z.of_nat (String.length (String_of_number v)) in
  let digits := String_of_number (strip_zeros (Z.to_nat n) v) in
  match digits with
  | String c EmptyString => String c EmptyString
  | String c rest => String c ("." ++ rest)
  | EmptyString => EmptyString
  end ++ "e+" ++ String_of_number (n - 1).

(** [x.toFixed(2)] for a number [x] that is not negative. *)
Definition toFixed2 (x : dyadic) : string :=
  match x with
  | dy_zero => "0.00"
  | dy_inf => "Infinity"
  | dy_fin m e =>
      if (0 <=? e) && (10 ^ 21 <=? m * 2 ^ e)
      then if m =? 2 ^ 53 then exponent_notation (2 ^ 52) (e + 1)
           else exponent_notation m e
      else fixed2 (toFixed2_digits m e)
  end.

(** [const fmtMoney = (cents: number) => (cents / 100).toFixed(2);] on an
    integer number of cents: the integer as a binary64 number (rounded,
    above 2^53), its binary64 quotient by 100, and [toFixed(2)] of the
    quotient. Up to a sign, which division and [toFixed] carry through. *)
Definition fmtMoney (cents : Z) : string :=
  (if cents <? 0 then "-" else "") ++
  toFixed2 (dyadic_div (nearest_dyadic (Z.abs cents) 1) 100).

(** The blanks that [trim] removes are the WhiteSpace and LineTerminator
    characters of ECMAScript. In UTF-8 these are the single bytes 9 to 13
    and 32; the two bytes of U+00A0; and the three bytes of U+1680, U+2000
    to U+200A, U+2028, U+2029, U+202F, U+205F, U+3000 and U+FEFF. *)
Definition is_blank (c : ascii) : bool :=
  let n := nat_of_ascii c in
  ((n =? 32) || ((9 <=? n) && (n <=? 13)))%nat.

Definition is_blank2 (c1 c2 : ascii) : bool :=
  ((nat_of_ascii c1 =? 194) && (nat_of_ascii c2 =? 160))%nat.

Definition is_blank3 (c1 c2 c3 : ascii) : bool :=
  let n1 := nat_of_ascii c1 in
  let n2 := nat_of_ascii c2 in
  let n3 := nat_of_ascii c3 in
  (((n1 =? 225) && (n2 =? 154) && (n3 =? 128))
   || ((n1 =? 226) && (n2 =? 128)
       && (((128 <=? n3) && (n3 <=? 138))
           || (n3 =? 168) || (n3 =? 169) || (n3 =? 175)))
   || ((n1 =? 226) && (n2 =? 129) && (n3 =? 159))
   || ((n1 =? 227) && (n2 =? 128) && (n3 =? 128))
   || ((n1 =? 239) && (n2 =? 187) && (n3 =? 191)))%nat.

(** The text without the blanks it starts with. *)
Fixpoint trim_start (s : string) : string :=
  match s with
  | EmptyString => EmptyString
  | String c1 s1 =>
      if is_blank c1 then trim_start s1
      else
        match s1 with
        | EmptyString => s
        | String c2 s2 =>
            if is_blank2 c1 c2 then trim_start s2
            else
              match s2 with
              | EmptyString => s
              | String c3 s3 =>
                  if is_blank3 c1 c2 c3 then trim_start s3 else s
              end
        end
  end.

(** Whether [argText?.trim()] is a non-empty string. *)
Definition trimmed_nonempty (argText : option string) : bool :=
  match argText with
  | Some s => negb (String.eqb (trim_start s) EmptyString)
  | None => false
  end.

(** ** The data model *)

Inductive game_status := active | ended.
Inductive buyin_status := pending | approved | rejected.
Inductive decision := approve | reject.

Definition game_status_eqb (a b : game_status) : bool :=
  match a, b with active, active | ended, ended => true | _, _ => false end.

Definition buyin_status_eqb (a b : buyin_status) : bool :=
  match a, b with
  | pending, pending | approved, approved | rejected, rejected => true
  | _, _ => false
  end.

Definition decision_eqb (a b : decision) : bool :=
  match a, b with approve, approve | reject, reject => true | _, _ => false end.

(** [type TgUser = { id: number; username?: string; first_name?: string }] *)
Module TgUser.
Record t := mk { id : Z; username : option string; first_name : option string }.
End TgUser.

(** A row of [games] ([GameRow] in the source). *)
Module GameRow.
Record t := mk {
  id : Z;
  chat_id : string;
  status : game_status;
  started_at : Z;
  ended_at : option Z;
  buy_in_cents : Z;
  status_message_id : option string }.
End GameRow.

(** A row of [players]; UNIQUE (game_id, user_id). *)
Module Player.
Record t := mk {
  id : Z;
  game_id : Z;
  user_id : string;
  username : option string;
  first_name : option string;
  joined_at : Z }.
End Player.

(** A row of [buyins]. *)
Module Buyin.
Record t := mk {
  id : Z;
  game_id : Z;
  user_id : string;
  amount_cents : Z;
  created_at : Z;
  status : buyin_status }.
End Buyin.

(** A row of [approvals]; UNIQUE (buyin_id, approver_user_id). *)
Module Approval.
Record t := mk {
  id : Z;
  buyin_id : Z;
  approver_user_id : string;
  decision_of : decision;
  created_at : Z }.
End Approval.

(** The database [env.DB]. *)
Record D1 := mkD1 {
  games : list GameRow.t;
  players : list Player.t;
  buyins : list Buyin.t;
  approvals : list Approval.t }.

Definition empty_db : D1 := mkD1 [] [] [] [].

(** INTEGER PRIMARY KEY AUTOINCREMENT: one more than the largest id used.
    No statement of the source deletes a row, so the largest id in the
    table is the largest ever used. *)
Definition next_id (ids : list Z) : Z := 1 + fold_right Z.max 0 ids.

(** [type PlayerRow] and [type PendingRow]: the rows of the projection. *)
Module PlayerRow.
Record t := mk {
  user_id : string;
  username : string;
  first_name : string;
  approved_cents : Z;
  pending_count : Z }.
End PlayerRow.

Module PendingRow.
Record t := mk {
  id : Z;
  user_id : string;
  username : string;
  first_name : string;
  amount_cents : Z;
  approvals : Z;
  rejects : Z }.
End PendingRow.

Record GameState := mkState {
  state_players : list PlayerRow.t;
  state_pending : list PendingRow.t }.

(** [type ActionResult = { ok: boolean; message?: string }]; every handler
    below fills the message. *)
Record ActionResult := mkResult { ok : bool; message : string }.

(** What a handler's promise settles to. *)
Inductive outcome := Returned (r : ActionResult) | Threw.

Definition APPROVALS_REQUIRED : Z := 1.
Definition MAX_PENDING_ROWS_IN_KEYBOARD : nat := 5.

(** ** Telegram *)

(** The payload objects given to [encodeAction]. *)
Inductive Action :=
| act_join | act_buyin | act_refresh | act_end
| act_approve (id : Z) | act_reject (id : Z).

Record Button := mkButton { button_text : string; callback_data : Action }.

Definition Keyboard := list (list Button).

(** The body of a call; [parse_mode] and [disable_web_page_preview] are
    constants and left out. *)
Record Payload := mkPayload {
  payload_chat_id : option Z;
  payload_text : string;
  reply_markup : option Keyboard }.

Inductive TgCall :=
| editMessageText (p : Payload) (message_id : option Z)
| sendMessage (p : Payload).

(** What Telegram answers during one handler run: whether the edit goes
    through, and the [message_id] of the sent message ([None] when the call
    throws, [Some 0] when the result carries no usable id). *)
Record Telegram := mkTelegram { edit_ok : bool; send_result : option Z }.

(** A computation on the database that also calls Telegram. *)
Record Eff (A : Type) := mkEff { value : A; store : D1; trace : list TgCall }.
Arguments mkEff {A}.
Arguments value {A}.
Arguments store {A}.
Arguments trace {A}.

(** ** Rendering helpers *)

(** [maskUser]: [s.slice(0, 2)] is the first two characters, [s.slice(-2)]
    the last two. *)
Definition maskUser (s : string) : string :=
  if (String.length s <=? 4)%nat then s
  else substring 0 2 s ++ "***" ++ substring (String.length s - 2) 2 s.

(** [displayName]: a string is truthy when it is not empty. *)
Definition displayName (username firstName fallback : string) : string :=
  if negb (String.eqb username "") then "@" ++ username
  else if negb (String.eqb firstName "") then firstName
  else maskUser fallback.

(** ** Queries *)

(** SQL [COALESCE(x, '')]. *)
Definition coalesce (x : option string) : string :=
  match x with Some s => s | None => "" end.

(** JavaScript [x || null] on an optional string. *)
Definition or_null (x : option string) : option string :=
  match x with
  | Some s => if String.eqb s "" then None else Some s
  | None => None
  end.

Definition sum (l : list Z) : Z := fold_right Z.add 0 l.

Section Relational.
Context {A B K : Type}.

(** [l LEFT JOIN r ON on]: a row of [l] without a partner is kept, with
    NULL for the columns of [r]. *)
Definition left_join (on : A -> B -> bool) (l : list A) (r : list B)
  : list (A * option B) :=
  flat_map
    (fun a =>
       match filter (on a) r with
       | [] => [(a, None)]
       | bs => map (fun b => (a, Some b)) bs
       end) l.

(** The keys of [GROUP BY], each once, in the order they first occur. *)
Fixpoint distinct (eqb : K -> K -> bool) (l : list K) : list K :=
  match l with
  | [] => []
  | k :: l' => k :: filter (fun k' => negb (eqb k k')) (distinct eqb l')
  end.

(** [ORDER BY]: a stable insertion sort. SQL leaves the order of rows
    with equal keys open; the theorems below rely on the keys only. *)
Fixpoint insert_sorted (leb : A -> A -> bool) (x : A) (l : list A) : list A :=
  match l with
  | [] => [x]
  | y :: l' => if leb x y then x :: l else y :: insert_sorted leb x l'
  end.

Definition order_by (leb : A -> A -> bool) (l : list A) : list A :=
  fold_right (insert_sorted leb) [] l.
End Relational.

(** [currentGame]: the active game of the chat with the largest id. *)
Definition is_active_in (chat : string) (g : GameRow.t) : bool :=
  String.eqb (GameRow.chat_id g) chat
  && game_status_eqb (GameRow.status g) active.

Fixpoint largest_id (l : list GameRow.t) : option GameRow.t :=
  match l with
  | [] => None
  | g :: l' =>
      match largest_id l' with
      | Some h => if GameRow.id g <? GameRow.id h then Some h else Some g
      | None => Some g
      end
  end.

Definition currentGame (db : D1) (chat : string) : option GameRow.t :=
  largest_id (filter (is_active_in chat) (games db)).

Definition getGameById (db : D1) (id : Z) : option GameRow.t :=
  find (fun g => GameRow.id g =? id) (games db).

(** [SELECT id FROM players WHERE game_id=? AND user_id=?]. *)
Definition is_player (game_id : Z) (user_id : string) (p : Player.t) : bool :=
  (Player.game_id p =? game_id) && String.eqb (Player.user_id p) user_id.

Definition find_player (db : D1) (game_id : Z) (user_id : string)
  : option Player.t :=
  find (is_player game_id user_id) (players db).

(** The first query of [composeGameState]. *)
Definition player_buyin_on (p : Player.t) (b : Buyin.t) : bool :=
  (Buyin.game_id b =? Player.game_id p)
  && String.eqb (Buyin.user_id b) (Player.user_id p).

Definition approved_amount (b : option Buyin.t) : Z :=
  match b with
  | Some b => if buyin_status_eqb (Buyin.status b) approved
              then Buyin.amount_cents b else 0
  | None => 0
  end.

Definition pending_one (b : option Buyin.t) : Z :=
  match b with
  | Some b => if buyin_status_eqb (Buyin.status b) pending then 1 else 0
  | None => 0
  end.

Definition players_joined (db : D1) (gameId : Z)
  : list (Player.t * option Buyin.t) :=
  filter (fun r => Player.game_id (fst r) =? gameId)
         (left_join player_buyin_on (players db) (buyins db)).

Definition player_group (u : string) (rows : list (Player.t * option Buyin.t))
  : PlayerRow.t :=
  let g := filter (fun r => String.eqb (Player.user_id (fst r)) u) rows in
  PlayerRow.mk u
    (match g with r :: _ => coalesce (Player.username (fst r)) | [] => "" end)
    (match g with r :: _ => coalesce (Player.first_name (fst r)) | [] => "" end)
    (sum (map (fun r => approved_amount (snd r)) g))
    (sum (map (fun r => pending_one (snd r)) g)).

(** [ORDER BY approved_cents DESC, username]. *)
Definition player_row_leb (a b : PlayerRow.t) : bool :=
  (PlayerRow.approved_cents b <? PlayerRow.approved_cents a)
  || ((PlayerRow.approved_cents a =? PlayerRow.approved_cents b)
      && String.leb (PlayerRow.username a) (PlayerRow.username b)).

Definition playersData (db : D1) (gameId : Z) : list PlayerRow.t :=
  let rows := players_joined db gameId in
  order_by player_row_leb
    (map (fun u => player_group u rows)
         (distinct String.eqb (map (fun r => Player.user_id (fst r)) rows))).

(** The second query of [composeGameState]. *)
Definition PendingJoin : Type := (Buyin.t * option Approval.t) * option Player.t.

Definition pending_joined (db : D1) (gameId : Z) : list PendingJoin :=
  filter
    (fun r => (Buyin.game_id (fst (fst r)) =? gameId)
              && buyin_status_eqb (Buyin.status (fst (fst r))) pending)
    (left_join
       (fun (ba : Buyin.t * option Approval.t) p =>
          (Player.game_id p =? Buyin.game_id (fst ba))
          && String.eqb (Player.user_id p) (Buyin.user_id (fst ba)))
       (left_join (fun b a => Approval.buyin_id a =? Buyin.id b)
                  (buyins db) (approvals db))
       (players db)).

Definition decision_one (d : decision) (a : option Approval.t) : Z :=
  match a with
  | Some a => if decision_eqb (Approval.decision_of a) d then 1 else 0
  | None => 0
  end.

Definition pending_group (i : Z) (rows : list PendingJoin) : PendingRow.t :=
  let g := filter (fun r => Buyin.id (fst (fst r)) =? i) rows in
  PendingRow.mk i
    (match g with r :: _ => Buyin.user_id (fst (fst r)) | [] => "" end)
    (match g with
     | r :: _ => coalesce (match snd r with Some p => Player.username p | None => None end)
     | [] => "" end)
    (match g with
     | r :: _ => coalesce (match snd r with Some p => Player.first_name p | None => None end)
     | [] => "" end)
    (match g with r :: _ => Buyin.amount_cents (fst (fst r)) | [] => 0 end)
    (sum (map (fun r => decision_one approve (snd (fst r))) g))
    (sum (map (fun r => decision_one reject (snd (fst r))) g)).

Definition pendingData (db : D1) (gameId : Z) : list PendingRow.t :=
  let rows := pending_joined db gameId in
  order_by (fun a b => PendingRow.id a <=? PendingRow.id b)
    (map (fun i => pending_group i rows)
         (distinct Z.eqb (map (fun r => Buyin.id (fst (fst r))) rows))).

Definition composeGameState (db : D1) (gameId : Z) : GameState :=
  mkState (playersData db gameId) (pendingData db gameId).

(** ** The status message *)

Definition newline : string := String "010"%char EmptyString.

(** The lines that [buildStatusText] pushes, in order. *)
Definition player_line (player : PlayerRow.t) : string :=
  let label := displayName (PlayerRow.username player)
                 (PlayerRow.first_name player) (PlayerRow.user_id player) in
  let pendingText :=
    if PlayerRow.pending_count player =? 0 then ""
    else " (pending " ++ String_of_number (PlayerRow.pending_count player) ++ ")" in
  "- " ++ label ++ ": " ++ fmtMoney (PlayerRow.approved_cents player) ++ pendingText.

Definition pending_line (pending : PendingRow.t) : string :=
  let label := displayName (PendingRow.username pending)
                 (PendingRow.first_name pending) (PendingRow.user_id pending) in
  "#" ++ String_of_number (PendingRow.id pending) ++ " " ++ label ++ " - "
  ++ fmtMoney (PendingRow.amount_cents pending) ++ " ("
  ++ String_of_number (PendingRow.approvals pending) ++ "/"
  ++ String_of_number APPROVALS_REQUIRED ++ ")".

Definition status_header (game : GameRow.t) : string :=
  match GameRow.status game with
  | ended => "*Game ended*"
  | active => "*Poker Night*"
  end.

Definition status_lines (game : GameRow.t) (state : GameState) : list string :=
  ([status_header game;
    ("Buy-in: " ++ fmtMoney (GameRow.buy_in_cents game))%string;
    ""]
   ++ (match state_players state with
       | [] => ["_No players yet._"]
       | ps => "*Players*" :: map player_line ps
       end)
   ++ (match state_pending state with
       | [] => []
       | qs => "" :: "*Pending buy-ins*" :: map pending_line qs
       end)
   ++ (match GameRow.status game with
       | ended => [""; "Start a new game with /startgame <amount>."]
       | active => []
       end))%list.

Definition buildStatusText (game : GameRow.t) (state : GameState) : string :=
  String.concat newline (status_lines game state).

(** [buildStatusKeyboard]: [None] is [undefined]. *)
Definition approval_buttons (pending : PendingRow.t) : list Button :=
  [mkButton ("Approve #" ++ String_of_number (PendingRow.id pending) ++ " ("
             ++ String_of_number (PendingRow.approvals pending) ++ "/"
             ++ String_of_number APPROVALS_REQUIRED ++ ")")
            (act_approve (PendingRow.id pending));
   mkButton ("Reject #" ++ String_of_number (PendingRow.id pending) ++ " ("
             ++ String_of_number (PendingRow.rejects pending) ++ "/"
             ++ String_of_number APPROVALS_REQUIRED ++ ")")
            (act_reject (PendingRow.id pending))].

Definition buildStatusKeyboard (game : GameRow.t) (state : GameState)
  : option Keyboard :=
  match GameRow.status game with
  | ended => None
  | active =>
      Some ([[mkButton "Join game" act_join;
              mkButton
                ("Buy-in (" ++ fmtMoney (GameRow.buy_in_cents game) ++ ")")%string
                act_buyin];
             [mkButton "Refresh" act_refresh; mkButton "End game" act_end]]
            ++ map approval_buttons
                 (firstn MAX_PENDING_ROWS_IN_KEYBOARD (state_pending state)))%list
  end.

(** [UPDATE games SET status_message_id=? WHERE id=?]. *)
Definition set_status_message_id (db : D1) (id : Z) (m : string) : D1 :=
  mkD1
    (map (fun g =>
            if GameRow.id g =? id
            then GameRow.mk (GameRow.id g) (GameRow.chat_id g) (GameRow.status g)
                   (GameRow.started_at g) (GameRow.ended_at g)
                   (GameRow.buy_in_cents g) (Some m)
            else g) (games db))
    (players db) (buyins db) (approvals db).

(** [String(chatId)]; [None] is a chat id that is not an integer. *)
Definition String_of_chat (chatId : option Z) : string :=
  match chatId with Some n => String_of_number n | None => "NaN" end.

(** [refreshGameMessage]. The result is the boolean it resolves to. *)
Definition refreshGameMessage (tg : Telegram) (db : D1) (chatId : option Z)
    (providedGame : option GameRow.t) (allowCreate : bool) : Eff bool :=
  match (match providedGame with
         | Some g => Some g
         | None => currentGame db (String_of_chat chatId)
         end) with
  | None => mkEff false db []
  | Some game =>
      let state := composeGameState db (GameRow.id game) in
      let payload :=
        mkPayload chatId (buildStatusText game state)
                  (buildStatusKeyboard game state) in
      let create (before : list TgCall) : Eff bool :=
        match send_result tg with
        | Some message_id =>
            if message_id =? 0
            then mkEff false db (before ++ [sendMessage payload])%list
            else mkEff true
                   (set_status_message_id db (GameRow.id game)
                      (String_of_number message_id))
                   (before ++ [sendMessage payload])%list
        | None => mkEff false db (before ++ [sendMessage payload])%list
        end in
      match GameRow.status_message_id game with
      | Some m =>
          if String.eqb m "" then
            if allowCreate then create [] else mkEff false db []
          else
            let edit := editMessageText payload (Number_of_string m) in
            if edit_ok tg then mkEff true db [edit]
            else if allowCreate then create [edit]
            else mkEff false db [edit]
      | None => if allowCreate then create [] else mkEff false db []
      end
  end.

(** ** Handlers *)

Definition fail (db : D1) (msg : string) : Eff outcome :=
  mkEff (Returned (mkResult false msg)) db [].

Definition succeed (msg : string) (r : Eff bool) : Eff outcome :=
  mkEff (Returned (mkResult true msg)) (store r) (trace r).

(** [INSERT INTO games (chat_id, started_at, status, buy_in_cents)
     VALUES (?, ?, 'active', ?)]; the other columns take their defaults. *)
Definition insert_game (db : D1) (chat : string) (clock cents : Z) : D1 :=
  mkD1 (games db ++ [GameRow.mk (next_id (map GameRow.id (games db))) chat
                       active clock None cents None])%list
       (players db) (buyins db) (approvals db).

Definition startGame (tg : Telegram) (clock : Z) (db : D1) (chatId : Z)
    (argText : string) : Eff outcome :=
  match find (is_active_in (String_of_number chatId)) (games db) with
  | Some _ => fail db "There is already an active game in this chat."
  | None =>
      match match_amount argText with
      | None =>
          fail db "Usage: /startgame <buy-in amount>. Example: /startgame 50"
      | Some m =>
          let numeric := parseFloat m in
          if negb (0 <? numeric)%float
          then fail db "Buy-in must be greater than zero."
          else
            match toCents numeric with
            | None => mkEff Threw db []
            | Some buyInCents =>
                let last_row_id := next_id (map GameRow.id (games db)) in
                let db1 := insert_game db (String_of_number chatId) clock buyInCents in
                match getGameById db1 last_row_id with
                | Some game =>
                    succeed "Game started."
                      (refreshGameMessage tg db1 (Some chatId) (Some game) true)
                | None => mkEff (Returned (mkResult true "Game started.")) db1 []
                end
            end
      end
  end.

(** [INSERT INTO players (game_id, user_id, username, first_name, joined_at)]. *)
Definition insert_player (db : D1) (game_id : Z) (user : TgUser.t) (clock : Z)
  : D1 :=
  mkD1 (games db)
       (players db ++ [Player.mk (next_id (map Player.id (players db))) game_id
                         (String_of_number (TgUser.id user))
                         (or_null (TgUser.username user))
                         (or_null (TgUser.first_name user)) clock])%list
       (buyins db) (approvals db).

Definition joinGame (tg : Telegram) (clock : Z) (db : D1) (chatId : Z)
    (user : TgUser.t) : Eff outcome :=
  match currentGame db (String_of_number chatId) with
  | None => fail db "No active game. Use /startgame first."
  | Some game =>
      match find_player db (GameRow.id game) (String_of_number (TgUser.id user)) with
      | Some _ => fail db "You are already part of this game."
      | None =>
          let db1 := insert_player db (GameRow.id game) user clock in
          succeed "Joined the game."
            (refreshGameMessage tg db1 (Some chatId) (Some game) true)
      end
  end.

(** [INSERT INTO buyins (game_id, user_id, amount_cents, created_at, status)
     VALUES (?, ?, ?, ?, 'pending')]. *)
Definition insert_buyin (db : D1) (game_id : Z) (user_id : string)
    (cents clock : Z) : D1 :=
  mkD1 (games db) (players db)
       (buyins db ++ [Buyin.mk (next_id (map Buyin.id (buyins db))) game_id
                        user_id cents clock pending])%list
       (approvals db).

Definition buyIn (tg : Telegram) (clock : Z) (db : D1) (chatId : Z)
    (user : TgUser.t) (argText : option string) : Eff outcome :=
  match currentGame db (String_of_number chatId) with
  | None => fail db "No active game. Use /startgame first."
  | Some game =>
      match find_player db (GameRow.id game) (String_of_number (TgUser.id user)) with
      | None => fail db "Please join the game before buying in."
      | Some _ =>
          let submit (cents : option Z) : Eff outcome :=
            match cents with
            | None => mkEff Threw db []
            | Some cents =>
                if negb (0 <? cents)
                then fail db
                  "No default buy-in found. Restart the game with /startgame <amount>."
                else
                  let db1 := insert_buyin db (GameRow.id game)
                               (String_of_number (TgUser.id user)) cents clock in
                  succeed "Buy-in submitted for approval."
                    (refreshGameMessage tg db1 (Some chatId) (Some game) true)
            end in
          if trimmed_nonempty argText then
            match match_amount (coalesce argText) with
            | None => fail db "Usage: /buyin <amount>. Example: /buyin 50"
            | Some m =>
                let numeric := parseFloat m in
                if negb (0 <? numeric)%float
                then fail db "Amount must be greater than zero."
                else submit (toCents numeric)
            end
          else submit (Some (GameRow.buy_in_cents game))
      end
  end.

(** [processApproval], lines 281 to 298: the checks made before anything is
    written. *)
Definition find_buyin (db : D1) (buyinId : Z) : option Buyin.t :=
  find (fun b => Buyin.id b =? buyinId) (buyins db).

Definition approval_checks (db : D1) (buyinId : Z) (approver : TgUser.t)
  : string + Buyin.t :=
  if buyinId =? 0 then inl "Invalid buy-in." else
  match find_buyin db buyinId with
  | None => inl "Buy-in not found."
  | Some buyin =>
      if negb (buyin_status_eqb (Buyin.status buyin) pending)
      then inl "Buy-in already resolved."
      else if String.eqb (Buyin.user_id buyin) (String_of_number (TgUser.id approver))
      then inl "You cannot vote on your own buy-in."
      else
        match find_player db (Buyin.game_id buyin)
                (String_of_number (TgUser.id approver)) with
        | None => inl "Only players can approve or reject buy-ins."
        | Some _ => inr buyin
        end
  end.

(** Lines 300 to 306. [INSERT INTO approvals ...] fails on the constraint
    UNIQUE (buyin_id, approver_user_id) ([None]); the handler catches the
    failure and goes on. *)
Definition has_voted (buyinId : Z) (voter : string) (a : Approval.t) : bool :=
  (Approval.buyin_id a =? buyinId) && String.eqb (Approval.approver_user_id a) voter.

Definition insert_approval (db : D1) (buyinId : Z) (voter : string)
    (d : decision) (clock : Z) : option D1 :=
  if existsb (has_voted buyinId voter) (approvals db) then None
  else Some (mkD1 (games db) (players db) (buyins db)
               (approvals db ++ [Approval.mk (next_id (map Approval.id (approvals db)))
                                   buyinId voter d clock])%list).

Definition record_vote (db : D1) (buyinId : Z) (voter : string) (d : decision)
    (clock : Z) : D1 :=
  match insert_approval db buyinId voter d clock with
  | Some db' => db'
  | None => db
  end.

(** Lines 308 to 312: [SELECT decision, COUNT( * ) ... GROUP BY decision]. *)
Definition count_votes (db : D1) (buyinId : Z) (d : decision) : Z :=
  Z.of_nat (List.length
    (filter (fun a => (Approval.buyin_id a =? buyinId)
                      && decision_eqb (Approval.decision_of a) d)
            (approvals db))).

(** [UPDATE buyins SET status=... WHERE id=?]. *)
Definition set_buyin_status (db : D1) (buyinId : Z) (s : buyin_status) : D1 :=
  mkD1 (games db) (players db)
       (map (fun b =>
               if Buyin.id b =? buyinId
               then Buyin.mk (Buyin.id b) (Buyin.game_id b) (Buyin.user_id b)
                      (Buyin.amount_cents b) (Buyin.created_at b) s
               else b) (buyins db))
       (approvals db).

(** Lines 314 to 324: the transition. The result is the database and, when
    the status was written, the message. *)
Definition apply_tally (db : D1) (buyinId : Z) : D1 * option string :=
  if APPROVALS_REQUIRED <=? count_votes db buyinId approve then
    (set_buyin_status db buyinId approved,
     Some ("Buy-in #" ++ String_of_number buyinId ++ " approved."))
  else if APPROVALS_REQUIRED <=? count_votes db buyinId reject then
    (set_buyin_status db buyinId rejected,
     Some ("Buy-in #" ++ String_of_number buyinId ++ " rejected."))
  else (db, None).

Definition processApproval (tg : Telegram) (clock : Z) (db : D1) (chatId : Z)
    (buyinId : Z) (approver : TgUser.t) (d : decision) : Eff outcome :=
  match approval_checks db buyinId approver with
  | inl msg => fail db msg
  | inr buyin =>
      let db1 := record_vote db buyinId (String_of_number (TgUser.id approver))
                   d clock in
      let approvals := count_votes db1 buyinId approve in
      let (db2, changed) := apply_tally db1 buyinId in
      let msg :=
        match changed with
        | Some message => message
        | None => "Vote recorded (" ++ String_of_number approvals ++ "/"
                  ++ String_of_number APPROVALS_REQUIRED ++ ")."
        end in
      match getGameById db2 (Buyin.game_id buyin) with
      | Some game =>
          succeed msg
            (refreshGameMessage tg db2 (Number_of_string (GameRow.chat_id game))
               (Some game) true)
      | None => succeed msg (refreshGameMessage tg db2 (Some chatId) None true)
      end
  end.

(** [UPDATE games SET status='ended', ended_at=? WHERE id=?]. *)
Definition end_game_row (db : D1) (id clock : Z) : D1 :=
  mkD1
    (map (fun g =>
            if GameRow.id g =? id
            then GameRow.mk (GameRow.id g) (GameRow.chat_id g) ended
                   (GameRow.started_at g) (Some clock)
                   (GameRow.buy_in_cents g) (GameRow.status_message_id g)
            else g) (games db))
    (players db) (buyins db) (approvals db).

Definition endGame (tg : Telegram) (clock : Z) (db : D1) (chatId : Z)
  : Eff outcome :=
  match currentGame db (String_of_number chatId) with
  | None => fail db "No active game."
  | Some game =>
      let db1 := end_game_row db (GameRow.id game) clock in
      match getGameById db1 (GameRow.id game) with
      | Some updated =>
          succeed "Game ended."
            (refreshGameMessage tg db1 (Some chatId) (Some updated) true)
      | None => mkEff (Returned (mkResult true "Game ended.")) db1 []
      end
  end.

(** ** Runs *)

(** The intents the dispatcher resolves; [op_status] is the passive query,
    which calls [refreshGameMessage] with [allowCreate] false and reports
    the boolean it gets. *)
Inductive Op :=
| op_start (chatId : Z) (argText : string)
| op_join (chatId : Z) (user : TgUser.t)
| op_buyin (chatId : Z) (user : TgUser.t) (argText : option string)
| op_vote (chatId : Z) (buyinId : Z) (approver : TgUser.t) (d : decision)
| op_end (chatId : Z)
| op_status (chatId : Z).

(** An inbound event: the intent, the clock [now()] and Telegram's answers
    while it is handled. *)
Record Event := mkEvent { ev_op : Op; ev_now : Z; ev_tg : Telegram }.

Definition handle (db : D1) (ev : Event) : Eff outcome :=
  let tg := ev_tg ev in
  let clock := ev_now ev in
  match ev_op ev with
  | op_start chatId argText => startGame tg clock db chatId argText
  | op_join chatId user => joinGame tg clock db chatId user
  | op_buyin chatId user argText => buyIn tg clock db chatId user argText
  | op_vote chatId buyinId approver d =>
      processApproval tg clock db chatId buyinId approver d
  | op_end chatId => endGame tg clock db chatId
  | op_status chatId =>
      let r := refreshGameMessage tg db (Some chatId) None false in
      mkEff (Returned (mkResult (value r) "")) (store r) (trace r)
  end.

Definition step (db : D1) (ev : Event) : D1 := store (handle db ev).

Definition run (evs : list Event) (db : D1) : D1 := fold_left step evs db.

(** ** Invariants *)

(** At most one game of a chat is active. *)
Definition one_active_per_chat (db : D1) : Prop :=
  forall chat : string,
    (List.length (filter (is_active_in chat) (games db)) <= 1)%nat.

(** The status of a buy-in, looked up by id. *)
Definition status_of (db : D1) (buyinId : Z) : option buyin_status :=
  option_map Buyin.status (find_buyin db buyinId).

(** The ids of buy-ins are those AUTOINCREMENT hands out. *)
Definition buyin_ids_positive (db : D1) : Prop :=
  forall b, In b (buyins db) -> 0 < Buyin.id b.

(** The votes recorded for a buy-in by a voter. *)
Definition votes_of (db : D1) (buyinId : Z) (voter : string) : list Approval.t :=
  filter (has_voted buyinId voter) (approvals db).

Definition one_vote_per_voter (db : D1) : Prop :=
  forall buyinId voter, (List.length (votes_of db buyinId voter) <= 1)%nat.



(** The game [refreshGameMessage] works on. *)
Definition refreshed_game (db : D1) (chatId : option Z)
    (provided : option GameRow.t) : option GameRow.t :=
  match provided with
  | Some g => Some g
  | None => currentGame db (String_of_chat chatId)
  end.

(** The payload of the call [refreshGameMessage] makes for [game]. *)
Definition status_payload (db : D1) (chatId : option Z) (game : GameRow.t)
  : Payload :=
  let state := composeGameState db (GameRow.id game) in
  mkPayload chatId (buildStatusText game state) (buildStatusKeyboard game state).

Definition call_payload (c : TgCall) : Payload :=
  match c with
  | editMessageText p _ => p
  | sendMessage p => p
  end.


(** The order asked for by [ORDER BY approved_cents DESC, username]. *)
Definition player_order (a b : PlayerRow.t) : Prop :=
  PlayerRow.approved_cents b < PlayerRow.approved_cents a
  \/ (PlayerRow.approved_cents a = PlayerRow.approved_cents b
      /\ String.leb (PlayerRow.username a) (PlayerRow.username b) = true).

(** The label under which a player row is displayed. *)
Definition display_label (r : PlayerRow.t) : string :=
  displayName (PlayerRow.username r) (PlayerRow.first_name r) (PlayerRow.user_id r).

(** The conditional update the specification describes, written from its
    words: the status is written only where it is still pending. *)
Definition set_buyin_status_if_pending (db : D1) (buyinId : Z)
    (s : buyin_status) : D1 :=
  mkD1 (games db) (players db)
       (map (fun b =>
               if (Buyin.id b =? buyinId)
                  && buyin_status_eqb (Buyin.status b) pending
               then Buyin.mk (Buyin.id b) (Buyin.game_id b) (Buyin.user_id b)
                      (Buyin.amount_cents b) (Buyin.created_at b) s
               else b) (buyins db))
       (approvals db).

(** The order the specification describes, written from its words: by
    approved total descending, then by display label ascending. *)
Definition label_order (a b : PlayerRow.t) : Prop :=
  PlayerRow.approved_cents b < PlayerRow.approved_cents a
  \/ (PlayerRow.approved_cents a = PlayerRow.approved_cents b
      /\ String.leb (display_label a) (display_label b) = true).

(** The rational number a finite binary64 number denotes: the signed
    significand times two to the exponent. *)
Definition float_value (x : float) : option Q :=
  match Prim2SF x with
  | S754_zero _ => Some (inject_Z 0)
  | S754_finite s m e =>
      let v := if s then Z.neg m else Z.pos m in
      Some (if 0 <=? e then inject_Z (v * 2 ^ e)
            else Qmake v (Z.to_pos (2 ^ (- e))))
  | _ => None
  end.

(** Rounding to the nearest integer, a tie going up. *)
Definition round_half_up (q : Q) : Z := Qfloor (Qplus q (Qmake 1 2)).

(** Rounding to the nearest integer, a tie going to the even neighbour:
    the rounding the specification names, written from its words. *)
Definition round_half_even (q : Q) : Z :=
  let f := Qfloor q in
  match Qcompare (Qminus q (inject_Z f)) (Qmake 1 2) with
  | Lt => f
  | Gt => f + 1
  | Eq => if Z.even f then f else f + 1
  end.

(** The pending requests of a game. *)
Definition is_pending_in (gameId : Z) (b : Buyin.t) : bool :=
  (Buyin.game_id b =? gameId) && buyin_status_eqb (Buyin.status b) pending.

(** ** Sample data *)

Definition tg_up : Telegram := mkTelegram true (Some 77).
Definition tg_down : Telegram := mkTelegram false None.

Definition alice : TgUser.t := TgUser.mk 1001 (Some "alice") (Some "Alice").
Definition bob : TgUser.t := TgUser.mk 1002 None (Some "Bob").
Definition carol : TgUser.t := TgUser.mk 1003 (Some "carol") None.
Definition dave : TgUser.t := TgUser.mk 123456 None None.

(** Chat 1: a game with a buy-in of 50, joined by alice, bob and carol;
    alice asks for the default buy-in. *)
Definition table_events : list Event :=
  [mkEvent (op_start 1 "50") 10 tg_up;
   mkEvent (op_join 1 alice) 11 tg_up;
   mkEvent (op_join 1 bob) 12 tg_up;
   mkEvent (op_join 1 carol) 13 tg_up;
   mkEvent (op_buyin 1 alice None) 14 tg_up].

Definition table_db : D1 := run table_events empty_db.

(** Two votes on buy-in 1 handled at the same time: bob's approval and
    carol's rejection both pass the checks on [table_db]; carol's vote is
    written and tallied first, then bob's vote is written. *)
Definition race_db : D1 :=
  record_vote
    (fst (apply_tally (record_vote table_db 1 "1003" reject 21) 1))
    1 "1002" approve 22.



(** The same table after bob has approved alice's buy-in. *)
Definition resolved_events : list Event :=
  (table_events ++ [mkEvent (op_vote 1 1 bob approve) 20 tg_up])%list.

Definition resolved_db : D1 := run resolved_events empty_db.

(** ** Well-formed ledgers *)

(** The key of the constraint UNIQUE (game_id, user_id) on [players]. *)
Definition player_key (p : Player.t) : Z * string :=
  (Player.game_id p, Player.user_id p).

(** All the votes recorded for a buy-in. *)
Definition votes_on (db : D1) (buyinId : Z) : list Approval.t :=
  filter (fun a => Approval.buyin_id a =? buyinId) (approvals db).

(** The status a decision asks for. *)
Definition verdict (d : decision) : buyin_status :=
  match d with approve => approved | reject => rejected end.

(** The row a first vote inserts, and the message of the transition it
    causes. *)
Definition vote_row (db : D1) (buyinId : Z) (voter : string) (d : decision)
    (clock : Z) : Approval.t :=
  Approval.mk (next_id (map Approval.id (approvals db))) buyinId voter d clock.

Definition vote_message (buyinId : Z) (d : decision) : string :=
  "Buy-in #" ++ String_of_number buyinId
  ++ match d with approve => " approved." | reject => " rejected." end.

(** What an accepted [buyIn] of [cents] by [uid] in [game] leaves: the
    success message and one more buy-in, pending, with the next id. *)
Definition buyin_accepted (db : D1) (game : GameRow.t) (uid : string)
    (cents clock : Z) (r : Eff outcome) : Prop :=
  value r = Returned (mkResult true "Buy-in submitted for approval.")
  /\ buyins (store r)
     = (buyins db
        ++ [Buyin.mk (next_id (map Buyin.id (buyins db))) (GameRow.id game) uid
              cents clock pending])%list
  /\ players (store r) = players db
  /\ approvals (store r) = approvals db.

(** The buy-ins of an identity in a game that have a given status. *)
Definition buyins_of (db : D1) (gameId : Z) (uid : string) (s : buyin_status)
  : list Buyin.t :=
  filter (fun b => (Buyin.game_id b =? gameId)
                   && String.eqb (Buyin.user_id b) uid
                   && buyin_status_eqb (Buyin.status b) s)
         (buyins db).

(** The approved total of an identity in a game. *)
Definition approved_total (db : D1) (gameId : Z) (uid : string) : Z :=
  sum (map Buyin.amount_cents (buyins_of db gameId uid approved)).

(** What the rows of the four tables have in common after the handlers
    have run one at a time: keys are unique, rows refer to rows that
    exist, and a buy-in is resolved exactly when it has its one vote. *)
Record ledger_ok (db : D1) : Prop := mk_ledger_ok {
  game_ids_unique : NoDup (map GameRow.id (games db));
  game_chats_numeric :
    forall g, In g (games db) ->
      exists chatId, GameRow.chat_id g = String_of_number chatId;
  game_messages_numeric :
    forall g m, In g (games db) -> GameRow.status_message_id g = Some m ->
      exists message_id, message_id <> 0 /\ m = String_of_number message_id;
  roster_unique : NoDup (map player_key (players db));
  players_in_games :
    forall p, In p (players db) -> getGameById db (Player.game_id p) <> None;
  buyin_ids_unique : NoDup (map Buyin.id (buyins db));
  buyins_by_players :
    forall b, In b (buyins db) ->
      0 < Buyin.id b /\ 0 < Buyin.amount_cents b
      /\ find_player db (Buyin.game_id b) (Buyin.user_id b) <> None;
  votes_resolve :
    forall a, In a (approvals db) ->
      exists b, find_buyin db (Approval.buyin_id a) = Some b
        /\ Buyin.status b = verdict (Approval.decision_of a)
        /\ Buyin.user_id b <> Approval.approver_user_id a
        /\ find_player db (Buyin.game_id b) (Approval.approver_user_id a) <> None;
  one_vote_per_buyin :
    forall buyinId, (List.length (votes_on db buyinId) <= 1)%nat }.

(** What one handler run writes, each statement with the facts the handler
    has established before it; the insert and the transition of a vote are
    taken together. *)
Inductive statement : D1 -> D1 -> Prop :=
| st_game db chatId clock cents :
    find (is_active_in (String_of_number chatId)) (games db) = None ->
    statement db (insert_game db (String_of_number chatId) clock cents)
| st_player db game user clock :
    In game (games db) ->
    find_player db (GameRow.id game) (String_of_number (TgUser.id user)) = None ->
    statement db (insert_player db (GameRow.id game) user clock)
| st_buyin db game user cents clock :
    In game (games db) ->
    find_player db (GameRow.id game) (String_of_number (TgUser.id user)) <> None ->
    0 < cents ->
    statement db (insert_buyin db (GameRow.id game)
                    (String_of_number (TgUser.id user)) cents clock)
| st_vote db buyinId approver d clock buyin :
    approval_checks db buyinId approver = inr buyin ->
    statement db
      (fst (apply_tally
              (record_vote db buyinId (String_of_number (TgUser.id approver))
                 d clock) buyinId))
| st_end db game clock :
    In game (games db) ->
    statement db (end_game_row db (GameRow.id game) clock)
| st_message db id message_id :
    message_id <> 0 ->
    statement db (set_status_message_id db id (String_of_number message_id)).

Inductive statements : D1 -> D1 -> Prop :=
| sts_nil db : statements db db
| sts_cons db db1 db2 :
    statement db db1 -> statements db1 db2 -> statements db db2.

(** ** The dispatchers *)

(** What [JSON.parse(data)] gives in [handleCallback]: one of the objects
    the keyboard encodes, a value whose [t] is none of theirs, or nothing
    at all when the parse (or reading [t] of null) throws. A payload
    without an [id] is an action with the id 0. *)
Inductive CallbackData :=
| data_action (a : Action)
| data_other
| data_invalid.

(** [result.message || (result.ok ? yes : no)], and the toast of the
    [catch] clause when the handler throws. *)
Definition toast_of (r : outcome) (yes no : string) : string :=
  match r with
  | Returned res =>
      if String.eqb (message res) "" then (if ok res then yes else no)
      else message res
  | Threw => "Invalid action."
  end.

Definition with_toast (r : Eff outcome) (yes no : string) : Eff string :=
  mkEff (toast_of (value r) yes no) (store r) (trace r).

(** [handleCallback]. [chatId] is [message?.chat?.id]; the result is the
    text of the toast given to [ack]. *)
Definition handleCallback (tg : Telegram) (clock : Z) (db : D1)
    (chatId : option Z) (from : TgUser.t) (data : CallbackData) : Eff string :=
  match chatId with
  | None => mkEff "Missing chat context." db []
  | Some chatId =>
      if chatId =? 0 then mkEff "Missing chat context." db [] else
      match data with
      | data_invalid => mkEff "Invalid action." db []
      | data_other => mkEff "Unsupported action." db []
      | data_action act_join =>
          with_toast (joinGame tg clock db chatId from)
            "Joined." "Unable to join."
      | data_action act_buyin =>
          with_toast (buyIn tg clock db chatId from None)
            "Buy-in requested." "Unable to buy-in."
      | data_action (act_approve id) =>
          with_toast (processApproval tg clock db chatId id from approve)
            "Recorded." "Unable to record."
      | data_action (act_reject id) =>
          with_toast (processApproval tg clock db chatId id from reject)
            "Recorded." "Unable to record."
      | data_action act_refresh =>
          let r := refreshGameMessage tg db (Some chatId) None false in
          mkEff (if value r then "Status refreshed." else "Nothing to refresh.")
                (store r) (trace r)
      | data_action act_end =>
          with_toast (endGame tg clock db chatId)
            "Game ended." "Unable to end game."
      end
  end.

(** What [handleMessage] does after the handler: it sends a text with
    [send], or nothing, or the handler's exception escapes. *)
Inductive Answer := Sent (text : string) | Silent | Failed.

(** [if (!result.ok && result.message) await send(env, chat.id, result.message)] *)
Definition reply_of (r : outcome) : Answer :=
  match r with
  | Returned res =>
      if negb (ok res) && negb (String.eqb (message res) "")
      then Sent (message res) else Silent
  | Threw => Failed
  end.

Definition with_reply (r : Eff outcome) : Eff Answer :=
  mkEff (reply_of (value r)) (store r) (trace r).

(** [handleMessage], from the [switch] on: [group] tells whether
    [chat.type] is "group" or "supergroup", [cmd] is the command word in
    lower case without the bot's name, [argText] the words after it joined
    by blanks. *)
Definition handleMessage (tg : Telegram) (clock : Z) (db : D1) (group : bool)
    (chatId : Z) (from : TgUser.t) (cmd argText : string) : Eff Answer :=
  if negb group then mkEff Silent db []
  else if String.eqb cmd "/startgame"
  then with_reply (startGame tg clock db chatId argText)
  else if String.eqb cmd "/joingame"
  then with_reply (joinGame tg clock db chatId from)
  else if String.eqb cmd "/buyin"
  then with_reply (buyIn tg clock db chatId from (Some argText))
  else if String.eqb cmd "/status"
  then let r := refreshGameMessage tg db (Some chatId) None false in
       mkEff (if value r then Silent else Sent "No active game.")
             (store r) (trace r)
  else if String.eqb cmd "/endgame"
  then with_reply (endGame tg clock db chatId)
  else mkEff Silent db [].


(** The event a command stands for, if any. *)
Definition command_op (chatId : Z) (from : TgUser.t) (cmd argText : string)
  : option Op :=
  if String.eqb cmd "/startgame" then Some (op_start chatId argText)
  else if String.eqb cmd "/joingame" then Some (op_join chatId from)
  else if String.eqb cmd "/buyin" then Some (op_buyin chatId from (Some argText))
  else if String.eqb cmd "/status" then Some (op_status chatId)
  else if String.eqb cmd "/endgame" then Some (op_end chatId)
  else None.

(** The game whose roster, buy-ins or votes an event can change: the
    active game of the chat for a join or a buy-in, the game of the
    request for a vote. *)
Definition game_of_event (db : D1) (ev : Event) : option Z :=
  match ev_op ev with
  | op_join chatId _ | op_buyin chatId _ _ =>
      option_map GameRow.id (currentGame db (String_of_number chatId))
  | op_vote _ buyinId _ _ => option_map Buyin.game_id (find_buyin db buyinId)
  | op_start _ _ | op_end _ | op_status _ => None
  end.

(** [k] is the id Telegram returned for a message that was sent while
    one of the events was handled. *)
Definition sent_during (evs : list Event) (k : Z) : Prop :=
  exists pre ev post payload,
    evs = (pre ++ ev :: post)%list
    /\ In (sendMessage payload) (trace (handle (run pre empty_db) ev))
    /\ send_result (ev_tg ev) = Some k.

(** ** The text of an amount *)

Definition has_digit (s : string) : bool :=
  existsb is_digit (list_ascii_of_string s).

Definition all_digits (s : string) : bool :=
  forallb is_digit (list_ascii_of_string s).

Definition starts_with_digit (s : string) : bool :=
  match s with String c _ => is_digit c | EmptyString => false end.

(** The text the pattern matched ([match[1]]), from its two parts. *)
Definition matched_text (m : string * string) : string :=
  let (ds, fs) := m in
  if String.eqb fs "" then ds else ds ++ "." ++ fs.

(** ** What later states keep *)

(** What a later state keeps of a game row: everything but the reference
    to the status message, the end time and the status, and of the status
    that it is [ended] once it was. Of a buy-in row: everything but the
    status. *)
Definition game_kept (g g' : GameRow.t) : Prop :=
  GameRow.id g' = GameRow.id g
  /\ GameRow.chat_id g' = GameRow.chat_id g
  /\ GameRow.started_at g' = GameRow.started_at g
  /\ GameRow.buy_in_cents g' = GameRow.buy_in_cents g
  /\ (GameRow.status g = ended -> GameRow.status g' = ended).

Definition buyin_kept (b b' : Buyin.t) : Prop :=
  Buyin.id b' = Buyin.id b
  /\ Buyin.game_id b' = Buyin.game_id b
  /\ Buyin.user_id b' = Buyin.user_id b
  /\ Buyin.amount_cents b' = Buyin.amount_cents b
  /\ Buyin.created_at b' = Buyin.created_at b.

(** [db'] has the rows of [db], in their order and before any other. *)
Definition extends (db db' : D1) : Prop :=
  (exists gs new, games db' = (gs ++ new)%list
                  /\ Forall2 game_kept (games db) gs)
  /\ (exists new, players db' = (players db ++ new)%list)
  /\ (exists bs new, buyins db' = (bs ++ new)%list
                     /\ Forall2 buyin_kept (buyins db) bs)
  /\ (exists new, approvals db' = (approvals db ++ new)%list).

(** * The statements a handler executes *)

(** Every change a handler makes to the database is one of seven
    statements, each executed under the condition the handler has checked
    just before. [started] tells for which chats a game may be inserted. *)
Inductive write (started : string -> Prop) : D1 -> D1 -> Prop :=
| write_game db chat clock cents :
    started chat ->
    find (is_active_in chat) (games db) = None ->
    write started db (insert_game db chat clock cents)
| write_player db game_id user clock :
    find_player db game_id (String_of_number (TgUser.id user)) = None ->
    write started db (insert_player db game_id user clock)
| write_buyin db game_id user_id cents clock :
    write started db (insert_buyin db game_id user_id cents clock)
| write_approval db buyinId voter d clock db' :
    insert_approval db buyinId voter d clock = Some db' ->
    write started db db'
| write_status db buyinId s buyin :
    find_buyin db buyinId = Some buyin ->
    Buyin.status buyin = pending ->
    write started db (set_buyin_status db buyinId s)
| write_end db id clock :
    write started db (end_game_row db id clock)
| write_message db id m :
    write started db (set_status_message_id db id m).

Inductive writes (started : string -> Prop) : D1 -> D1 -> Prop :=
| writes_nil db : writes started db db
| writes_cons db db1 db2 :
    write started db db1 -> writes started db1 db2 -> writes started db db2.

(** The chat in which an event may start a game. *)
Definition starts (ev : Event) (chat : string) : Prop :=
  exists chatId argText,
    ev_op ev = op_start chatId argText /\ chat = String_of_number chatId.

Create HintDb ledger.
#[local] Hint Constructors write writes : ledger.

Ltac break_match :=
  match goal with
  | |- context [match ?x with _ => _ end] =>
      match type of x with
      | sumbool _ _ => destruct x
      | _ => destruct x eqn:?
      end
  end.

Lemma writes_one st db db' : write st db db' -> writes st db db'.
Proof. eauto with ledger. Qed.

Lemma writes_trans st db1 db2 db3 :
  writes st db1 db2 -> writes st db2 db3 -> writes st db1 db3.
Proof. induction 1; eauto with ledger. Qed.

#[local] Hint Resolve writes_one : ledger.

Lemma refresh_store_cases tg db chat provided allowCreate :
  store (refreshGameMessage tg db chat provided allowCreate) = db
  \/ exists id m,
      store (refreshGameMessage tg db chat provided allowCreate)
      = set_status_message_id db id m.
Proof.
  unfold refreshGameMessage.
  repeat break_match; simpl; eauto.
Qed.

Lemma refresh_writes st tg db chat provided allowCreate :
  writes st db (store (refreshGameMessage tg db chat provided allowCreate)).
Proof.
  destruct (refresh_store_cases tg db chat provided allowCreate) as [E | (id & m & E)];
    rewrite E; eauto with ledger.
Qed.

Lemma record_vote_writes st db buyinId voter d clock :
  writes st db (record_vote db buyinId voter d clock).
Proof.
  unfold record_vote. destruct (insert_approval db buyinId voter d clock) eqn:E;
    eauto with ledger.
Qed.

Lemma record_vote_buyins db buyinId voter d clock :
  buyins (record_vote db buyinId voter d clock) = buyins db.
Proof.
  unfold record_vote, insert_approval.
  destruct (existsb _ _); reflexivity.
Qed.

Lemma approval_checks_pending db buyinId approver buyin :
  approval_checks db buyinId approver = inr buyin ->
  buyinId <> 0
  /\ find_buyin db buyinId = Some buyin
  /\ Buyin.status buyin = pending
  /\ Buyin.user_id buyin <> String_of_number (TgUser.id approver)
  /\ find_player db (Buyin.game_id buyin) (String_of_number (TgUser.id approver))
     <> None.
Proof.
  unfold approval_checks. intros H.
  destruct (buyinId =? 0) eqn:E0; [discriminate|].
  destruct (find_buyin db buyinId) as [b|] eqn:Eb; [|discriminate].
  destruct (Buyin.status b) eqn:Es; simpl in H; try discriminate.
  destruct (String.eqb _ _) eqn:Eu; [discriminate|].
  destruct (find_player _ _ _) eqn:Ep; [|discriminate].
  inversion H; subst. repeat split; auto.
  - now apply Z.eqb_neq.
  - now apply String.eqb_neq.
  - congruence.
Qed.

Lemma apply_tally_writes st db buyinId buyin :
  find_buyin db buyinId = Some buyin ->
  Buyin.status buyin = pending ->
  writes st db (fst (apply_tally db buyinId)).
Proof.
  intros. unfold apply_tally.
  repeat break_match; simpl; eauto with ledger.
Qed.

(** One handler run is a sequence of such statements. *)
Lemma handle_writes db ev : writes (starts ev) db (step db ev).
Proof.
  unfold step, handle.
  destruct (ev_op ev) as [chatId argText | chatId user | chatId user argText
                         | chatId buyinId approver d | chatId | chatId] eqn:Eop.
  - assert (Hst : starts ev (String_of_number chatId))
      by (unfold starts; eauto).
    unfold startGame. repeat break_match; simpl; eauto with ledger.
    eapply writes_cons; [ apply write_game; eassumption | apply refresh_writes ].
  - unfold joinGame. repeat break_match; simpl; eauto with ledger.
    eapply writes_cons; [ apply write_player; eassumption | apply refresh_writes ].
  - unfold buyIn. repeat break_match; simpl; eauto with ledger;
      (eapply writes_cons; [ apply write_buyin | apply refresh_writes ]).
  - unfold processApproval.
    destruct (approval_checks db buyinId approver) as [msg | buyin] eqn:Ec;
      simpl; eauto with ledger.
    apply approval_checks_pending in Ec. destruct Ec as (Hz & Hf & Hs & _).
    assert (Hw : writes (starts ev) db (fst (apply_tally
                (record_vote db buyinId (String_of_number (TgUser.id approver))
                   d (ev_now ev)) buyinId))).
    { eapply writes_trans; [ apply record_vote_writes | ].
      eapply apply_tally_writes; eauto.
      unfold find_buyin in *. now rewrite record_vote_buyins. }
    destruct (apply_tally _ _) as [db2 changed]; simpl in *.
    break_match; simpl; (eapply writes_trans; [ exact Hw | apply refresh_writes ]).
  - unfold endGame. repeat break_match; simpl; eauto with ledger.
    eapply writes_cons; [ apply write_end | apply refresh_writes ].
  - simpl. apply refresh_writes.
Qed.

(** An invariant of the statements is an invariant of the runs. *)
Lemma writes_invariant st (P : D1 -> Prop) :
  (forall db db', write st db db' -> P db -> P db') ->
  forall db db', writes st db db' -> P db -> P db'.
Proof. intros Hs db db' Hw. induction Hw; eauto. Qed.

Lemma step_invariant (P : D1 -> Prop) :
  (forall st db db', write st db db' -> P db -> P db') ->
  forall db ev, P db -> P (step db ev).
Proof.
  intros Hs db ev. apply (writes_invariant (starts ev) P (Hs _)), handle_writes.
Qed.

Lemma run_invariant (P : D1 -> Prop) :
  (forall st db db', write st db db' -> P db -> P db') ->
  forall evs db, P db -> P (run evs db).
Proof.
  intros Hs evs. unfold run.
  induction evs as [|ev evs IH]; simpl; intros db Hdb; auto.
  apply IH. now apply step_invariant.
Qed.

(** * Theorems *)

(** ** The fallback label *)

(** C10. A participant with neither a handle nor a given name is shown by
    [maskUser] of the identity: the identity itself when it has at most 4
    characters, and otherwise its first two characters, three asterisks and
    its last two characters. *)
Theorem fallback_label_masks_only_long_identities :
  forall s : string,
    ((String.length s <= 4)%nat -> displayName "" "" s = s) /\
    ((4 < String.length s)%nat ->
     displayName "" "" s
     = substring 0 2 s ++ "***" ++ substring (String.length s - 2) 2 s).
Proof.
  intros s. unfold displayName, maskUser. simpl.
  split; intros H.
  - apply Nat.leb_le in H. now rewrite H.
  - apply Nat.leb_gt in H. now rewrite H.
Qed.

Lemma fallback_label_witness :
  ((String.length "1234" <= 4)%nat -> displayName "" "" "1234" = "1234") /\
  ((4 < String.length "123456")%nat -> displayName "" "" "123456" = "12***56").
Proof.
  split.
  - exact (proj1 (fallback_label_masks_only_long_identities "1234")).
  - intros H.
    exact (proj2 (fallback_label_masks_only_long_identities "123456") H).
Defined.

(** ** One active game per chat *)


Lemma find_none_filter {A} (p : A -> bool) (l : list A) :
  find p l = None -> filter p l = [].
Proof.
  induction l as [|a l IH]; simpl; auto.
  destruct (p a); [discriminate | auto].
Qed.

Lemma is_active_in_message chat id m g :
  is_active_in chat
    (if GameRow.id g =? id
     then GameRow.mk (GameRow.id g) (GameRow.chat_id g) (GameRow.status g)
            (GameRow.started_at g) (GameRow.ended_at g)
            (GameRow.buy_in_cents g) (Some m)
     else g)
  = is_active_in chat g.
Proof. destruct (GameRow.id g =? id); reflexivity. Qed.




Lemma filter_map_same {A} (p : A -> bool) (f : A -> A) (l : list A) :
  (forall a, p (f a) = p a) -> filter p (map f l) = map f (filter p l).
Proof.
  intros Hp. induction l as [|a l IH]; simpl; auto.
  rewrite Hp. destruct (p a); simpl; congruence.
Qed.

Lemma active_after_message chat db id m :
  filter (is_active_in chat) (games (set_status_message_id db id m))
  = map (fun g =>
           if GameRow.id g =? id
           then GameRow.mk (GameRow.id g) (GameRow.chat_id g) (GameRow.status g)
                  (GameRow.started_at g) (GameRow.ended_at g)
                  (GameRow.buy_in_cents g) (Some m)
           else g)
        (filter (is_active_in chat) (games db)).
Proof.
  simpl. apply filter_map_same. intros g. apply is_active_in_message.
Qed.

Lemma active_after_insert db chat clock cents :
  find (is_active_in chat) (games db) = None ->
  filter (is_active_in chat) (games (insert_game db chat clock cents))
  = [GameRow.mk (next_id (map GameRow.id (games db))) chat active clock None
       cents None].
Proof.
  intros H. simpl. rewrite filter_app, (find_none_filter _ _ H). simpl.
  unfold is_active_in. simpl. now rewrite String.eqb_refl.
Qed.




(** ** The status of a buy-in *)

Lemma find_map_same {A} (p : A -> bool) (f : A -> A) (l : list A) :
  (forall a, p (f a) = p a) -> find p (map f l) = option_map f (find p l).
Proof.
  intros Hp. induction l as [|a l IH]; simpl; auto.
  rewrite Hp. destruct (p a); simpl; auto.
Qed.

Lemma find_app_some {A} (p : A -> bool) (l l' : list A) a :
  find p l = Some a -> find p (l ++ l') = Some a.
Proof.
  induction l as [|b l IH]; simpl; [discriminate|].
  destruct (p b); auto.
Qed.

Lemma find_holds {A} (p : A -> bool) (l : list A) a :
  find p l = Some a -> p a = true.
Proof. intros H. now apply find_some in H. Qed.

(** What [UPDATE buyins SET status=s WHERE id=i] does to the status of the
    buy-in [k]. *)
Lemma status_of_set db i s k :
  status_of (set_buyin_status db i s) k
  = if k =? i then option_map (fun _ => s) (status_of db k) else status_of db k.
Proof.
  unfold status_of, find_buyin. simpl.
  rewrite find_map_same by (intros b; now destruct (Buyin.id b =? i)).
  destruct (find _ (buyins db)) as [b|] eqn:E; simpl.
  - apply find_holds in E. apply Z.eqb_eq in E. subst k.
    now destruct (Buyin.id b =? i).
  - now destruct (k =? i).
Qed.


Lemma write_ids_positive st db db' :
  write st db db' -> buyin_ids_positive db -> buyin_ids_positive db'.
Proof.
  intros Hw Hi. destruct Hw; auto.
  - intros b Hb. simpl in Hb. apply in_app_or in Hb.
    destruct Hb as [Hb | [Hb | []]]; [now apply Hi|].
    subst b. simpl. unfold next_id.
    assert (0 <= fold_right Z.max 0 (map Buyin.id (buyins db))).
    { generalize (map Buyin.id (buyins db)). induction l; simpl; lia. }
    lia.
  - unfold insert_approval in H. destruct (existsb _ _); [discriminate|].
    inversion H; subst. exact Hi.
  - intros b Hb. simpl in Hb. apply in_map_iff in Hb.
    destruct Hb as (b0 & Eb & Hb0). specialize (Hi _ Hb0).
    destruct (Buyin.id b0 =? buyinId); subst b; simpl; auto.
Qed.

Lemma run_ids_positive evs : buyin_ids_positive (run evs empty_db).
Proof. apply run_invariant; [apply write_ids_positive | intros b []]. Qed.








(** ** The transition written by a vote *)

(** C1, as the code has it. The transition is written by an UPDATE that
    names the buy-in by its id only: once the tally reaches the threshold
    the verdict is written whatever the status was, approved taking
    precedence over rejected. That the buy-in is pending is checked by the
    read at the start of [processApproval]: a vote that starts on a buy-in
    already approved or rejected is refused and changes nothing. *)
Theorem transition_written_whatever_the_status :
  (forall db buyinId s0,
     status_of db buyinId = Some s0 ->
     status_of (fst (apply_tally db buyinId)) buyinId
     = Some (if APPROVALS_REQUIRED <=? count_votes db buyinId approve
             then approved
             else if APPROVALS_REQUIRED <=? count_votes db buyinId reject
                  then rejected
                  else s0))
  /\ (forall tg clock db chatId buyinId approver d s,
        buyinId <> 0 ->
        status_of db buyinId = Some s -> s <> pending ->
        processApproval tg clock db chatId buyinId approver d
        = mkEff (Returned (mkResult false "Buy-in already resolved.")) db []).
Proof.
  split.
  - intros db buyinId s0 Hs. unfold apply_tally.
    destruct (APPROVALS_REQUIRED <=? count_votes db buyinId approve);
      [|destruct (APPROVALS_REQUIRED <=? count_votes db buyinId reject)];
      simpl; auto; rewrite status_of_set, Z.eqb_refl, Hs; reflexivity.
  - intros tg clock db chatId buyinId approver d s Hz Hs Hp.
    unfold processApproval, approval_checks, fail.
    apply Z.eqb_neq in Hz. rewrite Hz.
    unfold status_of in Hs.
    destruct (find_buyin db buyinId) as [b|]; [|discriminate].
    simpl in Hs. inversion Hs; subst s.
    destruct (Buyin.status b); simpl; congruence.
Qed.

Lemma transition_written_witness :
  status_of (fst (apply_tally race_db 1)) 1 = Some approved
  /\ processApproval tg_up 30 resolved_db 1 1 carol reject
     = mkEff (Returned (mkResult false "Buy-in already resolved.")) resolved_db [].
Proof.
  destruct transition_written_whatever_the_status as (Ht & Hv).
  split.
  - apply (Ht race_db 1 rejected). vm_compute; reflexivity.
  - apply (Hv tg_up 30 resolved_db 1 1 carol reject approved);
      [discriminate | vm_compute; reflexivity | discriminate].
Defined.

(** C1, as stated, fails. Bob's approval and carol's rejection of buy-in 1
    both pass the checks while it is pending; carol's vote is tallied first
    and the buy-in is rejected; the transition step of bob's vote then runs
    on a buy-in that is rejected and writes approved, where the conditional
    update of the specification would have left it rejected. *)
Lemma transition_overwrites_a_rejected_buyin :
  (exists b, approval_checks table_db 1 bob = inr b)
  /\ (exists b, approval_checks table_db 1 carol = inr b)
  /\ status_of race_db 1 = Some rejected
  /\ status_of (fst (apply_tally race_db 1)) 1 = Some approved
  /\ fst (apply_tally race_db 1) = set_buyin_status race_db 1 approved
  /\ status_of (set_buyin_status_if_pending race_db 1 approved) 1
     = Some rejected.
Proof.
  split; [eexists; vm_compute; reflexivity|].
  split; [eexists; vm_compute; reflexivity|].
  repeat split; vm_compute; reflexivity.
Qed.

(** ** Votes *)

Lemma existsb_false_filter {A} (p : A -> bool) (l : list A) :
  existsb p l = false -> filter p l = [].
Proof.
  induction l as [|a l IH]; simpl; auto.
  destruct (p a); simpl; [discriminate | auto].
Qed.

Lemma filter_nonempty_existsb {A} (p : A -> bool) (l : list A) :
  filter p l <> [] -> existsb p l = true.
Proof.
  intros H. destruct (existsb p l) eqn:E; auto.
  now apply existsb_false_filter in E.
Qed.

Lemma refresh_tables tg db chat provided allowCreate :
  let db' := store (refreshGameMessage tg db chat provided allowCreate) in
  players db' = players db /\ buyins db' = buyins db
  /\ approvals db' = approvals db.
Proof.
  simpl.
  destruct (refresh_store_cases tg db chat provided allowCreate)
    as [E | (id & m & E)]; rewrite E; auto.
Qed.

Lemma apply_tally_approvals db buyinId :
  approvals (fst (apply_tally db buyinId)) = approvals db.
Proof. unfold apply_tally. repeat break_match; reflexivity. Qed.

Lemma write_one_vote st db db' :
  write st db db' -> one_vote_per_voter db -> one_vote_per_voter db'.
Proof.
  intros Hw Hi. destruct Hw; auto.
  unfold insert_approval in H.
  destruct (existsb _ _) eqn:E; [discriminate|].
  inversion H; subst db'; clear H.
  intros b v. unfold votes_of. simpl.
  rewrite filter_app, length_app. simpl.
  unfold has_voted at 2. simpl.
  destruct (buyinId =? b) eqn:Eb; simpl.
  - destruct (String.eqb voter v) eqn:Ev; simpl.
    + apply Z.eqb_eq in Eb. apply String.eqb_eq in Ev. subst b v.
      rewrite (existsb_false_filter _ _ E). simpl. lia.
    + specialize (Hi b v). unfold votes_of in Hi. lia.
  - specialize (Hi b v). unfold votes_of in Hi. lia.
Qed.

Lemma record_vote_duplicate db buyinId voter d clock :
  votes_of db buyinId voter <> [] ->
  record_vote db buyinId voter d clock = db.
Proof.
  intros H. unfold record_vote, insert_approval.
  now rewrite (filter_nonempty_existsb _ _ H).
Qed.

Lemma record_vote_first db buyinId voter d clock :
  votes_of db buyinId voter = [] ->
  votes_of (record_vote db buyinId voter d clock) buyinId voter
  = [Approval.mk (next_id (map Approval.id (approvals db))) buyinId voter d clock].
Proof.
  intros H. unfold record_vote, insert_approval.
  destruct (existsb (has_voted buyinId voter) (approvals db)) eqn:E.
  - apply existsb_exists in E. destruct E as (a & Ha & Hv).
    assert (In a (votes_of db buyinId voter)) by (apply filter_In; auto).
    rewrite H in *. contradiction.
  - unfold votes_of in *. simpl. rewrite filter_app, H. simpl.
    unfold has_voted. simpl. now rewrite Z.eqb_refl, String.eqb_refl.
Qed.

Lemma processApproval_approvals tg clock db chatId buyinId approver d :
  approvals (store (processApproval tg clock db chatId buyinId approver d))
  = approvals (record_vote db buyinId (String_of_number (TgUser.id approver))
                 d clock)
  \/ store (processApproval tg clock db chatId buyinId approver d) = db.
Proof.
  unfold processApproval.
  destruct (approval_checks db buyinId approver); simpl; auto.
  left.
  pose proof (apply_tally_approvals
                (record_vote db buyinId (String_of_number (TgUser.id approver))
                   d clock) buyinId) as Ha.
  destruct (apply_tally _ _) as [db2 changed]. simpl in Ha.
  break_match; simpl;
    match goal with
    | |- approvals (store (refreshGameMessage ?t ?x ?c ?g ?a)) = _ =>
        destruct (refresh_tables t x c g a) as (_ & _ & E); rewrite E; exact Ha
    end.
Qed.

Lemma checked_vote_succeeds tg clock db chatId buyinId approver d buyin :
  approval_checks db buyinId approver = inr buyin ->
  exists msg,
    value (processApproval tg clock db chatId buyinId approver d)
    = Returned (mkResult true msg).
Proof.
  intros Hc. unfold processApproval. rewrite Hc.
  destruct (apply_tally _ _) as [db2 changed].
  destruct (getGameById _ _); simpl; eauto.
Qed.

(** C4. A request and a voter have at most one vote row, after every
    sequence of events and across every handler run. Inserting a vote for
    a pair that has one already fails on the uniqueness constraint; the
    failure is caught, the database stays as it is whatever the decision,
    and a vote that has passed the checks is answered as a success. So a
    vote by a voter who has voted on the request leaves the approvals
    table, hence both tallies and the recorded decision, unchanged. The
    first vote of a voter is stored with the decision given. *)
Theorem one_vote_per_request_and_voter :
  (forall evs, one_vote_per_voter (run evs empty_db))
  /\ (forall db ev, one_vote_per_voter db -> one_vote_per_voter (step db ev))
  /\ (forall db buyinId voter d clock,
        votes_of db buyinId voter <> [] ->
        insert_approval db buyinId voter d clock = None
        /\ record_vote db buyinId voter d clock = db)
  /\ (forall tg clock db chatId buyinId approver d buyin,
        approval_checks db buyinId approver = inr buyin ->
        exists msg,
          value (processApproval tg clock db chatId buyinId approver d)
          = Returned (mkResult true msg))
  /\ (forall db buyinId voter d clock,
        votes_of db buyinId voter = [] ->
        votes_of (record_vote db buyinId voter d clock) buyinId voter
        = [Approval.mk (next_id (map Approval.id (approvals db)))
             buyinId voter d clock])
  /\ (forall tg clock db chatId buyinId approver d,
        votes_of db buyinId (String_of_number (TgUser.id approver)) <> [] ->
        let db' := store (processApproval tg clock db chatId buyinId approver d) in
        approvals db' = approvals db
        /\ votes_of db' buyinId (String_of_number (TgUser.id approver))
           = votes_of db buyinId (String_of_number (TgUser.id approver))
        /\ forall i d', count_votes db' i d' = count_votes db i d').
Proof.
  split; [intros evs; apply run_invariant;
          [apply write_one_vote | intros b v; simpl; lia]|].
  split; [apply step_invariant, write_one_vote|].
  split.
  { intros db buyinId voter d clock H. split.
    - unfold insert_approval. now rewrite (filter_nonempty_existsb _ _ H).
    - now apply record_vote_duplicate. }
  split; [exact checked_vote_succeeds|].
  split; [exact record_vote_first|].
  intros tg clock db chatId buyinId approver d Hv db'.
  assert (E : approvals db' = approvals db).
  { subst db'.
    destruct (processApproval_approvals tg clock db chatId buyinId approver d)
      as [E | E]; rewrite E; auto.
    now rewrite record_vote_duplicate. }
  unfold votes_of, count_votes. rewrite E. auto.
Qed.

Lemma one_vote_witness :
  one_vote_per_voter (step table_db (mkEvent (op_vote 1 1 bob approve) 20 tg_up))
  /\ record_vote resolved_db 1 "1002" reject 50 = resolved_db
  /\ votes_of (record_vote table_db 1 "1002" approve 20) 1 "1002"
     = [Approval.mk 1 1 "1002" approve 20]
  /\ approvals (store (processApproval tg_up 50 resolved_db 1 1 bob reject))
     = approvals resolved_db.
Proof.
  destruct one_vote_per_request_and_voter
    as (Hrun & Hstep & Hdup & _ & Hfirst & Hvote).
  split; [apply Hstep, (Hrun table_events)|].
  split; [apply Hdup; vm_compute; discriminate|].
  split; [apply (Hfirst table_db 1 "1002" approve 20); vm_compute; reflexivity|].
  apply (Hvote tg_up 50 resolved_db 1 1 bob reject). vm_compute; discriminate.
Defined.

(** ** The checks of a vote *)

Lemma failed_vote_changes_nothing tg clock db chatId buyinId approver d r :
  value (processApproval tg clock db chatId buyinId approver d) = Returned r ->
  ok r = false ->
  exists msg,
    processApproval tg clock db chatId buyinId approver d = fail db msg.
Proof.
  unfold processApproval.
  destruct (approval_checks db buyinId approver) as [msg | buyin]; eauto.
  destruct (apply_tally _ _) as [db2 changed].
  destruct (getGameById _ _); simpl; intros H; inversion H; subst r;
    simpl; discriminate.
Qed.

(** C5. A vote with a request id other than 0 is refused with
    "Buy-in not found." when no request has the id, with
    "Buy-in already resolved." when the request is not pending, with
    "You cannot vote on your own buy-in." when the voter is the requester
    of the pending request, and with
    "Only players can approve or reject buy-ins." when a voter who is not
    the requester is not a player of the request's game. The id 0 is
    refused with "Invalid buy-in." before any lookup, and no request of a
    database reached from the empty one has that id. Every refused vote
    leaves the database as it was and calls nothing, so no vote row is
    written; a vote by the requester of an existing request is always
    refused. *)
Theorem vote_checks_come_before_the_insert :
  forall tg clock db chatId buyinId approver d,
    let voter := String_of_number (TgUser.id approver) in
    let r := processApproval tg clock db chatId buyinId approver d in
    (buyinId <> 0 ->
       (find_buyin db buyinId = None -> r = fail db "Buy-in not found.")
       /\ (forall b, find_buyin db buyinId = Some b ->
             (Buyin.status b <> pending ->
              r = fail db "Buy-in already resolved.")
             /\ (Buyin.status b = pending -> Buyin.user_id b = voter ->
                 r = fail db "You cannot vote on your own buy-in.")
             /\ (Buyin.status b = pending -> Buyin.user_id b <> voter ->
                 find_player db (Buyin.game_id b) voter = None ->
                 r = fail db "Only players can approve or reject buy-ins.")))
    /\ (buyinId = 0 -> r = fail db "Invalid buy-in.")
    /\ (forall evs b, In b (buyins (run evs empty_db)) -> Buyin.id b <> 0)
    /\ (forall res, value r = Returned res -> ok res = false ->
          store r = db /\ trace r = []
          /\ votes_of (store r) buyinId voter = votes_of db buyinId voter)
    /\ (forall b, find_buyin db buyinId = Some b -> Buyin.user_id b = voter ->
          exists msg, r = fail db msg).
Proof.
  intros tg clock db chatId buyinId approver d voter r.
  split; [|split; [|split; [|split]]].
  - intros Hz. apply Z.eqb_neq in Hz.
    subst r. unfold processApproval, approval_checks. rewrite Hz.
    split; [intros E; now rewrite E|].
    intros b E. rewrite E.
    split; [|split].
    + intros Hs. destruct (Buyin.status b); simpl; congruence.
    + intros Hs Hu. rewrite Hs. simpl. fold voter. rewrite Hu.
      now rewrite String.eqb_refl.
    + intros Hs Hu Hp. rewrite Hs. simpl. fold voter.
      apply String.eqb_neq in Hu. now rewrite Hu, Hp.
  - intros Hz. subst r buyinId. reflexivity.
  - intros evs b Hb. pose proof (run_ids_positive evs b Hb). lia.
  - intros res Hv Hok.
    destruct (failed_vote_changes_nothing _ _ _ _ _ _ _ _ Hv Hok) as (msg & E).
    subst r. rewrite E. simpl. auto.
  - intros b Hb Hu. subst r. unfold processApproval, approval_checks.
    rewrite Hb. fold voter. rewrite Hu, String.eqb_refl.
    destruct (buyinId =? 0); eauto.
    destruct (negb _); eauto.
Qed.

Lemma vote_checks_witness :
  processApproval tg_up 30 table_db 1 9 bob approve
  = fail table_db "Buy-in not found."
  /\ processApproval tg_up 30 resolved_db 1 1 carol approve
     = fail resolved_db "Buy-in already resolved."
  /\ processApproval tg_up 30 table_db 1 1 alice approve
     = fail table_db "You cannot vote on your own buy-in."
  /\ processApproval tg_up 30 table_db 1 1 dave approve
     = fail table_db "Only players can approve or reject buy-ins."
  /\ processApproval tg_up 30 table_db 1 0 bob approve
     = fail table_db "Invalid buy-in."
  /\ store (processApproval tg_up 30 table_db 1 1 dave approve) = table_db.
Proof.
  pose (b := Buyin.mk 1 1 "1001" 5000 14 pending).
  pose (b' := Buyin.mk 1 1 "1001" 5000 14 approved).
  split; [|split; [|split; [|split; [|split]]]].
  - apply (vote_checks_come_before_the_insert tg_up 30 table_db 1 9 bob approve);
      [discriminate | vm_compute; reflexivity].
  - apply (vote_checks_come_before_the_insert tg_up 30 resolved_db 1 1 carol approve)
      with (b := b'); [discriminate | vm_compute; reflexivity | discriminate].
  - apply (vote_checks_come_before_the_insert tg_up 30 table_db 1 1 alice approve)
      with (b := b); [discriminate | vm_compute; reflexivity | reflexivity
                     | vm_compute; reflexivity].
  - apply (vote_checks_come_before_the_insert tg_up 30 table_db 1 1 dave approve)
      with (b := b); [discriminate | vm_compute; reflexivity | reflexivity
                     | vm_compute; discriminate | vm_compute; reflexivity].
  - apply (vote_checks_come_before_the_insert tg_up 30 table_db 1 0 bob approve).
    reflexivity.
  - apply (vote_checks_come_before_the_insert tg_up 30 table_db 1 1 dave approve)
      with (res := mkResult false "Only players can approve or reject buy-ins.");
      vm_compute; reflexivity.
Defined.

(** ** Publishing the status message *)









(** ** Ending a game *)


Lemma largest_id_in l g : largest_id l = Some g -> In g l.
Proof.
  revert g. induction l as [|a l IH]; simpl; [discriminate|].
  intros g. destruct (largest_id l) as [h|].
  - destruct (GameRow.id a <? GameRow.id h); intros E; inversion E; subst; auto.
  - intros E; inversion E; auto.
Qed.

Lemma filter_map_none {A} (p : A -> bool) (f : A -> A) (l : list A) :
  (forall a, In a l -> p (f a) = false) -> filter p (map f l) = [].
Proof.
  induction l as [|a l IH]; simpl; auto.
  intros H. rewrite (H a) by auto. auto.
Qed.

Lemma end_game_row_closes_in db chat game clock :
  (List.length (filter (is_active_in chat) (games db)) <= 1)%nat ->
  currentGame db chat = Some game ->
  filter (is_active_in chat) (games (end_game_row db (GameRow.id game) clock)) = [].
Proof.
  intros Hi Hc. unfold currentGame in Hc.
  apply largest_id_in in Hc.
  simpl. apply filter_map_none. intros g Hg.
  destruct (GameRow.id g =? GameRow.id game) eqn:E.
  - unfold is_active_in. simpl. apply andb_false_r.
  - destruct (is_active_in chat g) eqn:Ea; auto.
    assert (Hin : In g (filter (is_active_in chat) (games db)))
      by (apply filter_In; auto).
    destruct (filter (is_active_in chat) (games db)) as [|x [|y l]];
      simpl in *; try contradiction; [|lia].
    destruct Hc as [Hc|[]], Hin as [Hin|[]]. subst x g.
    now rewrite Z.eqb_refl in E.
Qed.

Lemma end_game_row_closes db chat game clock :
  one_active_per_chat db ->
  currentGame db chat = Some game ->
  filter (is_active_in chat) (games (end_game_row db (GameRow.id game) clock)) = [].
Proof. intros Hi. apply end_game_row_closes_in, Hi. Qed.






Lemma refresh_trace tg db chatId provided allowCreate call :
  In call (trace (refreshGameMessage tg db chatId provided allowCreate)) ->
  exists game,
    refreshed_game db chatId provided = Some game
    /\ call_payload call = status_payload db chatId game.
Proof.
  unfold refreshGameMessage. fold (refreshed_game db chatId provided).
  destruct (refreshed_game db chatId provided) as [game|]; [|intros []].
  intros H. exists game. split; auto. revert H.
  unfold status_payload.
  repeat break_match; simpl; intuition (subst; auto).
Qed.








(** ** The projection *)

Section OrderBy.
Context {A : Type} (leb : A -> A -> bool).
Hypothesis leb_total : forall a b, leb a b = true \/ leb b a = true.

Let R (a b : A) : Prop := leb a b = true.

Lemma insert_sorted_perm x l : Permutation (insert_sorted leb x l) (x :: l).
Proof.
  induction l as [|y l IH]; simpl; auto.
  destruct (leb x y); auto.
  rewrite IH. apply perm_swap.
Qed.

Lemma order_by_perm l : Permutation (order_by leb l) l.
Proof.
  induction l as [|x l IH]; simpl; auto.
  rewrite insert_sorted_perm. now constructor.
Qed.

Lemma insert_sorted_hd x y l :
  R y x -> HdRel R y l -> HdRel R y (insert_sorted leb x l).
Proof.
  intros Hyx Hl. destruct l as [|z l]; simpl.
  - now constructor.
  - destruct (leb x z); constructor; auto. now inversion Hl.
Qed.

Lemma insert_sorted_sorted x l : Sorted R l -> Sorted R (insert_sorted leb x l).
Proof.
  induction 1 as [|y l Hs IH Hh]; simpl.
  - repeat constructor.
  - destruct (leb x y) eqn:E.
    + constructor; [constructor; auto | constructor; exact E].
    + constructor; auto. apply insert_sorted_hd; auto.
      destruct (leb_total x y) as [H1 | H1]; [congruence | exact H1].
Qed.

Lemma order_by_sorted l : Sorted R (order_by leb l).
Proof.
  induction l as [|x l IH]; simpl; [constructor|].
  now apply insert_sorted_sorted.
Qed.
End OrderBy.

Section Distinct.
Context {K : Type} (eqb : K -> K -> bool).
Hypothesis eqb_eq : forall x y, eqb x y = true <-> x = y.

Lemma distinct_In l x : In x (distinct eqb l) <-> In x l.
Proof.
  induction l as [|k l IH]; simpl; [tauto|].
  rewrite filter_In, IH.
  destruct (eqb k x) eqn:E.
  - apply eqb_eq in E. subst. simpl. intuition discriminate.
  - simpl. assert (k <> x) by (intros F; apply eqb_eq in F; congruence).
    intuition.
Qed.

Lemma distinct_NoDup l : NoDup (distinct eqb l).
Proof.
  induction l as [|k l IH]; simpl; constructor.
  - rewrite filter_In. intros [_ H].
    assert (E : eqb k k = true) by now apply eqb_eq.
    rewrite E in H. discriminate.
  - now apply NoDup_filter.
Qed.
End Distinct.

Section LeftJoin.
Context {A B : Type} (on : A -> B -> bool).

Lemma left_join_fst l r a ob : In (a, ob) (left_join on l r) -> In a l.
Proof.
  unfold left_join. rewrite in_flat_map. intros (x & Hx & Hin).
  destruct (filter (on x) r) as [|b bs].
  - destruct Hin as [E|[]]. inversion E; subst; auto.
  - apply in_map_iff in Hin. destruct Hin as (y & E & _).
    inversion E; subst; auto.
Qed.

Lemma left_join_covers l r a :
  In a l -> exists ob, In (a, ob) (left_join on l r).
Proof.
  intros Ha. unfold left_join.
  destruct (filter (on a) r) as [|b bs] eqn:E.
  - exists None. apply in_flat_map. exists a. rewrite E. simpl; auto.
  - exists (Some b). apply in_flat_map. exists a. rewrite E. simpl; auto.
Qed.
End LeftJoin.

Lemma string_leb_trans a b c :
  String.leb a b = true -> String.leb b c = true -> String.leb a c = true.
Proof.
  unfold String.leb. intros Hab Hbc.
  destruct (String.compare a b) eqn:E1; try discriminate;
    destruct (String.compare b c) eqn:E2; try discriminate.
  - apply String_as_OT.cmp_eq in E1. subst. now rewrite E2.
  - apply String_as_OT.cmp_eq in E1. subst. now rewrite E2.
  - apply String_as_OT.cmp_eq in E2. subst. now rewrite E1.
  - apply String_as_OT.cmp_lt in E1. apply String_as_OT.cmp_lt in E2.
    pose proof (String_as_OT.lt_trans _ _ _ E1 E2) as H.
    apply String_as_OT.cmp_lt in H. unfold String_as_OT.cmp in H. now rewrite H.
Qed.

Lemma player_row_leb_order a b : player_row_leb a b = true <-> player_order a b.
Proof.
  unfold player_row_leb, player_order.
  rewrite orb_true_iff, andb_true_iff, Z.ltb_lt, Z.eqb_eq. tauto.
Qed.

Lemma player_row_leb_total a b :
  player_row_leb a b = true \/ player_row_leb b a = true.
Proof.
  rewrite !player_row_leb_order. unfold player_order.
  destruct (Z.lt_trichotomy (PlayerRow.approved_cents a) (PlayerRow.approved_cents b))
    as [H | [H | H]]; auto.
  destruct (String.leb_total (PlayerRow.username a) (PlayerRow.username b)); auto.
Qed.

Lemma player_order_trans : Transitive player_order.
Proof.
  intros a b c [H1 | [H1 L1]] [H2 | [H2 L2]]; unfold player_order.
  - left; lia.
  - left; lia.
  - left; lia.
  - right. split; [lia|]. eapply string_leb_trans; eauto.
Qed.

Lemma Sorted_weaken {A} (R R' : A -> A -> Prop) l :
  (forall a b, R a b -> R' a b) -> Sorted R l -> Sorted R' l.
Proof.
  intros Hf. induction 1 as [|a l Hs IH Hh]; constructor; auto.
  destruct Hh; constructor; auto.
Qed.

Lemma playersData_sorted db gameId :
  StronglySorted player_order (playersData db gameId).
Proof.
  apply Sorted_StronglySorted; [exact player_order_trans|].
  unfold playersData.
  apply Sorted_weaken with (R := fun a b => player_row_leb a b = true).
  - intros a b. apply player_row_leb_order.
  - apply order_by_sorted, player_row_leb_total.
Qed.

Lemma players_joined_ids db gameId u :
  In u (map (fun r => Player.user_id (fst r)) (players_joined db gameId))
  <-> exists p, In p (players db) /\ Player.game_id p = gameId
                /\ Player.user_id p = u.
Proof.
  unfold players_joined. rewrite in_map_iff. split.
  - intros ((p & ob) & E & Hin). simpl in E.
    apply filter_In in Hin. destruct Hin as [Hin Hg]. simpl in Hg.
    apply left_join_fst in Hin. apply Z.eqb_eq in Hg. eauto.
  - intros (p & Hin & Hg & Hu).
    destruct (left_join_covers player_buyin_on (players db) (buyins db) p Hin)
      as (ob & Hj).
    exists (p, ob). split; auto.
    apply filter_In. split; auto. simpl. now apply Z.eqb_eq.
Qed.

Lemma playersData_ids db gameId :
  Permutation (map PlayerRow.user_id (playersData db gameId))
    (distinct String.eqb
       (map (fun r => Player.user_id (fst r)) (players_joined db gameId))).
Proof.
  unfold playersData.
  rewrite (order_by_perm player_row_leb).
  rewrite map_map. simpl. rewrite map_id. reflexivity.
Qed.

Lemma pending_joined_ids db gameId i :
  In i (map (fun r : PendingJoin => Buyin.id (fst (fst r))) (pending_joined db gameId))
  <-> exists b, In b (buyins db) /\ Buyin.id b = i
                /\ Buyin.game_id b = gameId /\ Buyin.status b = pending.
Proof.
  unfold pending_joined. rewrite in_map_iff. split.
  - intros (((b & oa) & op) & E & Hin). simpl in E.
    apply filter_In in Hin. destruct Hin as [Hin Hc]. simpl in Hc.
    apply left_join_fst, left_join_fst in Hin.
    apply andb_true_iff in Hc. destruct Hc as [Hg Hs].
    apply Z.eqb_eq in Hg.
    exists b. repeat split; auto.
    destruct (Buyin.status b); simpl in Hs; congruence.
  - intros (b & Hin & Hi & Hg & Hs).
    destruct (left_join_covers (fun b a => Approval.buyin_id a =? Buyin.id b)
                (buyins db) (approvals db) b Hin) as (oa & Hj).
    destruct (left_join_covers
                (fun (ba : Buyin.t * option Approval.t) p =>
                   (Player.game_id p =? Buyin.game_id (fst ba))
                   && String.eqb (Player.user_id p) (Buyin.user_id (fst ba)))
                _ (players db) (b, oa) Hj) as (op & Hj2).
    exists ((b, oa), op). split; auto.
    apply filter_In. split; auto. simpl.
    rewrite Hs. simpl. rewrite andb_true_r. now apply Z.eqb_eq.
Qed.

Lemma pendingData_ids db gameId :
  Permutation (map PendingRow.id (pendingData db gameId))
    (distinct Z.eqb
       (map (fun r : PendingJoin => Buyin.id (fst (fst r)))
            (pending_joined db gameId))).
Proof.
  unfold pendingData.
  rewrite (order_by_perm (fun a b => PendingRow.id a <=? PendingRow.id b)).
  rewrite map_map. simpl. rewrite map_id. reflexivity.
Qed.

Lemma sorted_nodup_strict (l : list Z) :
  Sorted Z.le l -> NoDup l -> StronglySorted Z.lt l.
Proof.
  intros Hs Hn.
  apply Sorted_StronglySorted in Hs; [|intros x y z; apply Z.le_trans].
  induction Hs as [|a l Hs IH Hf]; constructor.
  - apply IH. now inversion Hn.
  - inversion Hn; subst. rewrite Forall_forall in *.
    intros x Hx. specialize (Hf x Hx).
    assert (a <> x) by (intros E; subst; contradiction). lia.
Qed.

Lemma Sorted_map {A B} (R : A -> A -> Prop) (R' : B -> B -> Prop) (f : A -> B) l :
  (forall a b, R a b -> R' (f a) (f b)) ->
  Sorted R l -> Sorted R' (map f l).
Proof.
  intros Hf. induction 1 as [|a l Hs IH Hh]; simpl; constructor; auto.
  destruct Hh; simpl; constructor; auto.
Qed.

Lemma pendingData_sorted db gameId :
  Sorted Z.le (map PendingRow.id (pendingData db gameId)).
Proof.
  unfold pendingData.
  apply Sorted_map
    with (R := fun a b => (PendingRow.id a <=? PendingRow.id b) = true).
  - intros a b. apply Z.leb_le.
  - apply order_by_sorted. intros a b. rewrite !Z.leb_le. lia.
Qed.

Lemma next_id_above l x : In x l -> x < next_id l.
Proof.
  unfold next_id. induction l as [|a l IH]; cbn [fold_right In]; [tauto|].
  intros [E | H]; [subst; lia | specialize (IH H); lia].
Qed.

Lemma write_ids_unique st db db' :
  write st db db' ->
  NoDup (map Buyin.id (buyins db)) -> NoDup (map Buyin.id (buyins db')).
Proof.
  intros Hw Hn. destruct Hw; auto.
  - simpl. rewrite map_app. simpl.
    apply NoDup_app; auto.
    + repeat constructor. intros [].
    + intros x Hx [E | []]. subst x. apply next_id_above in Hx. lia.
  - unfold insert_approval in H. destruct (existsb _ _); [discriminate|].
    inversion H; subst; auto.
  - simpl. rewrite map_map.
    erewrite map_ext; [exact Hn|].
    intros b. now destruct (Buyin.id b =? buyinId).
Qed.

Lemma run_ids_unique evs : NoDup (map Buyin.id (buyins (run evs empty_db))).
Proof. apply run_invariant; [apply write_ids_unique | constructor]. Qed.

Lemma NoDup_map_filter {A B} (f : A -> B) (p : A -> bool) l :
  NoDup (map f l) -> NoDup (map f (filter p l)).
Proof.
  induction l as [|a l IH]; simpl; auto.
  intros H. inversion H; subst.
  destruct (p a); simpl; auto.
  constructor; auto.
  intros Hin. apply in_map_iff in Hin. destruct Hin as (x & E & Hx).
  apply filter_In in Hx. destruct Hx as [Hx _].
  apply H2. rewrite <- E. now apply in_map.
Qed.

Lemma is_pending_in_spec gameId b :
  is_pending_in gameId b = true
  <-> Buyin.game_id b = gameId /\ Buyin.status b = pending.
Proof.
  unfold is_pending_in. rewrite andb_true_iff, Z.eqb_eq.
  destruct (Buyin.status b); simpl; intuition congruence.
Qed.

(** C7, as the code has it. [composeGameState] lists one player row for
    each identity on the roster of the game, ordered by approved total
    descending and then by the stored handle ([username], empty when the
    player has none) ascending; the display label, which is the handle
    after an at sign, else the given name, else the masked identity, is not
    a sort key. It lists the pending requests of the game by request id
    strictly ascending, one row for each since request ids are unique. *)
Theorem projection_rows_and_order :
  forall db gameId,
    state_players (composeGameState db gameId) = playersData db gameId
    /\ state_pending (composeGameState db gameId) = pendingData db gameId
    /\ NoDup (map PlayerRow.user_id (playersData db gameId))
    /\ (forall u,
          In u (map PlayerRow.user_id (playersData db gameId))
          <-> exists p, In p (players db) /\ Player.game_id p = gameId
                        /\ Player.user_id p = u)
    /\ StronglySorted player_order (playersData db gameId)
    /\ StronglySorted Z.lt (map PendingRow.id (pendingData db gameId))
    /\ (forall i,
          In i (map PendingRow.id (pendingData db gameId))
          <-> exists b, In b (buyins db) /\ Buyin.id b = i
                        /\ Buyin.game_id b = gameId
                        /\ Buyin.status b = pending)
    /\ (NoDup (map Buyin.id (buyins db)) ->
        Permutation (map PendingRow.id (pendingData db gameId))
          (map Buyin.id (filter (is_pending_in gameId) (buyins db))))
    /\ (forall evs, NoDup (map Buyin.id (buyins (run evs empty_db))))
    /\ (forall r,
          display_label r
          = if negb (String.eqb (PlayerRow.username r) "")
            then "@" ++ PlayerRow.username r
            else if negb (String.eqb (PlayerRow.first_name r) "")
                 then PlayerRow.first_name r
                 else maskUser (PlayerRow.user_id r)).
Proof.
  intros db gameId.
  assert (Hpn : NoDup (map PendingRow.id (pendingData db gameId))).
  { eapply Permutation_NoDup; [symmetry; apply pendingData_ids|].
    apply distinct_NoDup, Z.eqb_eq. }
  assert (Hpi : forall i,
             In i (map PendingRow.id (pendingData db gameId))
             <-> exists b, In b (buyins db) /\ Buyin.id b = i
                           /\ Buyin.game_id b = gameId
                           /\ Buyin.status b = pending).
  { intros i. split; intros H.
    + apply pending_joined_ids, (distinct_In Z.eqb Z.eqb_eq).
      eapply Permutation_in; [apply pendingData_ids | exact H].
    + apply pending_joined_ids, (distinct_In Z.eqb Z.eqb_eq) in H.
      eapply Permutation_in; [symmetry; apply pendingData_ids | exact H]. }
  split; [reflexivity|]. split; [reflexivity|].
  split; [|split; [|split; [|split; [|split; [|split; [|split]]]]]].
  - eapply Permutation_NoDup; [symmetry; apply playersData_ids|].
    apply distinct_NoDup, String.eqb_eq.
  - intros u. split; intros H.
    + apply players_joined_ids, (distinct_In String.eqb String.eqb_eq).
      eapply Permutation_in; [apply playersData_ids | exact H].
    + apply players_joined_ids, (distinct_In String.eqb String.eqb_eq) in H.
      eapply Permutation_in; [symmetry; apply playersData_ids | exact H].
  - apply playersData_sorted.
  - apply sorted_nodup_strict; [apply pendingData_sorted | exact Hpn].
  - exact Hpi.
  - intros Hu. apply NoDup_Permutation; auto.
    + now apply NoDup_map_filter.
    + intros i. rewrite Hpi, in_map_iff. split.
      * intros (b & Hin & Hi & Hg & Hs). exists b. split; auto.
        apply filter_In. split; auto. now apply is_pending_in_spec.
      * intros (b & Hi & Hin). apply filter_In in Hin.
        destruct Hin as [Hin Hp]. apply is_pending_in_spec in Hp.
        exists b. tauto.
  - exact run_ids_unique.
  - reflexivity.
Qed.

Lemma projection_witness :
  In "1001" (map PlayerRow.user_id (playersData table_db 1))
  /\ In 1 (map PendingRow.id (pendingData table_db 1))
  /\ Permutation (map PendingRow.id (pendingData table_db 1))
       (map Buyin.id (filter (is_pending_in 1) (buyins table_db))).
Proof.
  destruct (projection_rows_and_order table_db 1)
    as (_ & _ & _ & Hp & _ & _ & Hq & Hperm & Hu & _).
  split; [|split].
  - refine (proj2 (Hp "1001") _).
    exists (Player.mk 1 1 "1001" (Some "alice") (Some "Alice") 11).
    vm_compute. auto.
  - refine (proj2 (Hq 1) _).
    exists (Buyin.mk 1 1 "1001" 5000 14 pending).
    vm_compute. auto.
  - exact (Hperm (Hu table_events)).
Defined.

(** C7, as stated, fails. On the sample table the three players have the
    same approved total and are listed by handle: bob, who has none, then
    alice, then carol. Their display labels are "Bob", "@alice" and
    "@carol", and "@alice" comes before "Bob": the rows are not in
    ascending order of display label. *)
Lemma players_not_ordered_by_display_label :
  playersData table_db 1
  = [PlayerRow.mk "1002" "" "Bob" 0 0;
     PlayerRow.mk "1001" "alice" "Alice" 0 1;
     PlayerRow.mk "1003" "carol" "" 0 0]
  /\ map display_label (playersData table_db 1) = ["Bob"; "@alice"; "@carol"]
  /\ String.ltb "@alice" "Bob" = true
  /\ ~ Sorted label_order (playersData table_db 1).
Proof.
  assert (E : playersData table_db 1
              = [PlayerRow.mk "1002" "" "Bob" 0 0;
                 PlayerRow.mk "1001" "alice" "Alice" 0 1;
                 PlayerRow.mk "1003" "carol" "" 0 0])
    by (vm_compute; reflexivity).
  split; [exact E|]. rewrite E.
  split; [vm_compute; reflexivity|].
  split; [vm_compute; reflexivity|].
  intros H. inversion H as [|? ? _ Hh]; subst.
  inversion Hh as [|? ? Hr]; subst.
  destruct Hr as [Hr | [_ Hr]]; [simpl in Hr; lia | vm_compute in Hr; discriminate].
Qed.

(** ** Amounts *)

Lemma round_half_up_integer (n : Z) : round_half_up (inject_Z n) = n.
Proof.
  unfold round_half_up, Qfloor, Qplus, inject_Z. simpl.
  symmetry. apply Z.div_unique with (r := 1); lia.
Qed.

Lemma round_half_up_dyadic (v : Z) (k : Z) :
  0 < k ->
  round_half_up (Qmake v (Z.to_pos (2 ^ k))) = (2 * v + 2 ^ k) / 2 ^ (1 + k).
Proof.
  intros Hk. cbv beta iota delta [round_half_up Qfloor Qplus Qnum Qden].
  assert (Hp : 0 < 2 ^ k) by (apply Z.pow_pos_nonneg; lia).
  rewrite Pos2Z.inj_mul, Z2Pos.id by exact Hp.
  rewrite Z.pow_add_r by lia.
  f_equal; lia.
Qed.

Lemma Math_round_half_up x :
  Math_round x = option_map round_half_up (float_value x).
Proof.
  unfold Math_round, float_value.
  destruct (Prim2SF x) as [s | s | | s m e]; simpl; auto.
  destruct (0 <=? e) eqn:E; f_equal.
  - now rewrite round_half_up_integer.
  - apply Z.leb_gt in E.
    rewrite round_half_up_dyadic by lia.
    reflexivity.
Qed.

Lemma startGame_accepts tg clock db chatId argText r :
  value (startGame tg clock db chatId argText) = Returned r ->
  ok r = true ->
  exists m cents,
    find (is_active_in (String_of_number chatId)) (games db) = None
    /\ match_amount argText = Some m
    /\ toCents (parseFloat m) = Some cents
    /\ (store (startGame tg clock db chatId argText)
        = insert_game db (String_of_number chatId) clock cents
        \/ exists id mid,
            store (startGame tg clock db chatId argText)
            = set_status_message_id
                (insert_game db (String_of_number chatId) clock cents) id mid).
Proof.
  unfold startGame.
  destruct (find _ (games db)) eqn:Ef; simpl.
  { intros H; inversion H; subst; discriminate. }
  destruct (match_amount argText) as [m|] eqn:Em; simpl.
  2:{ intros H; inversion H; subst; discriminate. }
  destruct (0 <? parseFloat m)%float; simpl.
  2:{ intros H; inversion H; subst; discriminate. }
  destruct (toCents (parseFloat m)) as [cents|] eqn:Ec; simpl; [|discriminate].
  intros _ _. exists m, cents. repeat split; auto.
  break_match; simpl; auto.
  apply refresh_store_cases.
Qed.

Lemma startGame_amount tg clock db chatId argText r :
  value (startGame tg clock db chatId argText) = Returned r ->
  ok r = true ->
  exists m cents g,
    match_amount argText = Some m
    /\ toCents (parseFloat m) = Some cents
    /\ filter (is_active_in (String_of_number chatId))
              (games (store (startGame tg clock db chatId argText))) = [g]
    /\ GameRow.buy_in_cents g = cents.
Proof.
  intros Hv Hok.
  destruct (startGame_accepts _ _ _ _ _ _ Hv Hok)
    as (m & cents & Ef & Em & Ec & Hst).
  pose proof (active_after_insert db _ clock cents Ef) as Ha.
  exists m, cents.
  destruct Hst as [E | (id & mid & E)]; rewrite E.
  - eexists. split; [exact Em|]. split; [exact Ec|]. split; [exact Ha|reflexivity].
  - rewrite active_after_message, Ha. simpl.
    eexists. split; [exact Em|]. split; [exact Ec|]. split; [reflexivity|].
    now destruct (_ =? id).
Qed.

(** C6, as the code has it. [toCents] is [Math.round] of the binary64
    product of the parsed amount and 100: the integer nearest to that
    product, a tie going up, not to the even neighbour. For every text
    [startGame] accepts, the new game of the chat carries that number of
    cents. An amount of 50 gives 5000; 50.125, whose product with 100 is
    exactly 5012.5, gives 5013. *)
Theorem toCents_rounds_half_up :
  (forall x, Math_round x = option_map round_half_up (float_value x))
  /\ (forall n,
        toCents n = option_map round_half_up (float_value (n * 100)%float))
  /\ (forall k : Z, round_half_up (Qplus (inject_Z k) (Qmake 1 2)) = k + 1)
  /\ (forall tg clock db chatId argText r,
        value (startGame tg clock db chatId argText) = Returned r ->
        ok r = true ->
        exists m cents g,
          match_amount argText = Some m
          /\ toCents (parseFloat m) = Some cents
          /\ filter (is_active_in (String_of_number chatId))
                    (games (store (startGame tg clock db chatId argText))) = [g]
          /\ GameRow.buy_in_cents g = cents)
  /\ toCents (parseFloat ("50", "")) = Some 5000
  /\ toCents (parseFloat ("50", "125")) = Some 5013.
Proof.
  split; [exact Math_round_half_up|].
  split; [intros n; apply Math_round_half_up|].
  split.
  { intros k. unfold round_half_up, Qfloor, Qplus, inject_Z. simpl.
    symmetry. apply Z.div_unique with (r := 0); lia. }
  split; [exact startGame_amount|].
  split; vm_compute; reflexivity.
Qed.

Lemma toCents_witness :
  exists m cents g,
    match_amount "50.125" = Some m
    /\ toCents (parseFloat m) = Some cents
    /\ filter (is_active_in (String_of_number 1))
              (games (store (startGame tg_up 10 empty_db 1 "50.125"))) = [g]
    /\ GameRow.buy_in_cents g = cents.
Proof.
  destruct toCents_rounds_half_up as (_ & _ & _ & H & _).
  apply (H tg_up 10 empty_db 1 "50.125" (mkResult true "Game started."));
    vm_compute; reflexivity.
Defined.

(** C6, as stated, fails. The text "50.125" parses to 50.125, whose
    product with 100 is exactly 5012.5 (10025 halves); rounding half to
    even gives 5012, and [startGame] stores 5013. *)
Lemma amount_tie_is_not_rounded_to_even :
  match_amount "50.125" = Some ("50", "125")
  /\ option_map Qred (float_value (parseFloat ("50", "125") * 100)%float)
     = Some (Qmake 10025 2)
  /\ round_half_even (Qmake 10025 2) = 5012
  /\ toCents (parseFloat ("50", "125")) = Some 5013
  /\ map GameRow.buy_in_cents
       (games (store (startGame tg_up 10 empty_db 1 "50.125"))) = [5013].
Proof. repeat split; vm_compute; reflexivity. Qed.

(** * Further properties of the handlers *)

(** ** Handler runs as statements *)

Lemma statements_trans db1 db2 db3 :
  statements db1 db2 -> statements db2 db3 -> statements db1 db3.
Proof. induction 1; intros; [assumption | econstructor; eauto]. Qed.

Lemma statements_one db db' : statement db db' -> statements db db'.
Proof. intros H. econstructor; [exact H | constructor]. Qed.

Lemma refresh_store_numeric tg db chat provided allowCreate :
  store (refreshGameMessage tg db chat provided allowCreate) = db
  \/ exists id message_id,
      message_id <> 0
      /\ store (refreshGameMessage tg db chat provided allowCreate)
         = set_status_message_id db id (String_of_number message_id).
Proof.
  unfold refreshGameMessage.
  repeat break_match; simpl; auto; right;
    match goal with
    | H : (?z =? 0) = false |- _ =>
        apply Z.eqb_neq in H; eexists; exists z; split; [exact H | reflexivity]
    end.
Qed.

Lemma refresh_statements tg db chat provided allowCreate :
  statements db (store (refreshGameMessage tg db chat provided allowCreate)).
Proof.
  destruct (refresh_store_numeric tg db chat provided allowCreate)
    as [E | (id & mid & Hz & E)]; rewrite E.
  - constructor.
  - apply statements_one. now constructor.
Qed.

Lemma currentGame_in db chat game :
  currentGame db chat = Some game ->
  In game (games db) /\ is_active_in chat game = true.
Proof.
  unfold currentGame. intros H. apply largest_id_in in H.
  now apply filter_In in H.
Qed.

Lemma handle_statements db ev : statements db (step db ev).
Proof.
  unfold step, handle.
  destruct (ev_op ev) as [chatId argText | chatId user | chatId user argText
                         | chatId buyinId approver d | chatId | chatId].
  - unfold startGame. repeat break_match; simpl; try constructor.
    + eapply sts_cons; [apply st_game; eassumption | apply refresh_statements].
    + apply statements_one, st_game. assumption.
  - unfold joinGame.
    destruct (currentGame db (String_of_number chatId)) as [game|] eqn:Ec;
      simpl; [|constructor].
    apply currentGame_in in Ec. destruct Ec as [Hin _].
    destruct (find_player _ _ _) eqn:Ep; simpl; [constructor|].
    eapply sts_cons; [apply st_player; eassumption | apply refresh_statements].
  - unfold buyIn.
    destruct (currentGame db (String_of_number chatId)) as [game|] eqn:Ec;
      simpl; [|constructor].
    apply currentGame_in in Ec. destruct Ec as [Hin _].
    destruct (find_player _ _ _) eqn:Ep; simpl; [|constructor].
    assert (Hp : find_player db (GameRow.id game)
                   (String_of_number (TgUser.id user)) <> None) by congruence.
    repeat break_match; simpl; try constructor;
      (eapply sts_cons;
       [ apply st_buyin; [exact Hin | exact Hp |];
         match goal with
         | H : negb (0 <? _) = false |- _ =>
             apply negb_false_iff, Z.ltb_lt in H; exact H
         end
       | apply refresh_statements ]).
  - unfold processApproval.
    destruct (approval_checks db buyinId approver) as [msg | buyin] eqn:Ec;
      simpl; [constructor|].
    pose proof (st_vote db buyinId approver d (ev_now ev) buyin Ec) as Hs.
    destruct (apply_tally _ _) as [db2 changed]; simpl in *.
    break_match; simpl;
      (eapply sts_cons; [exact Hs | apply refresh_statements]).
  - unfold endGame.
    destruct (currentGame db (String_of_number chatId)) as [game|] eqn:Ec;
      simpl; [|constructor].
    apply currentGame_in in Ec. destruct Ec as [Hin _].
    break_match; simpl.
    + eapply sts_cons; [apply st_end; exact Hin | apply refresh_statements].
    + apply statements_one, st_end. exact Hin.
  - simpl. apply refresh_statements.
Qed.

Lemma statements_invariant (P : D1 -> Prop) :
  (forall db db', statement db db' -> P db -> P db') ->
  forall db db', statements db db' -> P db -> P db'.
Proof. intros Hs db db' H. induction H; eauto. Qed.

Lemma run_statements_invariant (P : D1 -> Prop) :
  (forall db db', statement db db' -> P db -> P db') ->
  forall evs db, P db -> P (run evs db).
Proof.
  intros Hs evs. unfold run.
  induction evs as [|ev evs IH]; simpl; intros db Hdb; auto.
  apply IH. eapply statements_invariant; eauto using handle_statements.
Qed.

(** ** Well-formed ledgers are kept *)

Lemma filter_nil_iff {A} (p : A -> bool) (l : list A) :
  filter p l = [] <-> forall a, In a l -> p a = false.
Proof.
  split.
  - intros H a Ha. destruct (p a) eqn:E; auto.
    assert (In a (filter p l)) by (apply filter_In; auto).
    rewrite H in *. contradiction.
  - intros H. induction l as [|a l IH]; simpl; auto.
    rewrite (H a) by (left; reflexivity). apply IH. intros; apply H; now right.
Qed.

Lemma verdict_not_pending d : verdict d <> pending.
Proof. destruct d; discriminate. Qed.

Lemma pending_has_no_votes db buyinId buyin :
  (forall a, In a (approvals db) ->
     exists b, find_buyin db (Approval.buyin_id a) = Some b
               /\ Buyin.status b = verdict (Approval.decision_of a)) ->
  find_buyin db buyinId = Some buyin -> Buyin.status buyin = pending ->
  votes_on db buyinId = [].
Proof.
  intros Hv Hf Hs. apply filter_nil_iff. intros a Ha.
  destruct (Approval.buyin_id a =? buyinId) eqn:E; auto.
  apply Z.eqb_eq in E. destruct (Hv a Ha) as (b & Hb & Hd).
  rewrite E, Hf in Hb. inversion Hb; subst b.
  rewrite Hs in Hd. symmetry in Hd. now apply verdict_not_pending in Hd.
Qed.

Lemma first_vote_decides db buyinId voter d clock :
  votes_on db buyinId = [] ->
  apply_tally (record_vote db buyinId voter d clock) buyinId
  = (set_buyin_status
       (mkD1 (games db) (players db) (buyins db)
             (approvals db ++ [vote_row db buyinId voter d clock])%list)
       buyinId (verdict d),
     Some (vote_message buyinId d)).
Proof.
  intros Hv.
  assert (Hn : forall a, In a (approvals db) ->
                 (Approval.buyin_id a =? buyinId) = false)
    by (now apply filter_nil_iff).
  assert (He : existsb (has_voted buyinId voter) (approvals db) = false).
  { destruct (existsb _ _) eqn:E; auto.
    apply existsb_exists in E. destruct E as (a & Ha & Hh).
    unfold has_voted in Hh. rewrite (Hn a Ha) in Hh. discriminate. }
  assert (Hc : forall d',
             count_votes (record_vote db buyinId voter d clock) buyinId d'
             = if decision_eqb d d' then 1 else 0).
  { intros d'. unfold count_votes, record_vote, insert_approval. rewrite He.
    simpl. rewrite filter_app. simpl. rewrite Z.eqb_refl. simpl.
    replace (filter _ (approvals db)) with (@nil Approval.t).
    - now destruct (decision_eqb d d').
    - symmetry. apply filter_nil_iff. intros a Ha. now rewrite (Hn a Ha). }
  unfold apply_tally. rewrite !Hc.
  unfold record_vote, insert_approval. rewrite He.
  unfold APPROVALS_REQUIRED, vote_message, vote_row.
  destruct d; reflexivity.
Qed.

Lemma find_buyin_set db i s k :
  find_buyin (set_buyin_status db i s) k
  = option_map
      (fun b => if Buyin.id b =? i
                then Buyin.mk (Buyin.id b) (Buyin.game_id b) (Buyin.user_id b)
                       (Buyin.amount_cents b) (Buyin.created_at b) s
                else b)
      (find_buyin db k).
Proof.
  unfold find_buyin. simpl. apply find_map_same.
  intros b. simpl. now destruct (Buyin.id b =? i).
Qed.

Lemma getGameById_map db (f : GameRow.t -> GameRow.t) k :
  (forall g, GameRow.id (f g) = GameRow.id g) ->
  find (fun g => GameRow.id g =? k) (map f (games db))
  = option_map f (getGameById db k).
Proof.
  intros Hf. unfold getGameById. apply find_map_same.
  intros g. now rewrite Hf.
Qed.

Lemma find_app_none {A} (p : A -> bool) (l l' : list A) :
  find p l = None -> find p (l ++ l') = find p l'.
Proof.
  induction l as [|b l IH]; simpl; auto.
  destruct (p b); [discriminate | auto].
Qed.

Lemma find_app_keeps {A} (p : A -> bool) (l l' : list A) :
  find p l <> None -> find p (l ++ l') <> None.
Proof.
  destruct (find p l) eqn:E; [|congruence].
  intros _. rewrite (find_app_some _ _ _ _ E). discriminate.
Qed.

Lemma find_in_not_none {A} (p : A -> bool) (l : list A) a :
  In a l -> p a = true -> find p l <> None.
Proof.
  intros Ha Hp E. rewrite (find_none _ _ E a Ha) in Hp. discriminate.
Qed.

Lemma NoDup_snoc {A} (l : list A) (x : A) :
  NoDup l -> ~ In x l -> NoDup (l ++ [x]).
Proof.
  intros Hn Hx. apply NoDup_app; auto.
  - repeat constructor. intros [].
  - intros y Hy [E | []]. subst. contradiction.
Qed.

Lemma next_id_fresh l : ~ In (next_id l) l.
Proof. intros H. apply next_id_above in H. lia. Qed.

Lemma next_id_positive l : 0 < next_id l.
Proof.
  unfold next_id.
  assert (0 <= fold_right Z.max 0 l) by (induction l; cbn [fold_right]; lia).
  lia.
Qed.

Lemma ledger_ok_empty : ledger_ok empty_db.
Proof.
  constructor; simpl; try constructor; try (intros ? []); try (intros ? ? []).
  all: intros; simpl; try lia.
Qed.

Lemma ledger_ok_games_map db (f : GameRow.t -> GameRow.t) :
  (forall g, GameRow.id (f g) = GameRow.id g) ->
  (forall g, GameRow.chat_id (f g) = GameRow.chat_id g) ->
  (forall g m, GameRow.status_message_id (f g) = Some m ->
     GameRow.status_message_id g = Some m
     \/ exists message_id, message_id <> 0 /\ m = String_of_number message_id) ->
  ledger_ok db ->
  ledger_ok (mkD1 (map f (games db)) (players db) (buyins db) (approvals db)).
Proof.
  intros Hid Hchat Hmsg [H1 H2 H3 H4 H5 H6 H7 H8 H9].
  constructor; simpl; auto.
  - rewrite map_map. erewrite map_ext; [exact H1 | exact Hid].
  - intros g' Hg'. apply in_map_iff in Hg'. destruct Hg' as (g & E & Hg).
    subst g'. rewrite Hchat. auto.
  - intros g' m Hg' Hm. apply in_map_iff in Hg'. destruct Hg' as (g & E & Hg).
    subst g'. destruct (Hmsg g m Hm) as [Hm' | Hm']; eauto.
  - intros p Hp. unfold getGameById. simpl.
    rewrite (getGameById_map db f _ Hid).
    specialize (H5 p Hp). destruct (getGameById db (Player.game_id p));
      simpl; congruence.
Qed.

Lemma statement_keeps_ledger db db' :
  statement db db' -> ledger_ok db -> ledger_ok db'.
Proof.
  intros Hs Hok. destruct Hs.
  - (* a game is inserted *)
    destruct Hok as [K1 K2 K3 K4 K5 K6 K7 K8 K9].
    constructor; simpl; auto.
    + rewrite map_app. simpl. apply NoDup_snoc; auto. apply next_id_fresh.
    + intros g Hg. apply in_app_or in Hg. destruct Hg as [Hg | [Hg | []]]; auto.
      subst g. simpl. eauto.
    + intros g m Hg Hm. apply in_app_or in Hg.
      destruct Hg as [Hg | [Hg | []]]; eauto. subst g. discriminate.
    + intros p Hp. unfold getGameById. simpl. apply find_app_keeps.
      exact (K5 p Hp).
  - (* a player is inserted *)
    destruct Hok as [K1 K2 K3 K4 K5 K6 K7 K8 K9].
    constructor; simpl; auto.
    + rewrite map_app. simpl. apply NoDup_snoc; auto.
      intros Hin. apply in_map_iff in Hin. destruct Hin as (p & Ek & Hp).
      unfold player_key in Ek. simpl in Ek. inversion Ek.
      apply (find_in_not_none (is_player (GameRow.id game)
               (String_of_number (TgUser.id user))) _ p Hp); auto.
      unfold is_player.
      match goal with
      | E1 : Player.game_id p = _, E2 : Player.user_id p = _ |- _ =>
          rewrite E1, E2
      end.
      now rewrite Z.eqb_refl, String.eqb_refl.
    + intros p Hp. apply in_app_or in Hp. destruct Hp as [Hp | [Hp | []]].
      * exact (K5 p Hp).
      * subst p. simpl. unfold getGameById.
        apply (find_in_not_none _ _ game); auto. apply Z.eqb_refl.
    + intros b Hb. destruct (K7 b Hb) as (Hi & Ha & Hf).
      repeat split; auto. unfold find_player. simpl. now apply find_app_keeps.
    + intros a Ha. destruct (K8 a Ha) as (b & Hb & Hd & Hu & Hf).
      exists b. repeat split; auto.
      unfold find_player. simpl. now apply find_app_keeps.
  - (* a buy-in is inserted *)
    destruct Hok as [K1 K2 K3 K4 K5 K6 K7 K8 K9].
    constructor; simpl; auto.
    + rewrite map_app. simpl. apply NoDup_snoc; auto. apply next_id_fresh.
    + intros b Hb. apply in_app_or in Hb. destruct Hb as [Hb | [Hb | []]].
      * exact (K7 b Hb).
      * subst b. simpl. repeat split; auto. apply next_id_positive.
    + intros a Ha. destruct (K8 a Ha) as (b & Hb & Hd & Hu & Hf).
      exists b. repeat split; auto.
      unfold find_buyin in *. simpl. now apply find_app_some.
  - (* a vote is recorded and tallied *)
    destruct (approval_checks_pending _ _ _ _ H) as (Hz & Hf & Hp & Hu & Hm).
    assert (Hv : votes_on db buyinId = []).
    { eapply pending_has_no_votes; eauto.
      intros a Ha. destruct (votes_resolve db Hok a Ha) as (b & Hb & Hd & _).
      eauto. }
    rewrite (first_vote_decides db buyinId _ d clock Hv). simpl.
    destruct Hok as [K1 K2 K3 K4 K5 K6 K7 K8 K9].
    constructor; simpl; auto.
    + rewrite map_map. erewrite map_ext; [exact K6|].
      intros b. now destruct (Buyin.id b =? buyinId).
    + intros b' Hb'. apply in_map_iff in Hb'. destruct Hb' as (b & E & Hb).
      destruct (K7 b Hb) as (Hi & Ha & Hfp).
      destruct (Buyin.id b =? buyinId); subst b'; simpl; auto.
    + intros a Ha. rewrite find_buyin_set. simpl.
      apply in_app_or in Ha. destruct Ha as [Ha | [Ha | []]].
      * destruct (K8 a Ha) as (b & Hb & Hd & Hub & Hfb).
        unfold find_buyin at 1. simpl. fold (find_buyin db (Approval.buyin_id a)).
        rewrite Hb. simpl. eexists. split; [reflexivity|].
        assert (Hne : (Buyin.id b =? buyinId) = false).
        { apply find_holds in Hb. apply Z.eqb_eq in Hb. rewrite Hb.
          apply (proj1 (filter_nil_iff _ _) Hv a Ha). }
        rewrite Hne. auto.
      * subst a. simpl.
        unfold find_buyin at 1. simpl. fold (find_buyin db buyinId).
        rewrite Hf. simpl. eexists. split; [reflexivity|].
        apply find_holds in Hf. rewrite Hf. simpl. auto.
    + intros k. unfold votes_on. simpl. rewrite filter_app, length_app. simpl.
      destruct (buyinId =? k) eqn:Ek; simpl.
      * apply Z.eqb_eq in Ek. subst k. unfold votes_on in Hv. rewrite Hv.
        simpl. lia.
      * specialize (K9 k). unfold votes_on in K9. lia.
  - (* a game is ended *)
    apply (ledger_ok_games_map db
             (fun g => if GameRow.id g =? GameRow.id game
                       then GameRow.mk (GameRow.id g) (GameRow.chat_id g) ended
                              (GameRow.started_at g) (Some clock)
                              (GameRow.buy_in_cents g)
                              (GameRow.status_message_id g)
                       else g)); auto;
      intros g; destruct (GameRow.id g =? GameRow.id game); simpl; auto.
  - (* the status message is recorded *)
    apply (ledger_ok_games_map db
             (fun g => if GameRow.id g =? id
                       then GameRow.mk (GameRow.id g) (GameRow.chat_id g)
                              (GameRow.status g) (GameRow.started_at g)
                              (GameRow.ended_at g) (GameRow.buy_in_cents g)
                              (Some (String_of_number message_id))
                       else g)); auto;
      intros g; destruct (GameRow.id g =? id); simpl; auto.
    intros m E. inversion E; subst m. right. eauto.
Qed.

Lemma run_ledger_ok evs : ledger_ok (run evs empty_db).
Proof.
  apply run_statements_invariant;
    [exact statement_keeps_ledger | exact ledger_ok_empty].
Qed.

(** ** Refused operations *)



(** ** Keys and references *)

(** X2. After any sequence of events the keys of the tables are unique and
    the rows refer to rows that exist: no two games share an id, no two
    players share a game and an identity, no two buy-ins share an id; every
    player belongs to a game of the database; every buy-in has an id and an
    amount above zero and was made by a player of its game. *)
Theorem ledger_keys_and_references :
  forall evs,
    let db := run evs empty_db in
    NoDup (map GameRow.id (games db))
    /\ NoDup (map player_key (players db))
    /\ NoDup (map Buyin.id (buyins db))
    /\ (forall p, In p (players db) ->
          exists g, getGameById db (Player.game_id p) = Some g)
    /\ (forall b, In b (buyins db) ->
          0 < Buyin.id b /\ 0 < Buyin.amount_cents b
          /\ exists p, find_player db (Buyin.game_id b) (Buyin.user_id b) = Some p).
Proof.
  intros evs db.
  destruct (run_ledger_ok evs) as [K1 K2 K3 K4 K5 K6 K7 K8 K9].
  fold db in K1, K4, K5, K6, K7.
  split; [exact K1|]. split; [exact K4|]. split; [exact K6|]. split.
  - intros p Hp. specialize (K5 p Hp).
    destruct (getGameById db (Player.game_id p)); [eauto | congruence].
  - intros b Hb. destruct (K7 b Hb) as (Hi & Ha & Hf).
    repeat split; auto.
    destruct (find_player db (Buyin.game_id b) (Buyin.user_id b));
      [eauto | congruence].
Qed.

Lemma ledger_keys_witness :
  exists p, find_player table_db 1 "1001" = Some p.
Proof.
  destruct (ledger_keys_and_references table_events) as (_ & _ & _ & _ & H).
  destruct (H (Buyin.mk 1 1 "1001" 5000 14 pending)) as (_ & _ & Hp).
  - vm_compute. auto.
  - exact Hp.
Defined.

(** X3. After any sequence of events every recorded vote is a vote on a
    buy-in of the database that is no longer pending, cast by a player of
    that buy-in's game who is not its requester; a pending buy-in has no
    vote. *)
Theorem recorded_votes_are_legitimate :
  forall evs,
    let db := run evs empty_db in
    (forall a, In a (approvals db) ->
       exists b p,
         find_buyin db (Approval.buyin_id a) = Some b
         /\ Buyin.status b <> pending
         /\ Buyin.user_id b <> Approval.approver_user_id a
         /\ find_player db (Buyin.game_id b) (Approval.approver_user_id a)
            = Some p)
    /\ (forall buyinId,
          status_of db buyinId = Some pending -> votes_on db buyinId = []).
Proof.
  intros evs db.
  destruct (run_ledger_ok evs) as [K1 K2 K3 K4 K5 K6 K7 K8 K9].
  fold db in K8, K9.
  split.
  - intros a Ha. destruct (K8 a Ha) as (b & Hb & Hd & Hu & Hf).
    destruct (find_player db (Buyin.game_id b) (Approval.approver_user_id a))
      as [p|] eqn:Ep; [|congruence].
    exists b, p. split; [exact Hb|]. split; [|auto].
    rewrite Hd. apply verdict_not_pending.
  - intros buyinId Hs. unfold status_of in Hs.
    destruct (find_buyin db buyinId) as [b|] eqn:Eb; [|discriminate].
    simpl in Hs. inversion Hs.
    eapply pending_has_no_votes; eauto.
    intros a Ha. destruct (K8 a Ha) as (b' & Hb' & Hd & _). eauto.
Qed.

Lemma recorded_votes_witness :
  exists b p,
    find_buyin resolved_db 1 = Some b
    /\ Buyin.status b <> pending
    /\ find_player resolved_db (Buyin.game_id b) "1002" = Some p.
Proof.
  destruct (recorded_votes_are_legitimate resolved_events) as (H & _).
  destruct (H (Approval.mk 1 1 "1002" approve 20)) as (b & p & Hb & Hs & _ & Hp).
  - vm_compute. auto.
  - exists b, p. split; [exact Hb|]. split; [exact Hs | exact Hp].
Defined.

(** ** A vote that is accepted *)

Lemma approval_checks_pass db buyinId approver buyin p :
  buyinId <> 0 ->
  find_buyin db buyinId = Some buyin ->
  Buyin.status buyin = pending ->
  Buyin.user_id buyin <> String_of_number (TgUser.id approver) ->
  find_player db (Buyin.game_id buyin) (String_of_number (TgUser.id approver))
  = Some p ->
  approval_checks db buyinId approver = inr buyin.
Proof.
  intros Hz Hf Hs Hu Hp. unfold approval_checks.
  apply Z.eqb_neq in Hz. rewrite Hz, Hf, Hs. simpl.
  apply String.eqb_neq in Hu. now rewrite Hu, Hp.
Qed.

Lemma processApproval_store tg clock db chatId buyinId approver d buyin :
  approval_checks db buyinId approver = inr buyin ->
  let db2 := fst (apply_tally
                    (record_vote db buyinId
                       (String_of_number (TgUser.id approver)) d clock)
                    buyinId) in
  let r := processApproval tg clock db chatId buyinId approver d in
  (store r = db2
   \/ exists id message_id,
       message_id <> 0
       /\ store r = set_status_message_id db2 id (String_of_number message_id))
  /\ value r
     = Returned (mkResult true
         match snd (apply_tally
                      (record_vote db buyinId
                         (String_of_number (TgUser.id approver)) d clock)
                      buyinId) with
         | Some message => message
         | None =>
             "Vote recorded ("
             ++ String_of_number
                  (count_votes
                     (record_vote db buyinId
                        (String_of_number (TgUser.id approver)) d clock)
                     buyinId approve)
             ++ "/" ++ String_of_number APPROVALS_REQUIRED ++ ")."
         end).
Proof.
  intros Hc. simpl. unfold processApproval. rewrite Hc.
  destruct (apply_tally _ _) as [db2 changed]. simpl.
  destruct (getGameById db2 (Buyin.game_id buyin)); simpl;
    (split; [apply refresh_store_numeric | reflexivity]).
Qed.

(** X4. In a well-formed ledger one accepted vote settles the request. A
    vote on a pending request with an id other than 0, by a player of its
    game who is not the requester, succeeds with the message of the
    transition, adds exactly that vote to the approvals, gives the request
    the status the vote asked for, and leaves the roster and every other
    request as they were. *)
Theorem one_accepted_vote_settles_the_request :
  forall tg clock db chatId buyinId approver d buyin p,
    ledger_ok db ->
    buyinId <> 0 ->
    find_buyin db buyinId = Some buyin ->
    Buyin.status buyin = pending ->
    Buyin.user_id buyin <> String_of_number (TgUser.id approver) ->
    find_player db (Buyin.game_id buyin) (String_of_number (TgUser.id approver))
    = Some p ->
    let r := processApproval tg clock db chatId buyinId approver d in
    value r = Returned (mkResult true (vote_message buyinId d))
    /\ status_of (store r) buyinId = Some (verdict d)
    /\ approvals (store r)
       = (approvals db
          ++ [vote_row db buyinId (String_of_number (TgUser.id approver)) d clock])%list
    /\ players (store r) = players db
    /\ (forall k, k <> buyinId -> status_of (store r) k = status_of db k).
Proof.
  intros tg clock db chatId buyinId approver d buyin p Hok Hz Hf Hs Hu Hp r.
  pose proof (approval_checks_pass _ _ _ _ _ Hz Hf Hs Hu Hp) as Hc.
  assert (Hv : votes_on db buyinId = []).
  { eapply pending_has_no_votes; eauto.
    intros a Ha. destruct (votes_resolve db Hok a Ha) as (b & Hb & Hd & _).
    eauto. }
  destruct (processApproval_store tg clock db chatId buyinId approver d buyin Hc)
    as (Hst & Hval).
  rewrite (first_vote_decides db buyinId _ d clock Hv) in Hst, Hval.
  simpl in Hst, Hval. fold r in Hst, Hval.
  split; [exact Hval|].
  assert (Hs2 : forall k,
             status_of (store r) k
             = if k =? buyinId
               then option_map (fun _ => verdict d) (status_of db k)
               else status_of db k).
  { intros k.
    destruct Hst as [E | (id & mid & _ & E)]; rewrite E;
      apply (status_of_set
               (mkD1 (games db) (players db) (buyins db)
                     (approvals db
                      ++ [vote_row db buyinId
                            (String_of_number (TgUser.id approver)) d clock])%list)
               buyinId (verdict d) k). }
  split; [|split; [|split]].
  - rewrite Hs2, Z.eqb_refl. unfold status_of. now rewrite Hf.
  - destruct Hst as [E | (id & mid & _ & E)]; rewrite E; reflexivity.
  - destruct Hst as [E | (id & mid & _ & E)]; rewrite E; reflexivity.
  - intros k Hk. rewrite Hs2. apply Z.eqb_neq in Hk. now rewrite Hk.
Qed.

Lemma one_accepted_vote_witness :
  status_of (store (processApproval tg_down 20 table_db 1 1 carol reject)) 1
  = Some rejected.
Proof.
  assert (Hz : 1 <> 0) by discriminate.
  assert (Hu : "1001" <> String_of_number (TgUser.id carol)) by discriminate.
  exact (proj1 (proj2
    (one_accepted_vote_settles_the_request tg_down 20 table_db 1 1 carol reject
       (Buyin.mk 1 1 "1001" 5000 14 pending)
       (Player.mk 3 1 "1003" (Some "carol") None 13)
       (run_ledger_ok table_events) Hz eq_refl eq_refl Hu eq_refl))).
Defined.

(** ** Joining *)

Lemma largest_id_map (f : GameRow.t -> GameRow.t) l :
  (forall g, GameRow.id (f g) = GameRow.id g) ->
  largest_id (map f l) = option_map f (largest_id l).
Proof.
  intros Hf. induction l as [|g l IH]; simpl; auto.
  rewrite IH. destruct (largest_id l) as [h|]; simpl; auto.
  rewrite !Hf. now destruct (GameRow.id g <? GameRow.id h).
Qed.

Lemma currentGame_after_message db id m chat :
  currentGame (set_status_message_id db id m) chat
  = option_map
      (fun g => if GameRow.id g =? id
                then GameRow.mk (GameRow.id g) (GameRow.chat_id g)
                       (GameRow.status g) (GameRow.started_at g)
                       (GameRow.ended_at g) (GameRow.buy_in_cents g) (Some m)
                else g)
      (currentGame db chat).
Proof.
  unfold currentGame. rewrite active_after_message.
  apply largest_id_map. intros g. now destruct (GameRow.id g =? id).
Qed.

Lemma currentGame_after_refresh tg db0 db chatId provided allowCreate chat game :
  games db = games db0 ->
  currentGame db0 chat = Some game ->
  exists game',
    currentGame (store (refreshGameMessage tg db chatId provided allowCreate)) chat
    = Some game'
    /\ GameRow.id game' = GameRow.id game
    /\ GameRow.buy_in_cents game' = GameRow.buy_in_cents game.
Proof.
  intros Hg Hc.
  assert (Hc' : currentGame db chat = Some game)
    by (unfold currentGame in *; now rewrite Hg).
  destruct (refresh_store_cases tg db chatId provided allowCreate)
    as [E | (id & m & E)]; rewrite E.
  - eauto.
  - rewrite currentGame_after_message, Hc'. simpl.
    eexists. split; [reflexivity|]. now destruct (GameRow.id game =? id).
Qed.

(** X5. [joinGame] admits an identity once per game. Without an active
    game in the chat it is refused; when the identity is on the roster of
    the chat's active game it is refused as already part of the game;
    otherwise it succeeds, appends one player row for that game and
    identity, with an empty handle or given name stored as NULL, leaves
    the buy-ins and the votes alone, and a [joinGame] of the same identity
    in the chat right after it is refused as already part of the game. *)
Theorem join_admits_an_identity_once :
  forall tg clock db chatId user,
    let chat := String_of_number chatId in
    let uid := String_of_number (TgUser.id user) in
    let r := joinGame tg clock db chatId user in
    (currentGame db chat = None ->
     r = fail db "No active game. Use /startgame first.")
    /\ (forall game,
          currentGame db chat = Some game ->
          (find_player db (GameRow.id game) uid <> None ->
           r = fail db "You are already part of this game.")
          /\ (find_player db (GameRow.id game) uid = None ->
              value r = Returned (mkResult true "Joined the game.")
              /\ players (store r)
                 = (players db
                    ++ [Player.mk (next_id (map Player.id (players db)))
                          (GameRow.id game) uid
                          (or_null (TgUser.username user))
                          (or_null (TgUser.first_name user)) clock])%list
              /\ buyins (store r) = buyins db
              /\ approvals (store r) = approvals db
              /\ forall tg' clock',
                   joinGame tg' clock' (store r) chatId user
                   = fail (store r) "You are already part of this game.")).
Proof.
  intros tg clock db chatId user chat uid r.
  split.
  - intros Hc. subst r. unfold joinGame. fold chat. now rewrite Hc.
  - intros game Hc. split.
    + intros Hp. subst r. unfold joinGame. fold chat uid. rewrite Hc.
      destruct (find_player db (GameRow.id game) uid); [reflexivity | congruence].
    + intros Hp.
      assert (Er : r = succeed "Joined the game."
                     (refreshGameMessage tg
                        (insert_player db (GameRow.id game) user clock)
                        (Some chatId) (Some game) true)).
      { subst r. unfold joinGame. fold chat uid. now rewrite Hc, Hp. }
      rewrite Er. simpl.
      destruct (refresh_tables tg (insert_player db (GameRow.id game) user clock)
                  (Some chatId) (Some game) true) as (E1 & E2 & E3).
      split; [reflexivity|]. split; [exact E1|]. split; [exact E2|].
      split; [exact E3|].
      intros tg' clock'.
      destruct (currentGame_after_refresh tg db
                  (insert_player db (GameRow.id game) user clock)
                  (Some chatId) (Some game) true chat game eq_refl Hc)
        as (game' & Hc' & Hid & _).
      unfold joinGame. fold chat uid. rewrite Hc', Hid.
      unfold find_player at 1. rewrite E1. simpl.
      unfold find_player in Hp. rewrite (find_app_none _ _ _ Hp). simpl.
      unfold is_player. simpl. fold uid.
      now rewrite Z.eqb_refl, String.eqb_refl.
Qed.

Lemma join_witness :
  joinGame tg_up 30 table_db 1 alice
  = fail table_db "You are already part of this game."
  /\ value (joinGame tg_up 30 table_db 1 dave)
     = Returned (mkResult true "Joined the game.").
Proof.
  pose (g := GameRow.mk 1 "1" active 10 None 5000 (Some "77")).
  assert (Hc : currentGame table_db (String_of_number 1) = Some g)
    by (vm_compute; reflexivity).
  split.
  - refine (proj1 (proj2 (join_admits_an_identity_once tg_up 30 table_db 1 alice)
                     g Hc) _).
    vm_compute. discriminate.
  - refine (proj1 (proj2 (proj2 (join_admits_an_identity_once tg_up 30 table_db
                                   1 dave) g Hc) _)).
    vm_compute. reflexivity.
Defined.

(** ** Asking for a buy-in *)

Lemma buyIn_submitted tg clock db chatId game uid cents :
  buyin_accepted db game uid cents clock
    (succeed "Buy-in submitted for approval."
       (refreshGameMessage tg (insert_buyin db (GameRow.id game) uid cents clock)
          (Some chatId) (Some game) true)).
Proof.
  destruct (refresh_tables tg (insert_buyin db (GameRow.id game) uid cents clock)
              (Some chatId) (Some game) true) as (E1 & E2 & E3).
  unfold buyin_accepted. simpl. auto.
Qed.

(** X6. [buyIn] and its amount. Without an active game in the chat it is
    refused, and so is an identity that is not on the roster of the active
    game. Without amount text (none, or blanks only) the default of the
    game is asked for, and refused when it is not above zero. With text,
    a text without a digit is refused with the usage line, an amount that
    is not above zero is refused, and so is an amount that rounds to zero
    cents. An accepted request appends one pending buy-in of that amount
    for that game and identity and touches neither roster nor votes. *)
Theorem buyIn_resolves_the_amount :
  forall tg clock db chatId user argText,
    let chat := String_of_number chatId in
    let uid := String_of_number (TgUser.id user) in
    let r := buyIn tg clock db chatId user argText in
    (currentGame db chat = None ->
     r = fail db "No active game. Use /startgame first.")
    /\ (forall game,
          currentGame db chat = Some game ->
          (find_player db (GameRow.id game) uid = None ->
           r = fail db "Please join the game before buying in.")
          /\ (find_player db (GameRow.id game) uid <> None ->
              (trimmed_nonempty argText = false ->
               (GameRow.buy_in_cents game <= 0 ->
                r = fail db
                  "No default buy-in found. Restart the game with /startgame <amount>.")
               /\ (0 < GameRow.buy_in_cents game ->
                   buyin_accepted db game uid (GameRow.buy_in_cents game) clock r))
              /\ (trimmed_nonempty argText = true ->
                  (match_amount (coalesce argText) = None ->
                   r = fail db "Usage: /buyin <amount>. Example: /buyin 50")
                  /\ (forall m,
                        match_amount (coalesce argText) = Some m ->
                        ((0 <? parseFloat m)%float = false ->
                         r = fail db "Amount must be greater than zero.")
                        /\ (forall cents,
                              (0 <? parseFloat m)%float = true ->
                              toCents (parseFloat m) = Some cents ->
                              (cents <= 0 ->
                               r = fail db
                                 "No default buy-in found. Restart the game with /startgame <amount>.")
                              /\ (0 < cents ->
                                  buyin_accepted db game uid cents clock r)))))).
Proof.
  intros tg clock db chatId user argText chat uid r.
  split.
  - intros Hc. subst r. unfold buyIn. fold chat. now rewrite Hc.
  - intros game Hc. split.
    + intros Hp. subst r. unfold buyIn. fold chat uid. now rewrite Hc, Hp.
    + intros Hp.
      destruct (find_player db (GameRow.id game) uid) as [p|] eqn:Ep;
        [clear Hp | congruence].
      split.
      * intros Ht. split; intros Hd; subst r; unfold buyIn; fold chat uid;
          rewrite Hc, Ep, Ht.
        -- assert (E : (0 <? GameRow.buy_in_cents game) = false)
             by (apply Z.ltb_ge; lia).
           now rewrite E.
        -- apply Z.ltb_lt in Hd. rewrite Hd. simpl. apply buyIn_submitted.
      * intros Ht. split.
        -- intros Hm. subst r. unfold buyIn. fold chat uid.
           now rewrite Hc, Ep, Ht, Hm.
        -- intros m Hm. split.
           ++ intros Hn. subst r. unfold buyIn. fold chat uid.
              now rewrite Hc, Ep, Ht, Hm, Hn.
           ++ intros cents Hn Hcents. split; intros Hd; subst r; unfold buyIn;
                fold chat uid; rewrite Hc, Ep, Ht, Hm, Hn, Hcents; simpl.
              ** assert (E : (0 <? cents) = false) by (apply Z.ltb_ge; lia).
                 now rewrite E.
              ** apply Z.ltb_lt in Hd. rewrite Hd. simpl. apply buyIn_submitted.
Qed.

Lemma buyIn_witness :
  buyin_accepted table_db (GameRow.mk 1 "1" active 10 None 5000 (Some "77"))
    "1002" 1250 30 (buyIn tg_up 30 table_db 1 bob (Some "12.5"))
  /\ buyIn tg_up 30 table_db 1 dave None
     = fail table_db "Please join the game before buying in.".
Proof.
  pose (g := GameRow.mk 1 "1" active 10 None 5000 (Some "77")).
  assert (Hc : currentGame table_db (String_of_number 1) = Some g)
    by (vm_compute; reflexivity).
  split.
  - assert (Hp : find_player table_db (GameRow.id g)
                   (String_of_number (TgUser.id bob)) <> None)
      by (vm_compute; discriminate).
    assert (Hd : 0 < 1250) by reflexivity.
    exact (proj2 (proj2 (proj2 (proj2 (proj2 (proj2
             (buyIn_resolves_the_amount tg_up 30 table_db 1 bob (Some "12.5"))
             g Hc) Hp) eq_refl) ("12", "5") eq_refl) 1250 eq_refl eq_refl) Hd).
  - refine (proj1 (proj2 (buyIn_resolves_the_amount tg_up 30 table_db 1 dave None)
                     g Hc) _).
    vm_compute. reflexivity.
Defined.

(** ** What the projection reports *)

Lemma filter_filter {A} (p q : A -> bool) (l : list A) :
  filter p (filter q l) = filter (fun x => q x && p x) l.
Proof.
  induction l as [|a l IH]; simpl; auto.
  destruct (q a); simpl; [destruct (p a)|]; simpl; congruence.
Qed.

Lemma left_join_cons {A B} (on : A -> B -> bool) a l r :
  left_join on (a :: l) r
  = (match filter (on a) r with
     | [] => [(a, None)]
     | bs => map (fun b => (a, Some b)) bs
     end ++ left_join on l r)%list.
Proof. reflexivity. Qed.

Lemma filter_fst_const {A B} (P : A -> bool) (a : A) (l : list (A * option B)) :
  (forall x, In x l -> fst x = a) ->
  filter (fun x => P (fst x)) l = if P a then l else [].
Proof.
  intros H. induction l as [|x l IH]; simpl.
  - now destruct (P a).
  - rewrite (H x) by (left; reflexivity).
    rewrite IH by (intros; apply H; now right).
    now destruct (P a).
Qed.

Lemma left_join_filter_fst {A B} (on : A -> B -> bool) (P : A -> bool) l r :
  filter (fun x => P (fst x)) (left_join on l r) = left_join on (filter P l) r.
Proof.
  induction l as [|a l IH]; [reflexivity|].
  rewrite left_join_cons, filter_app, IH.
  rewrite (filter_fst_const P a).
  - cbn [filter]. destruct (P a); [now rewrite left_join_cons | reflexivity].
  - intros x Hx. destruct (filter (on a) r) as [|b bs].
    + destruct Hx as [E | []]. now subst x.
    + apply in_map_iff in Hx. destruct Hx as (y & E & _). now subst x.
Qed.

Lemma filter_unique_key {A K} (key : A -> K) (p : A -> bool) (l : list A) a :
  NoDup (map key l) -> In a l ->
  (forall x, p x = true <-> key x = key a) ->
  filter p l = [a].
Proof.
  intros Hn Ha Hp. induction l as [|x l IH]; simpl in *; [contradiction|].
  inversion Hn as [|? ? Hx Hn']; subst.
  destruct Ha as [E | Ha].
  - subst x. rewrite (proj2 (Hp a) eq_refl). f_equal.
    apply filter_nil_iff. intros y Hy.
    destruct (p y) eqn:Ey; auto. apply Hp in Ey.
    exfalso. apply Hx. rewrite <- Ey. now apply in_map.
  - destruct (p x) eqn:Ex.
    + apply Hp in Ex. exfalso. apply Hx. rewrite Ex. now apply in_map.
    + now apply IH.
Qed.


Lemma sum_ones_length {A} (p : A -> bool) (l : list A) :
  sum (map (fun a => if p a then 1 else 0) l) = Z.of_nat (List.length (filter p l)).
Proof.
  induction l as [|a l IH]; simpl; auto.
  destruct (p a); simpl List.length; lia.
Qed.






Lemma hd_error_filter {A} (p : A -> bool) (l : list A) :
  hd_error (filter p l) = find p l.
Proof.
  induction l as [|a l IH]; simpl; auto. now destruct (p a).
Qed.

Lemma left_join_at_most_one {A B} (on : A -> B -> bool) l r :
  (forall a, In a l -> (List.length (filter (on a) r) <= 1)%nat) ->
  left_join on l r = map (fun a => (a, find (on a) r)) l.
Proof.
  intros H. induction l as [|a l IH]; [reflexivity|].
  rewrite left_join_cons, IH by (intros; apply H; now right).
  cbn [map]. rewrite <- hd_error_filter.
  specialize (H a (or_introl eq_refl)).
  destruct (filter (on a) r) as [|b [|c bs]]; simpl in *; auto. lia.
Qed.

Lemma roster_filter_le db gameId uid :
  NoDup (map player_key (players db)) ->
  (List.length (filter (is_player gameId uid) (players db)) <= 1)%nat.
Proof.
  intros Hn.
  destruct (filter (is_player gameId uid) (players db)) as [|p l] eqn:E;
    simpl; [lia|].
  assert (Hp : In p (filter (is_player gameId uid) (players db)))
    by (rewrite E; now left).
  apply filter_In in Hp. destruct Hp as [Hp Hk].
  rewrite (filter_unique_key player_key _ _ p Hn Hp) in E.
  - inversion E. simpl. lia.
  - intros q. unfold is_player, player_key in *.
    apply andb_true_iff in Hk. destruct Hk as [K1 K2].
    apply Z.eqb_eq in K1. apply String.eqb_eq in K2.
    rewrite andb_true_iff, Z.eqb_eq, String.eqb_eq.
    split; [intros [E1 E2]; congruence | intros E0; inversion E0; split; congruence].
Qed.

Lemma vote_rows_sums (b : Buyin.t) (l : list Approval.t) (d : decision) :
  sum (map (fun r : Buyin.t * option Approval.t => decision_one d (snd r))
         (map (fun a => (b, Some a)) l))
  = Z.of_nat (List.length
       (filter (fun a => decision_eqb (Approval.decision_of a) d) l)).
Proof.
  rewrite map_map.
  rewrite <- (sum_ones_length (fun a => decision_eqb (Approval.decision_of a) d)).
  reflexivity.
Qed.

Lemma filter_unique_in {A K} (key : A -> K) (p : A -> bool) (l : list A) a :
  NoDup (map key l) -> In a l -> p a = true ->
  (forall x, In x l -> p x = true -> key x = key a) ->
  filter p l = [a].
Proof.
  intros Hn Ha Hpa Hp. induction l as [|x l IH]; simpl in *; [contradiction|].
  inversion Hn as [|? ? Hx Hn']; subst.
  destruct Ha as [E | Ha].
  - subst x. rewrite Hpa. f_equal.
    apply filter_nil_iff. intros y Hy.
    destruct (p y) eqn:Ey; auto.
    exfalso. apply Hx. rewrite <- (Hp y (or_intror Hy) Ey). now apply in_map.
  - destruct (p x) eqn:Ex.
    + exfalso. apply Hx. rewrite (Hp x (or_introl eq_refl) Ex). now apply in_map.
    + apply IH; auto.
Qed.

Lemma pending_group_rows db gameId b :
  NoDup (map Buyin.id (buyins db)) ->
  NoDup (map player_key (players db)) ->
  In b (buyins db) -> is_pending_in gameId b = true ->
  filter (fun r : PendingJoin => Buyin.id (fst (fst r)) =? Buyin.id b)
         (pending_joined db gameId)
  = map (fun ba : Buyin.t * option Approval.t =>
           (ba, find_player db (Buyin.game_id b) (Buyin.user_id b)))
        (match filter (fun a => Approval.buyin_id a =? Buyin.id b) (approvals db) with
         | [] => [(b, None)]
         | vs => map (fun a => (b, Some a)) vs
         end).
Proof.
  intros Hb Hp Hin Hpend.
  pose (P := fun x : Buyin.t => is_pending_in gameId x && (Buyin.id x =? Buyin.id b)).
  pose (on1 := fun (x : Buyin.t) (a : Approval.t) => Approval.buyin_id a =? Buyin.id x).
  pose (on2 := fun (ba : Buyin.t * option Approval.t) (p : Player.t) =>
                 (Player.game_id p =? Buyin.game_id (fst ba))
                 && String.eqb (Player.user_id p) (Buyin.user_id (fst ba))).
  assert (E : filter (fun r : PendingJoin => Buyin.id (fst (fst r)) =? Buyin.id b)
                (pending_joined db gameId)
              = filter (fun r : PendingJoin => (fun ba => P (fst ba)) (fst r))
                  (left_join on2 (left_join on1 (buyins db) (approvals db))
                     (players db))).
  { unfold pending_joined. rewrite filter_filter. reflexivity. }
  rewrite E.
  rewrite (left_join_filter_fst on2 (fun ba => P (fst ba))).
  rewrite (left_join_filter_fst on1 P).
  rewrite (filter_unique_in Buyin.id P _ b Hb Hin).
  - rewrite left_join_cons, app_nil_r.
    rewrite left_join_at_most_one.
    + apply map_ext_in. intros ba Hba.
      assert (Eb : fst ba = b).
      { unfold on1 in Hba. destruct (filter _ (approvals db)) as [|v vs].
        - destruct Hba as [E0 | []]. now subst ba.
        - apply in_map_iff in Hba. destruct Hba as (y & E0 & _). now subst ba. }
      unfold find_player, is_player, on2. rewrite Eb. reflexivity.
    + intros ba _. apply (roster_filter_le db _ _ Hp).
  - unfold P. now rewrite Hpend, Z.eqb_refl.
  - intros x _ Hx. unfold P in Hx. apply andb_true_iff in Hx.
    now apply Z.eqb_eq.
Qed.

Lemma find_unique_key {A} (key : A -> Z) (l : list A) a :
  NoDup (map key l) -> In a l -> find (fun x => key x =? key a) l = Some a.
Proof.
  intros Hn Ha.
  rewrite <- hd_error_filter.
  rewrite (filter_unique_in key (fun x => key x =? key a) l a Hn Ha); auto.
  - apply Z.eqb_refl.
  - intros x _ Hx. now apply Z.eqb_eq.
Qed.

(** The group of a pending request in the second query: its own columns,
    the requester's roster entry and the two tallies. *)
Lemma pending_group_of_request db gameId b :
  NoDup (map Buyin.id (buyins db)) ->
  NoDup (map player_key (players db)) ->
  In b (buyins db) -> Buyin.game_id b = gameId -> Buyin.status b = pending ->
  pending_group (Buyin.id b) (pending_joined db gameId)
  = PendingRow.mk (Buyin.id b) (Buyin.user_id b)
      (coalesce (match find_player db gameId (Buyin.user_id b) with
                 | Some p => Player.username p | None => None end))
      (coalesce (match find_player db gameId (Buyin.user_id b) with
                 | Some p => Player.first_name p | None => None end))
      (Buyin.amount_cents b)
      (count_votes db (Buyin.id b) approve)
      (count_votes db (Buyin.id b) reject).
Proof.
  intros Hb Hp Hin Hg Hs.
  assert (Hpend : is_pending_in gameId b = true).
  { unfold is_pending_in. rewrite Hg, Hs, Z.eqb_refl. reflexivity. }
  pose proof (pending_group_rows db gameId b Hb Hp Hin Hpend) as Erows.
  unfold PendingJoin in Erows.
  unfold pending_group. cbv zeta. rewrite Erows.
  rewrite Hg. unfold count_votes.
  rewrite <- !filter_filter.
  destruct (filter (fun a => Approval.buyin_id a =? Buyin.id b) (approvals db))
    as [|v vs] eqn:Ev.
  - reflexivity.
  - rewrite !map_map. cbn [fst snd].
    rewrite <- !(sum_ones_length
                   (fun a => decision_eqb (Approval.decision_of a) _)).
    reflexivity.
Qed.

(** X8. What a pending row of the projection reports. When request ids
    are unique and no two players share a game and an identity, each
    pending row that [composeGameState] lists for a game is the row of a
    pending request of that game: it carries the request's id, requester
    and amount, the handle and given name of the requester's roster entry
    in the game (empty when there is none), and as tallies the numbers of
    approve and of reject votes recorded for the request. *)
Theorem pending_rows_report_the_requests :
  forall db gameId r,
    NoDup (map Buyin.id (buyins db)) ->
    NoDup (map player_key (players db)) ->
    In r (state_pending (composeGameState db gameId)) ->
    exists b,
      In b (buyins db)
      /\ Buyin.game_id b = gameId
      /\ Buyin.status b = pending
      /\ PendingRow.id r = Buyin.id b
      /\ PendingRow.user_id r = Buyin.user_id b
      /\ PendingRow.amount_cents r = Buyin.amount_cents b
      /\ PendingRow.username r
         = coalesce (match find_player db gameId (Buyin.user_id b) with
                     | Some p => Player.username p | None => None end)
      /\ PendingRow.first_name r
         = coalesce (match find_player db gameId (Buyin.user_id b) with
                     | Some p => Player.first_name p | None => None end)
      /\ PendingRow.approvals r = count_votes db (Buyin.id b) approve
      /\ PendingRow.rejects r = count_votes db (Buyin.id b) reject.
Proof.
  intros db gameId r Hb Hp Hr. simpl in Hr. unfold pendingData in Hr.
  apply (Permutation_in _ (order_by_perm _ _)) in Hr.
  apply in_map_iff in Hr. destruct Hr as (i & Er & Hi).
  apply (proj1 (distinct_In Z.eqb Z.eqb_eq _ _)) in Hi.
  apply (proj1 (pending_joined_ids _ _ _)) in Hi.
  destruct Hi as (b & Hin & Ei & Hg & Hs).
  exists b. subst i.
  rewrite (pending_group_of_request db gameId b Hb Hp Hin Hg Hs) in Er.
  subst r. cbn [PendingRow.id PendingRow.user_id PendingRow.amount_cents
                PendingRow.username PendingRow.first_name
                PendingRow.approvals PendingRow.rejects].
  split; [exact Hin|]. split; [exact Hg|]. split; [exact Hs|].
  split; [reflexivity|]. split; [reflexivity|]. split; [reflexivity|].
  split; [reflexivity|]. split; [reflexivity|]. split; reflexivity.
Qed.

Lemma pending_rows_witness :
  exists b,
    In b (buyins table_db)
    /\ Buyin.status b = pending
    /\ Buyin.user_id b = "1001"
    /\ Buyin.amount_cents b = 5000
    /\ count_votes table_db (Buyin.id b) approve = 0.
Proof.
  destruct (pending_rows_report_the_requests table_db 1
              (PendingRow.mk 1 "1001" "alice" "Alice" 5000 0 0)
              (buyin_ids_unique _ (run_ledger_ok table_events))
              (roster_unique _ (run_ledger_ok table_events)))
    as (b & Hin & _ & Hs & _ & Hu & Ha & _ & _ & Hv & _).
  - vm_compute. auto.
  - exists b. split; [exact Hin|]. split; [exact Hs|].
    split; [symmetry; exact Hu|]. split; [symmetry; exact Ha|].
    symmetry. exact Hv.
Defined.

(** X9. Pending rows after any sequence of events. In every database the
    handlers reach from the empty one, a pending row of the projection
    shows no vote at all: both tallies are 0, because the first recorded
    vote settles the request; and its requester is on the roster of the
    game, so that the handle and given name shown are the roster's. *)
Theorem reachable_pending_rows_have_no_votes :
  forall events gameId r,
    In r (state_pending (composeGameState (run events empty_db) gameId)) ->
    PendingRow.approvals r = 0
    /\ PendingRow.rejects r = 0
    /\ exists p,
         find_player (run events empty_db) gameId (PendingRow.user_id r) = Some p
         /\ PendingRow.username r = coalesce (Player.username p)
         /\ PendingRow.first_name r = coalesce (Player.first_name p).
Proof.
  intros events gameId r Hr.
  pose proof (run_ledger_ok events) as L.
  set (db := run events empty_db) in *.
  simpl in Hr. unfold pendingData in Hr.
  apply (Permutation_in _ (order_by_perm _ _)) in Hr.
  apply in_map_iff in Hr. destruct Hr as (i & Er & Hi).
  apply (proj1 (distinct_In Z.eqb Z.eqb_eq _ _)) in Hi.
  apply (proj1 (pending_joined_ids _ _ _)) in Hi.
  destruct Hi as (b & Hin & Ei & Hg & Hs). subst i.
  rewrite (pending_group_of_request db gameId b
             (buyin_ids_unique _ L) (roster_unique _ L) Hin Hg Hs) in Er.
  assert (Hf : find_buyin db (Buyin.id b) = Some b).
  { apply find_unique_key; [exact (buyin_ids_unique _ L) | exact Hin]. }
  assert (Hv : votes_on db (Buyin.id b) = []).
  { apply (pending_has_no_votes db _ b); auto.
    intros a Ha. destruct (votes_resolve _ L a Ha) as (b' & Hb' & Hd & _).
    exists b'. split; auto. }
  assert (Hc : forall d, count_votes db (Buyin.id b) d = 0).
  { intros d. unfold count_votes. rewrite <- filter_filter.
    unfold votes_on in Hv. rewrite Hv. reflexivity. }
  destruct (buyins_by_players _ L b Hin) as (_ & _ & Hpl).
  rewrite Hg in Hpl.
  destruct (find_player db gameId (Buyin.user_id b)) as [p|] eqn:Ep;
    [|congruence].
  subst r. cbn [PendingRow.approvals PendingRow.rejects PendingRow.user_id
                PendingRow.username PendingRow.first_name].
  split; [apply Hc|]. split; [apply Hc|].
  exists p. split; [exact Ep|]. split; reflexivity.
Qed.

(** ** The chat of a vote *)

Lemma Number_of_String n : Number_of_string (String_of_number n) = Some n.
Proof.
  unfold Number_of_string, String_of_number.
  rewrite NilZero.isi.
  - simpl. now rewrite DecimalZ.of_to.
  - destruct n; simpl; try discriminate.
    intros E. inversion E as [E']. now apply DecimalPos.Unsigned.to_uint_nonnil in E'.
  - destruct n; simpl; try discriminate.
    intros E. inversion E as [E']. now apply DecimalPos.Unsigned.to_uint_nonnil in E'.
Qed.

Lemma vote_keeps_games db buyinId voter d clock :
  games (fst (apply_tally (record_vote db buyinId voter d clock) buyinId))
  = games db.
Proof.
  assert (E : games (record_vote db buyinId voter d clock) = games db).
  { unfold record_vote, insert_approval. destruct (existsb _ _); reflexivity. }
  rewrite <- E. unfold apply_tally.
  repeat break_match; reflexivity.
Qed.

Lemma getGameById_games db db' k :
  games db' = games db -> getGameById db' k = getGameById db k.
Proof. unfold getGameById. now intros ->. Qed.

Lemma voter_game_exists db buyinId approver buyin :
  ledger_ok db ->
  approval_checks db buyinId approver = inr buyin ->
  exists game chat,
    getGameById db (Buyin.game_id buyin) = Some game
    /\ GameRow.chat_id game = String_of_number chat.
Proof.
  intros L Hc.
  destruct (approval_checks_pending _ _ _ _ Hc) as (_ & _ & _ & _ & Hp).
  destruct (find_player db (Buyin.game_id buyin)
              (String_of_number (TgUser.id approver))) as [p|] eqn:Ep;
    [|congruence].
  apply find_some in Ep. destruct Ep as [Hin Hp'].
  unfold is_player in Hp'. apply andb_true_iff in Hp'.
  destruct Hp' as [Hg _]. apply Z.eqb_eq in Hg.
  pose proof (players_in_games _ L p Hin) as Hgame. rewrite Hg in Hgame.
  destruct (getGameById db (Buyin.game_id buyin)) as [game|] eqn:Eg;
    [|congruence].
  pose proof Eg as Eg'. unfold getGameById in Eg'. apply find_some in Eg'.
  destruct (game_chats_numeric _ L game (proj1 Eg')) as (chat & Echat).
  exists game, chat. auto.
Qed.

(** X10. A vote is routed by its request alone. In a well-formed ledger
    the chat a vote arrives from plays no part in [processApproval]: the
    result, the database and the calls are the same for every chat. An
    accepted vote publishes the status of the game of the request, and
    every call it makes is addressed to the chat recorded for that game. *)
Theorem vote_is_routed_by_its_request :
  forall tg clock db chatId buyinId approver d,
    ledger_ok db ->
    (forall chatId',
        processApproval tg clock db chatId' buyinId approver d
        = processApproval tg clock db chatId buyinId approver d)
    /\ (forall buyin,
          approval_checks db buyinId approver = inr buyin ->
          exists game chat,
            getGameById db (Buyin.game_id buyin) = Some game
            /\ GameRow.chat_id game = String_of_number chat
            /\ forall call,
                 In call (trace (processApproval tg clock db chatId buyinId
                                   approver d)) ->
                 payload_chat_id (call_payload call) = Some chat).
Proof.
  intros tg clock db chatId buyinId approver d L.
  assert (Hfound : forall buyin,
             approval_checks db buyinId approver = inr buyin ->
             exists game chat,
               getGameById db (Buyin.game_id buyin) = Some game
               /\ GameRow.chat_id game = String_of_number chat
               /\ getGameById
                    (fst (apply_tally
                            (record_vote db buyinId
                               (String_of_number (TgUser.id approver)) d clock)
                            buyinId))
                    (Buyin.game_id buyin) = Some game).
  { intros buyin Hc.
    destruct (voter_game_exists db buyinId approver buyin L Hc)
      as (game & chat & Eg & Echat).
    exists game, chat. split; [exact Eg|]. split; [exact Echat|].
    rewrite (getGameById_games db _ _ (vote_keeps_games db _ _ _ _)).
    exact Eg. }
  split.
  - intros chatId'. unfold processApproval.
    destruct (approval_checks db buyinId approver) as [msg | buyin] eqn:Ec;
      [reflexivity|].
    destruct (Hfound buyin eq_refl) as (game & chat & _ & _ & Eg).
    destruct (apply_tally _ _) as [db2 changed]. simpl in Eg.
    now rewrite Eg.
  - intros buyin Hc.
    destruct (Hfound buyin Hc) as (game & chat & Eg0 & Echat & Eg).
    exists game, chat. split; [exact Eg0|]. split; [exact Echat|].
    intros call. unfold processApproval. rewrite Hc.
    destruct (apply_tally _ _) as [db2 changed]. simpl in Eg.
    rewrite Eg. simpl. intros Hcall.
    apply refresh_trace in Hcall.
    destruct Hcall as (g & _ & Ep). rewrite Ep.
    unfold status_payload. simpl.
    rewrite Echat. apply Number_of_String.
Qed.

Lemma vote_routing_witness :
  processApproval tg_up 20 table_db 999 1 bob approve
  = processApproval tg_up 20 table_db 1 1 bob approve.
Proof.
  exact (proj1 (vote_is_routed_by_its_request tg_up 20 table_db 1 1 bob approve
                  (run_ledger_ok table_events)) 999).
Defined.

(** ** The keyboard *)

Lemma pendingData_increasing db gameId :
  StronglySorted Z.lt (map PendingRow.id (pendingData db gameId)).
Proof.
  apply sorted_nodup_strict; [apply pendingData_sorted|].
  eapply Permutation_NoDup; [symmetry; apply pendingData_ids|].
  apply distinct_NoDup, Z.eqb_eq.
Qed.

Lemma pendingData_requests db gameId r :
  In r (pendingData db gameId) ->
  exists b, In b (buyins db) /\ Buyin.id b = PendingRow.id r
            /\ Buyin.game_id b = gameId /\ Buyin.status b = pending.
Proof.
  intros H.
  apply pending_joined_ids, (distinct_In Z.eqb Z.eqb_eq).
  eapply Permutation_in; [apply pendingData_ids|].
  now apply in_map.
Qed.

Lemma increasing_app (l l' : list Z) x y :
  StronglySorted Z.lt (l ++ l') -> In x l -> In y l' -> x < y.
Proof.
  induction l as [|a l IH]; simpl; [tauto|].
  intros H [E | Hx] Hy; inversion H as [|? ? Hs Hall]; subst.
  - rewrite Forall_forall in Hall. apply Hall, in_or_app. now right.
  - now apply IH.
Qed.

(** X11. The vote buttons of the status keyboard. For an active game
    [buildStatusKeyboard] puts, under the two fixed rows, one row with an
    approve and a reject button for each of the first
    [MAX_PENDING_ROWS_IN_KEYBOARD] pending rows and none for the others.
    On the projection of a game these are pending requests of that game,
    and a request that gets no buttons has a larger id than every request
    that gets them: the oldest requests are offered. *)
Theorem keyboard_offers_the_oldest_pending_requests :
  forall db game,
    GameRow.status game = active ->
    exists fixed shown hidden,
      state_pending (composeGameState db (GameRow.id game))
      = (shown ++ hidden)%list
      /\ buildStatusKeyboard game (composeGameState db (GameRow.id game))
         = Some (fixed ++ map approval_buttons shown)%list
      /\ List.length fixed = 2%nat
      /\ (forall row button i,
            In row fixed -> In button row ->
            callback_data button <> act_approve i
            /\ callback_data button <> act_reject i)
      /\ (List.length shown <= MAX_PENDING_ROWS_IN_KEYBOARD)%nat
      /\ (hidden <> [] ->
          List.length shown = MAX_PENDING_ROWS_IN_KEYBOARD)
      /\ (forall r, In r shown ->
            map callback_data (approval_buttons r)
            = [act_approve (PendingRow.id r); act_reject (PendingRow.id r)]
            /\ exists b, In b (buyins db)
                         /\ Buyin.id b = PendingRow.id r
                         /\ Buyin.game_id b = GameRow.id game
                         /\ Buyin.status b = pending)
      /\ (forall r h, In r shown -> In h hidden ->
            PendingRow.id r < PendingRow.id h).
Proof.
  intros db game Ha.
  set (state := composeGameState db (GameRow.id game)).
  exists [[mkButton "Join game" act_join;
           mkButton ("Buy-in (" ++ fmtMoney (GameRow.buy_in_cents game) ++ ")")
                    act_buyin];
          [mkButton "Refresh" act_refresh; mkButton "End game" act_end]],
         (firstn MAX_PENDING_ROWS_IN_KEYBOARD (state_pending state)),
         (skipn MAX_PENDING_ROWS_IN_KEYBOARD (state_pending state)).
  assert (Hsplit : state_pending state
                   = (firstn MAX_PENDING_ROWS_IN_KEYBOARD (state_pending state)
                      ++ skipn MAX_PENDING_ROWS_IN_KEYBOARD (state_pending state))%list)
    by (symmetry; apply firstn_skipn).
  split; [exact Hsplit|].
  split; [unfold buildStatusKeyboard; now rewrite Ha|].
  split; [reflexivity|].
  split.
  { intros row button i [E | [E | []]] Hb; subst row;
      destruct Hb as [E | [E | []]]; subst button; simpl;
      split; discriminate. }
  split; [apply firstn_le_length|].
  split.
  { intros Hh. rewrite length_firstn. apply Nat.min_l.
    destruct (Nat.le_gt_cases MAX_PENDING_ROWS_IN_KEYBOARD
                (List.length (state_pending state))) as [Hle | Hgt]; auto.
    exfalso. apply Hh. apply skipn_all2. lia. }
  split.
  - intros r Hr. split; [reflexivity|].
    apply (pendingData_requests db (GameRow.id game) r).
    change (pendingData db (GameRow.id game)) with (state_pending state).
    rewrite Hsplit. apply in_or_app. now left.
  - intros r h Hr Hh.
    pose proof (pendingData_increasing db (GameRow.id game)) as Hs.
    change (pendingData db (GameRow.id game)) with (state_pending state) in Hs.
    rewrite Hsplit, map_app in Hs.
    apply (increasing_app _ _ _ _ Hs); now apply in_map.
Qed.

Lemma keyboard_witness :
  exists fixed shown hidden,
    state_pending (composeGameState table_db 1) = (shown ++ hidden)%list
    /\ buildStatusKeyboard (GameRow.mk 1 "1" active 10 None 5000 (Some "77"))
         (composeGameState table_db 1)
       = Some (fixed ++ map approval_buttons shown)%list
    /\ List.length fixed = 2%nat.
Proof.
  destruct (keyboard_offers_the_oldest_pending_requests table_db
              (GameRow.mk 1 "1" active 10 None 5000 (Some "77")) eq_refl)
    as (fixed & shown & hidden & H1 & H2 & H3 & _).
  exists fixed, shown, hidden.
  split; [exact H1|]. split; [exact H2 | exact H3].
Defined.

Lemma reachable_pending_rows_witness :
  exists p,
    find_player table_db 1 "1001" = Some p
    /\ "alice" = coalesce (Player.username p).
Proof.
  destruct (reachable_pending_rows_have_no_votes table_events 1
              (PendingRow.mk 1 "1001" "alice" "Alice" 5000 0 0))
    as (_ & _ & p & Hp & Hu & _).
  - vm_compute. auto.
  - exists p. split; [exact Hp | exact Hu].
Defined.

(** ** Nothing is deleted *)

Lemma Forall2_map_r {A} (R : A -> A -> Prop) (f : A -> A) (l : list A) :
  (forall a, R a (f a)) -> Forall2 R l (map f l).
Proof. intros H. induction l; simpl; constructor; auto. Qed.

Lemma Forall2_trans {A} (R : A -> A -> Prop) :
  (forall a b c, R a b -> R b c -> R a c) ->
  forall l1 l2 l3, Forall2 R l1 l2 -> Forall2 R l2 l3 -> Forall2 R l1 l3.
Proof.
  intros HR l1 l2 l3 H. revert l3.
  induction H; intros l3 H3; inversion H3; subst; constructor; eauto.
Qed.

Lemma game_kept_refl g : game_kept g g.
Proof. unfold game_kept. tauto. Qed.

Lemma game_kept_trans a b c : game_kept a b -> game_kept b c -> game_kept a c.
Proof. unfold game_kept. intuition congruence. Qed.

Lemma buyin_kept_refl b : buyin_kept b b.
Proof. unfold buyin_kept. tauto. Qed.

Lemma buyin_kept_trans a b c :
  buyin_kept a b -> buyin_kept b c -> buyin_kept a c.
Proof. unfold buyin_kept. intuition congruence. Qed.

Lemma extends_refl db : extends db db.
Proof.
  repeat split.
  - exists (games db), []. rewrite app_nil_r. split; auto.
    rewrite <- (map_id (games db)) at 2.
    apply Forall2_map_r. apply game_kept_refl.
  - exists []. now rewrite app_nil_r.
  - exists (buyins db), []. rewrite app_nil_r. split; auto.
    rewrite <- (map_id (buyins db)) at 2.
    apply Forall2_map_r. apply buyin_kept_refl.
  - exists []. now rewrite app_nil_r.
Qed.

Lemma kept_prefix_trans {A} (R : A -> A -> Prop) (l l1 n1 l2 n2 t : list A) :
  (forall a b c, R a b -> R b c -> R a c) ->
  Forall2 R l l1 -> t = (l2 ++ n2)%list -> Forall2 R (l1 ++ n1)%list l2 ->
  exists l3 n3, t = (l3 ++ n3)%list /\ Forall2 R l l3.
Proof.
  intros HR H1 Et H2.
  apply Forall2_app_inv_l in H2.
  destruct H2 as (m1 & m2 & Hm1 & _ & E). subst l2 t.
  exists m1, (m2 ++ n2)%list. split; [now rewrite app_assoc|].
  eapply Forall2_trans; eauto.
Qed.

Lemma extends_trans db1 db2 db3 :
  extends db1 db2 -> extends db2 db3 -> extends db1 db3.
Proof.
  intros ((gs & gn & Eg & Hg) & (pn & Ep) & (bs & bn & Eb & Hb) & (vn & Ev))
         ((gs' & gn' & Eg' & Hg') & (pn' & Ep') & (bs' & bn' & Eb' & Hb')
          & (vn' & Ev')).
  split; [|split; [|split]].
  - rewrite Eg in Hg'.
    exact (kept_prefix_trans game_kept _ _ _ _ _ _ game_kept_trans Hg Eg' Hg').
  - exists (pn ++ pn')%list. now rewrite Ep', Ep, app_assoc.
  - rewrite Eb in Hb'.
    exact (kept_prefix_trans buyin_kept _ _ _ _ _ _ buyin_kept_trans Hb Eb' Hb').
  - exists (vn ++ vn')%list. now rewrite Ev', Ev, app_assoc.
Qed.

Lemma extends_games_map db (f : GameRow.t -> GameRow.t) :
  (forall g, game_kept g (f g)) ->
  extends db (mkD1 (map f (games db)) (players db) (buyins db) (approvals db)).
Proof.
  intros Hf. destruct (extends_refl db) as (_ & Hp & Hb & Hv).
  split; [|split; [exact Hp | split; [exact Hb | exact Hv]]].
  exists (map f (games db)), []. simpl. rewrite app_nil_r. split; auto.
  now apply Forall2_map_r.
Qed.

Lemma extends_set_buyin_status db i s : extends db (set_buyin_status db i s).
Proof.
  destruct (extends_refl db) as (Hg & Hp & _ & Hv).
  split; [exact Hg | split; [exact Hp | split; [|exact Hv]]].
  eexists _, []. simpl. rewrite app_nil_r. split; [reflexivity|].
  apply Forall2_map_r. intros b.
  destruct (Buyin.id b =? i); unfold buyin_kept; simpl; tauto.
Qed.

Lemma extends_record_vote db buyinId voter d clock :
  extends db (record_vote db buyinId voter d clock).
Proof.
  unfold record_vote, insert_approval.
  destruct (existsb _ _); [apply extends_refl|].
  destruct (extends_refl db) as (Hg & Hp & Hb & _).
  split; [exact Hg | split; [exact Hp | split; [exact Hb|]]].
  simpl. eauto.
Qed.

Lemma statement_extends db db' : statement db db' -> extends db db'.
Proof.
  intros H. destruct H.
  - destruct (extends_refl db) as (_ & Hp & Hb & Hv).
    split; [|split; [exact Hp | split; [exact Hb | exact Hv]]].
    simpl. exists (games db). eexists. split; [reflexivity|].
    rewrite <- (map_id (games db)) at 2.
    apply Forall2_map_r, game_kept_refl.
  - destruct (extends_refl db) as (Hg & _ & Hb & Hv).
    split; [exact Hg | split; [|split; [exact Hb | exact Hv]]].
    simpl. eauto.
  - destruct (extends_refl db) as (Hg & Hp & _ & Hv).
    split; [exact Hg | split; [exact Hp | split; [|exact Hv]]].
    simpl. exists (buyins db). eexists. split; [reflexivity|].
    rewrite <- (map_id (buyins db)) at 2.
    apply Forall2_map_r, buyin_kept_refl.
  - eapply extends_trans; [apply extends_record_vote|].
    unfold apply_tally. repeat break_match; simpl;
      try apply extends_set_buyin_status; apply extends_refl.
  - apply extends_games_map. intros g.
    destruct (GameRow.id g =? GameRow.id game); unfold game_kept; simpl; tauto.
  - apply extends_games_map. intros g.
    destruct (GameRow.id g =? id); unfold game_kept; simpl; tauto.
Qed.

(** X12. Nothing is deleted or rewritten. After any sequence of events,
    started from any database, the rows that were there are still there,
    in their order and before every new row: the players and the votes as
    they were; the buy-ins up to their status; the games with the id, the
    chat, the start time and the default amount they had, and ended when
    they were ended. *)
Theorem history_is_kept :
  forall evs db, extends db (run evs db).
Proof.
  intros evs db.
  apply (run_statements_invariant (fun db' => extends db db')).
  - intros db1 db2 Hs H. eapply extends_trans; [exact H|].
    now apply statement_extends.
  - apply extends_refl.
Qed.

(** ** Votes after the end of a game *)

Lemma approval_checks_tables db db' buyinId approver :
  players db' = players db -> buyins db' = buyins db ->
  approval_checks db' buyinId approver = approval_checks db buyinId approver.
Proof.
  intros Ep Eb. unfold approval_checks, find_buyin, find_player.
  now rewrite Ep, Eb.
Qed.

Lemma vote_tables db db' buyinId voter d clock :
  players db' = players db -> buyins db' = buyins db ->
  approvals db' = approvals db ->
  let after x :=
    apply_tally (record_vote x buyinId voter d clock) buyinId in
  players (fst (after db')) = players (fst (after db))
  /\ buyins (fst (after db')) = buyins (fst (after db))
  /\ approvals (fst (after db')) = approvals (fst (after db))
  /\ snd (after db') = snd (after db)
  /\ count_votes (record_vote db' buyinId voter d clock) buyinId approve
     = count_votes (record_vote db buyinId voter d clock) buyinId approve.
Proof.
  intros Ep Eb Ev. cbv zeta.
  assert (Hr : players (record_vote db' buyinId voter d clock)
               = players (record_vote db buyinId voter d clock)
               /\ buyins (record_vote db' buyinId voter d clock)
                  = buyins (record_vote db buyinId voter d clock)
               /\ approvals (record_vote db' buyinId voter d clock)
                  = approvals (record_vote db buyinId voter d clock)).
  { unfold record_vote, insert_approval. rewrite Ev.
    destruct (existsb _ _); simpl; auto. }
  destruct Hr as (Hp & Hb & Ha).
  assert (Hc : forall d',
             count_votes (record_vote db' buyinId voter d clock) buyinId d'
             = count_votes (record_vote db buyinId voter d clock) buyinId d').
  { intros d'. unfold count_votes. now rewrite Ha. }
  unfold apply_tally. rewrite !Hc.
  destruct (APPROVALS_REQUIRED <=? _);
    [|destruct (APPROVALS_REQUIRED <=? _)]; simpl;
    rewrite ?Hp, ?Hb, ?Ha; auto.
Qed.

Lemma processApproval_tables tg tg' clock db db' chatId chatId' buyinId approver d :
  players db' = players db -> buyins db' = buyins db ->
  approvals db' = approvals db ->
  let r := processApproval tg clock db chatId buyinId approver d in
  let r' := processApproval tg' clock db' chatId' buyinId approver d in
  value r' = value r
  /\ players (store r') = players (store r)
  /\ buyins (store r') = buyins (store r)
  /\ approvals (store r') = approvals (store r).
Proof.
  intros Ep Eb Ev. cbv zeta. unfold processApproval.
  rewrite (approval_checks_tables db db' buyinId approver Ep Eb).
  destruct (approval_checks db buyinId approver) as [msg | buyin];
    [simpl; auto|].
  destruct (vote_tables db db' buyinId (String_of_number (TgUser.id approver))
              d clock Ep Eb Ev) as (Hp & Hb & Ha & Hs & Hc).
  cbv zeta in Hp, Hb, Ha, Hs, Hc. rewrite Hc.
  destruct (apply_tally (record_vote db' _ _ _ _) _) as [db2' changed'].
  destruct (apply_tally (record_vote db _ _ _ _) _) as [db2 changed].
  simpl in Hp, Hb, Ha, Hs. subst changed'.
  assert (Hst : forall (x : Eff bool) m, store (succeed m x) = store x)
    by reflexivity.
  assert (Hvl : forall (x : Eff bool) m,
             value (succeed m x) = Returned (mkResult true m))
    by reflexivity.
  destruct (getGameById db2' _), (getGameById db2 _);
    rewrite !Hst, !Hvl;
    repeat match goal with
    | |- context [store (refreshGameMessage ?t ?x ?c ?g ?a)] =>
        let H := fresh in
        destruct (refresh_tables t x c g a) as (? & ? & ?);
        generalize dependent (store (refreshGameMessage t x c g a)); intros
    end;
    repeat split; congruence.
Qed.

(** X13. Ending a game leaves its requests open. [endGame] changes
    neither the roster, nor the buy-ins, nor the votes; and as the checks
    of a vote read the roster and the buy-ins only, never the game, a vote
    is answered after [endGame] as it would have been before: same
    result, same buy-ins and same votes afterwards. A request pending when
    its game is ended can still be approved or rejected. *)
Theorem ending_a_game_leaves_its_requests_open :
  forall tg clock db chatId,
    let db' := store (endGame tg clock db chatId) in
    players db' = players db
    /\ buyins db' = buyins db
    /\ approvals db' = approvals db
    /\ forall tg1 tg2 clock' chat1 chat2 buyinId approver d,
         let r := processApproval tg1 clock' db chat1 buyinId approver d in
         let r' := processApproval tg2 clock' db' chat2 buyinId approver d in
         value r' = value r
         /\ players (store r') = players (store r)
         /\ buyins (store r') = buyins (store r)
         /\ approvals (store r') = approvals (store r).
Proof.
  intros tg clock db chatId db'.
  assert (H : players db' = players db /\ buyins db' = buyins db
              /\ approvals db' = approvals db).
  { subst db'. unfold endGame.
    destruct (currentGame db (String_of_number chatId)) as [game|];
      [|simpl; auto].
    destruct (getGameById _ _) as [updated|]; [|simpl; auto].
    change (store (succeed ?m ?x)) with (store x).
    destruct (refresh_tables tg (end_game_row db (GameRow.id game) clock)
                (Some chatId) (Some updated) true) as (Hp & Hb & Hv).
    rewrite Hp, Hb, Hv. simpl. auto. }
  destruct H as (Hp & Hb & Hv).
  split; [exact Hp|]. split; [exact Hb|]. split; [exact Hv|].
  intros tg1 tg2 clock' chat1 chat2 buyinId approver d.
  apply processApproval_tables; assumption.
Qed.

(** ** The calls of a handler *)

Lemma refresh_calls tg db chatId provided allowCreate :
  let t := trace (refreshGameMessage tg db chatId provided allowCreate) in
  t = []
  \/ (exists p m, t = [editMessageText p m]
                  /\ (edit_ok tg = true \/ allowCreate = false))
  \/ (exists p, t = [sendMessage p] /\ allowCreate = true)
  \/ (exists p m, t = [editMessageText p m; sendMessage p]
                  /\ edit_ok tg = false /\ allowCreate = true).
Proof.
  unfold refreshGameMessage.
  repeat break_match; simpl; eauto 10.
Qed.

Lemma handle_calls db ev :
  trace (handle db ev) = []
  \/ exists db1 chatId provided,
      trace (handle db ev)
      = trace (refreshGameMessage (ev_tg ev) db1 chatId provided
                 (match ev_op ev with op_status _ => false | _ => true end)).
Proof.
  unfold handle.
  destruct (ev_op ev) as [chatId argText | chatId user | chatId user argText
                         | chatId buyinId approver d | chatId | chatId].
  - unfold startGame. repeat break_match; cbn [trace fail succeed]; eauto.
  - unfold joinGame. repeat break_match; cbn [trace fail succeed]; eauto.
  - unfold buyIn. repeat break_match; cbn [trace fail succeed]; eauto.
  - unfold processApproval.
    destruct (approval_checks db buyinId approver); [now left|].
    destruct (apply_tally _ _) as [db2 changed].
    destruct (getGameById db2 _); cbn [trace fail succeed]; eauto.
  - unfold endGame. repeat break_match; cbn [trace fail succeed]; eauto.
  - cbn [trace]. eauto.
Qed.

(** X14. The calls of a handler. Handling an event makes no call to
    Telegram, or one edit of the status message, or one send, or an edit
    followed by a send with the same payload. A send follows an edit only
    when the edit failed, and the passive status query never sends: a
    lone edit either went through or was made by the passive query. The
    passive query leaves the database as it was. *)
Theorem handler_publishes_by_one_edit_or_one_send :
  forall db ev,
    let t := trace (handle db ev) in
    let passive := exists chatId, ev_op ev = op_status chatId in
    (t = []
     \/ (exists p m, t = [editMessageText p m]
                     /\ (edit_ok (ev_tg ev) = true \/ passive))
     \/ (exists p, t = [sendMessage p] /\ ~ passive)
     \/ (exists p m, t = [editMessageText p m; sendMessage p]
                     /\ edit_ok (ev_tg ev) = false /\ ~ passive))
    /\ (passive -> store (handle db ev) = db).
Proof.
  intros db ev. cbv zeta. split.
  - destruct (handle_calls db ev) as [E | (db1 & chatId & provided & E)];
      [now left|].
    rewrite E.
    destruct (refresh_calls (ev_tg ev) db1 chatId provided
                (match ev_op ev with op_status _ => false | _ => true end))
      as [H | [(p & m & H & Hc) | [(p & H & Hc) | (p & m & H & He & Hc)]]].
    + now left.
    + right; left. exists p, m. split; [exact H|].
      destruct Hc as [Hc | Hc]; [now left|]. right.
      destruct (ev_op ev); try discriminate. eauto.
    + right; right; left. exists p. split; [exact H|].
      intros (c & Ec). rewrite Ec in Hc. discriminate.
    + right; right; right. exists p, m. split; [exact H|]. split; [exact He|].
      intros (c & Ec). rewrite Ec in Hc. discriminate.
  - intros (c & Ec). unfold handle. rewrite Ec. cbn [store].
    unfold refreshGameMessage. repeat break_match; reflexivity.
Qed.

(** ** Starting a game *)

Lemma Math_round_nonneg x c :
  match Prim2SF x with
  | S754_finite true _ _ => False
  | _ => True
  end ->
  Math_round x = Some c -> 0 <= c.
Proof.
  unfold Math_round.
  destruct (Prim2SF x) as [s | s | | s m e]; try discriminate.
  - intros _ H. inversion H. lia.
  - destruct s; [contradiction|]. intros _. cbv zeta.
    generalize (Pos2Z.is_nonneg m). generalize (Z.pos m). intros v Hv.
    destruct (0 <=? e) eqn:E; intros H.
    + apply Z.leb_le in E.
      replace c with (v * 2 ^ e) by congruence.
      apply Z.mul_nonneg_nonneg; [lia | apply Z.pow_nonneg; lia].
    + apply Z.leb_gt in E.
      replace c with ((2 * v + 2 ^ (- e)) / 2 ^ (1 - e)) by congruence.
      apply Z.div_pos; [|apply Z.pow_pos_nonneg; lia].
      assert (0 <= 2 ^ (- e)) by (apply Z.pow_nonneg; lia). lia.
Qed.

Lemma product_sign (x y : spec_float) :
  match x with S754_finite false _ _ | S754_infinity false => True | _ => False end ->
  match y with S754_finite false _ _ => True | _ => False end ->
  match SF64mul x y with S754_finite true _ _ => False | _ => True end.
Proof.
  destruct x as [s | [|] | | [|] m e]; try contradiction;
    destruct y as [s' | s' | | [|] m' e']; try contradiction; intros _ _.
  - exact I.
  - unfold SF64mul, SFmul, binary_round_aux.
    destruct (shr_fexp _ _ _ _ _) as [mrs' e1].
    destruct (shr_fexp _ _ _ _ _) as [mrs'' e2].
    destruct (shr_m mrs''); simpl; auto.
    destruct (e2 <=? _); exact I.
Qed.

(** An amount above zero gives a number of cents that is not negative;
    it can be 0. *)
Lemma toCents_nonneg n c :
  (0 <? n)%float = true -> toCents n = Some c -> 0 <= c.
Proof.
  intros Hpos. unfold toCents. apply Math_round_nonneg.
  rewrite mul_spec.
  rewrite ltb_spec in Hpos.
  apply product_sign.
  - replace (Prim2SF 0) with (S754_zero false) in Hpos
      by (vm_compute; reflexivity).
    destruct (Prim2SF n) as [s | [|] | | [|] m e];
      simpl in Hpos; try discriminate; exact I.
  - vm_compute. exact I.
Qed.

Lemma getGameById_inserted db chat clock cents :
  getGameById (insert_game db chat clock cents)
    (next_id (map GameRow.id (games db)))
  = Some (GameRow.mk (next_id (map GameRow.id (games db))) chat active clock
            None cents None).
Proof.
  unfold getGameById. simpl. rewrite find_app_none.
  - simpl. now rewrite Z.eqb_refl.
  - destruct (find _ (games db)) as [g|] eqn:E; [|reflexivity].
    apply find_some in E. destruct E as [Hg E]. apply Z.eqb_eq in E.
    exfalso. apply (next_id_fresh (map GameRow.id (games db))).
    rewrite <- E. now apply in_map.
Qed.

Lemma message_of_inserted db chat clock cents m :
  games (set_status_message_id (insert_game db chat clock cents)
           (next_id (map GameRow.id (games db))) m)
  = (games db
     ++ [GameRow.mk (next_id (map GameRow.id (games db))) chat active clock
           None cents (Some m)])%list.
Proof.
  simpl. rewrite map_app. simpl. rewrite Z.eqb_refl. f_equal.
  rewrite <- (map_id (games db)) at 2. apply map_ext_in.
  intros g Hg. destruct (GameRow.id g =? _) eqn:E; auto.
  apply Z.eqb_eq in E. exfalso.
  apply (next_id_fresh (map GameRow.id (games db))).
  rewrite <- E. now apply in_map.
Qed.

(** X15. [startGame] and its amount. In a chat without an active game, a
    text without a digit is refused with the usage line and a parsed
    amount that is not above zero is refused. An amount above zero whose
    hundredfold is not finite makes the insert throw. Any other amount
    above zero is accepted: its number of cents is not negative (it can be
    0, the check being made on the amount and not on the cents). The game
    is appended with the next id, the chat, the clock and the cents,
    active; roster, buy-ins and votes are left alone; the status is
    published by exactly one send to the chat, with a keyboard, never by an
    edit; and the game records the id of the message when the send returns
    one. *)
Theorem startGame_validates_and_opens :
  forall tg clock db chatId argText,
    let chat := String_of_number chatId in
    let r := startGame tg clock db chatId argText in
    find (is_active_in chat) (games db) = None ->
    (match_amount argText = None ->
     r = fail db "Usage: /startgame <buy-in amount>. Example: /startgame 50")
    /\ (forall m,
          match_amount argText = Some m ->
          ((0 <? parseFloat m)%float = false ->
           r = fail db "Buy-in must be greater than zero.")
          /\ ((0 <? parseFloat m)%float = true ->
              toCents (parseFloat m) = None -> r = mkEff Threw db [])
          /\ (forall cents,
                (0 <? parseFloat m)%float = true ->
                toCents (parseFloat m) = Some cents ->
                0 <= cents
                /\ value r = Returned (mkResult true "Game started.")
                /\ games (store r)
                   = (games db
                      ++ [GameRow.mk (next_id (map GameRow.id (games db)))
                            chat active clock None cents
                            match send_result tg with
                            | Some message_id =>
                                if message_id =? 0 then None
                                else Some (String_of_number message_id)
                            | None => None
                            end])%list
                /\ players (store r) = players db
                /\ buyins (store r) = buyins db
                /\ approvals (store r) = approvals db
                /\ exists p,
                     trace r = [sendMessage p]
                     /\ payload_chat_id p = Some chatId
                     /\ reply_markup p <> None)).
Proof.
  intros tg clock db chatId argText chat r Hfree.
  split.
  - intros Em. subst r. unfold startGame. fold chat. now rewrite Hfree, Em.
  - intros m Em. split; [|split].
    + intros Hz. subst r. unfold startGame. fold chat.
      now rewrite Hfree, Em, Hz.
    + intros Hz Hc. subst r. unfold startGame. fold chat.
      now rewrite Hfree, Em, Hz, Hc.
    + intros cents Hz Hc.
      split; [exact (toCents_nonneg _ _ Hz Hc)|].
      subst r. unfold startGame. fold chat.
      rewrite Hfree, Em, Hz, Hc. cbn [negb]. cbv zeta.
      rewrite getGameById_inserted.
      unfold refreshGameMessage, succeed.
      cbn [GameRow.status_message_id GameRow.id GameRow.status].
      destruct (send_result tg) as [message_id|];
        [destruct (message_id =? 0) eqn:E0|];
        cbn [value store trace app];
        rewrite ?message_of_inserted;
        (split; [reflexivity|]); (split; [reflexivity|]);
        (split; [reflexivity|]); (split; [reflexivity|]);
        (split; [reflexivity|]);
        (eexists; split; [reflexivity|]; split; [reflexivity|]);
        unfold buildStatusKeyboard; simpl; discriminate.
Qed.

Lemma startGame_witness :
  0 <= 0
  /\ value (startGame tg_up 10 empty_db 1 "0.001")
     = Returned (mkResult true "Game started.").
Proof.
  destruct (startGame_validates_and_opens tg_up 10 empty_db 1 "0.001" eq_refl)
    as (_ & H).
  destruct (H ("0", "001") eq_refl) as (_ & _ & H').
  destruct (H' 0 eq_refl eq_refl) as (H0 & Hv & _).
  split; [exact H0 | exact Hv].
Defined.

(** ** The text of an amount *)

Lemma take_digits_spec s :
  s = fst (take_digits s) ++ snd (take_digits s)
  /\ all_digits (fst (take_digits s)) = true
  /\ starts_with_digit (snd (take_digits s)) = false.
Proof.
  induction s as [|c s IH]; [now simpl|].
  cbn [take_digits]. destruct (is_digit c) eqn:Ec.
  - destruct (take_digits s) as [ds rest]. simpl in *.
    destruct IH as (E & Ha & Hr).
    split; [now rewrite <- E|]. split; [|exact Hr].
    unfold all_digits in *. simpl. now rewrite Ec.
  - simpl. now rewrite Ec.
Qed.

Lemma take_digits_first c s :
  is_digit c = true ->
  exists ds, fst (take_digits (String c s)) = String c ds.
Proof.
  intros H. cbn [take_digits]. rewrite H.
  destruct (take_digits s) as [ds rest]. now exists ds.
Qed.

Lemma after_digits (ds rest : string) :
  match rest with
  | String "."%char rest' =>
      let (fs, _) := take_digits rest' in Some (ds, fs)
  | _ => Some (ds, EmptyString)
  end
  = match rest with
    | String c rest' =>
        if Ascii.eqb c "." then Some (ds, fst (take_digits rest'))
        else Some (ds, EmptyString)
    | EmptyString => Some (ds, EmptyString)
    end.
Proof.
  destruct rest as [|c rest']; [reflexivity|].
  destruct c as [[|] [|] [|] [|] [|] [|] [|] [|]]; try reflexivity.
  simpl. now destruct (take_digits rest').
Qed.

Lemma match_amount_digit c s :
  is_digit c = true ->
  match_amount (String c s)
  = match snd (take_digits (String c s)) with
    | String d rest' =>
        if Ascii.eqb d "."
        then Some (fst (take_digits (String c s)), fst (take_digits rest'))
        else Some (fst (take_digits (String c s)), EmptyString)
    | EmptyString => Some (fst (take_digits (String c s)), EmptyString)
    end.
Proof.
  intros H. cbn [match_amount]. rewrite H.
  destruct (take_digits (String c s)) as [ds rest].
  rewrite after_digits. reflexivity.
Qed.

Lemma match_amount_skip c s :
  is_digit c = false -> match_amount (String c s) = match_amount s.
Proof. intros H. cbn [match_amount]. now rewrite H. Qed.

Lemma append_assoc (a b c : string) : (a ++ b) ++ c = a ++ (b ++ c).
Proof. induction a; simpl; congruence. Qed.

Lemma append_nil_r (a : string) : a ++ "" = a.
Proof. induction a; simpl; congruence. Qed.

Ltac same_match H :=
  match type of H with
  | Some (?a, ?b) = Some (?x, ?y) =>
      assert (x = a) by congruence; assert (y = b) by congruence;
      clear H; subst x y
  end.

(** X16. The amount is the first decimal number of the text. The pattern
    of [startGame] and [buyIn] finds nothing exactly when the text has no
    digit. Otherwise it matches the leftmost run of digits, as long as it
    goes, and a dot with the digits after it when a digit follows the
    dot: what stands before the match has no digit, so a sign or a
    currency symbol before the number is ignored, and what stands after
    it does not begin with a digit. *)
Theorem amount_is_the_first_decimal_number :
  forall s,
    (match_amount s = None <-> has_digit s = false)
    /\ (forall pre,
          has_digit pre = false -> match_amount (pre ++ s) = match_amount s)
    /\ (forall ds fs,
          match_amount s = Some (ds, fs) ->
          ds <> ""
          /\ all_digits ds = true
          /\ all_digits fs = true
          /\ exists pre post,
               s = pre ++ matched_text (ds, fs) ++ post
               /\ has_digit pre = false
               /\ starts_with_digit post = false
               /\ (fs = "" ->
                   forall rest, post = "." ++ rest ->
                                starts_with_digit rest = false)).
Proof.
  intros s. split; [|split].
  - induction s as [|c s IH]; [now simpl|].
    unfold has_digit. cbn [list_ascii_of_string existsb].
    destruct (is_digit c) eqn:Ec.
    + rewrite (match_amount_digit c s Ec). cbn [orb].
      split; [|discriminate].
      destruct (snd (take_digits (String c s))) as [|d rest'];
        [discriminate|]. destruct (Ascii.eqb d "."); discriminate.
    + rewrite (match_amount_skip c s Ec). exact IH.
  - intros pre. induction pre as [|c pre IH]; [reflexivity|].
    unfold has_digit. cbn [list_ascii_of_string existsb].
    intros H. apply orb_false_iff in H. destruct H as [Hc Hp].
    change (String c pre ++ s) with (String c (pre ++ s)).
    rewrite (match_amount_skip c _ Hc). now apply IH.
  - induction s as [|c s IH]; intros ds fs; [discriminate|].
    destruct (is_digit c) eqn:Ec.
    + rewrite (match_amount_digit c s Ec).
      destruct (take_digits_spec (String c s)) as (Es & Hds & Hrest).
      destruct (take_digits_first c s Ec) as (ds' & Eds).
      remember (fst (take_digits (String c s))) as D eqn:ED.
      destruct (snd (take_digits (String c s))) as [|d rest'] eqn:Er.
      * intros Hm; same_match Hm.
        split; [rewrite Eds; discriminate|]. split; [exact Hds|].
        split; [reflexivity|].
        exists "", "". simpl. rewrite append_nil_r.
        split; [now rewrite append_nil_r in Es|].
        split; [reflexivity|]. split; [reflexivity|]. discriminate.
      * destruct (Ascii.eqb d ".") eqn:Ed.
        -- apply Ascii.eqb_eq in Ed. subst d. intros Hm; same_match Hm.
           destruct (take_digits_spec rest') as (Es' & Hfs & Hrest').
           split; [rewrite Eds; discriminate|]. split; [exact Hds|].
           split; [exact Hfs|].
           destruct (fst (take_digits rest')) as [|f fs'] eqn:Ef.
           ++ exists "", (String "." rest'). simpl.
              split; [exact Es|]. split; [reflexivity|].
              split; [reflexivity|].
              intros _ rest [= <-]. rewrite Es' in *. simpl in *.
              simpl in Es'. rewrite <- Es' in Hrest'. exact Hrest'.
           ++ exists "", (snd (take_digits rest')). simpl.
              split.
              ** rewrite Es at 1. rewrite append_assoc. f_equal.
                 simpl. f_equal. exact Es'.
              ** split; [reflexivity|]. split; [exact Hrest'|]. discriminate.
        -- intros Hm; same_match Hm.
           split; [rewrite Eds; discriminate|]. split; [exact Hds|].
           split; [reflexivity|].
           exists "", (String d rest'). simpl.
           split; [exact Es|]. split; [reflexivity|].
           split; [exact Hrest|].
           intros _ rest [= E _]. subst d. discriminate.
    + rewrite (match_amount_skip c s Ec). intros Hm.
      destruct (IH ds fs Hm) as (Hn & Hds & Hfs & pre & post & Es & Hp & Hq & Hr).
      split; [exact Hn|]. split; [exact Hds|]. split; [exact Hfs|].
      exists (String c pre), post. simpl.
      split; [now rewrite Es at 1|].
      split; [unfold has_digit in *; simpl; now rewrite Ec|].
      split; [exact Hq | exact Hr].
Qed.

Lemma amount_text_witness : match_amount "-50" = match_amount "50".
Proof.
  exact (proj1 (proj2 (amount_is_the_first_decimal_number "50")) "-" eq_refl).
Defined.

(** ** The dispatchers *)

Lemma buyIn_blank tg clock db chatId user argText :
  trimmed_nonempty argText = false ->
  buyIn tg clock db chatId user argText = buyIn tg clock db chatId user None.
Proof.
  intros H. unfold buyIn. rewrite H.
  replace (trimmed_nonempty None) with false by reflexivity. reflexivity.
Qed.




(** X18. The answer to a command. In a group, [handleMessage] changes the
    database and calls Telegram exactly as the event of the command does,
    and does nothing for a word that is no command. It sends a text only
    when the operation is refused: the handler's message, and
    "No active game." for a status query that refreshed nothing; a
    command that succeeds is answered by the status message alone. A
    [/buyin] without an amount does what the buy-in button does, and so
    do [/joingame] and [/endgame] for their buttons. *)
Theorem command_is_answered_only_when_refused :
  forall tg clock db chatId from cmd argText,
    let r := handleMessage tg clock db true chatId from cmd argText in
    (command_op chatId from cmd argText = None ->
     r = mkEff Silent db [])
    /\ (forall op,
          command_op chatId from cmd argText = Some op ->
          let h := handle db (mkEvent op clock tg) in
          store r = store h
          /\ trace r = trace h
          /\ (value h = Threw -> value r = Failed)
          /\ (forall res,
                value h = Returned res ->
                (ok res = true -> value r = Silent)
                /\ (ok res = false ->
                    value r = Sent (if String.eqb cmd "/status"
                                    then "No active game."
                                    else message res)
                    /\ (cmd <> "/status" -> message res <> ""))))
    /\ (chatId <> 0 ->
        forall a,
          (cmd = "/joingame" /\ a = act_join)
          \/ (cmd = "/buyin" /\ trimmed_nonempty (Some argText) = false
              /\ a = act_buyin)
          \/ (cmd = "/endgame" /\ a = act_end)
          \/ (cmd = "/status" /\ a = act_refresh) ->
          let c := handleCallback tg clock db (Some chatId) from (data_action a) in
          store r = store c /\ trace r = trace c).
Proof.
  intros tg clock db chatId from cmd argText. cbv zeta.
  unfold handleMessage, command_op. cbn [negb].
  assert (Hreply : forall x : Eff outcome,
             (forall res, value x = Returned res -> ok res = false ->
                          message res <> "") ->
             (value x = Threw -> value (with_reply x) = Failed)
             /\ (forall res,
                   value x = Returned res ->
                   (ok res = true -> value (with_reply x) = Silent)
                   /\ (ok res = false ->
                       value (with_reply x) = Sent (message res)
                       /\ message res <> ""))).
  { intros x Hm. unfold with_reply, reply_of. cbn [value]. split.
    - now intros ->.
    - intros res E. rewrite E. split; intros Hok; rewrite Hok; simpl; auto.
      specialize (Hm res E Hok). split; [|exact Hm].
      apply String.eqb_neq in Hm. now rewrite Hm. }
  assert (Hstart : forall res,
             value (startGame tg clock db chatId argText) = Returned res ->
             ok res = false -> message res <> "").
  { unfold startGame. intros res.
    repeat break_match; simpl; intros E Hok; inversion E; subst res;
      simpl in *; discriminate. }
  assert (Hjoin : forall res,
             value (joinGame tg clock db chatId from) = Returned res ->
             ok res = false -> message res <> "").
  { unfold joinGame. intros res.
    repeat break_match; simpl; intros E Hok; inversion E; subst res;
      simpl in *; discriminate. }
  assert (Hbuy : forall res,
             value (buyIn tg clock db chatId from (Some argText)) = Returned res ->
             ok res = false -> message res <> "").
  { unfold buyIn. intros res.
    repeat break_match; simpl; intros E Hok; inversion E; subst res;
      simpl in *; discriminate. }
  assert (Hend : forall res,
             value (endGame tg clock db chatId) = Returned res ->
             ok res = false -> message res <> "").
  { unfold endGame. intros res.
    repeat break_match; simpl; intros E Hok; inversion E; subst res;
      simpl in *; discriminate. }
  split; [|split].
  - repeat (destruct (String.eqb cmd _); [discriminate|]). reflexivity.
  - intros op.
    destruct (String.eqb cmd "/startgame") eqn:E1.
    { apply String.eqb_eq in E1. subst cmd. intros [= <-].
      unfold handle. cbn [ev_op ev_tg ev_now String.eqb Ascii.eqb Bool.eqb].
      split; [reflexivity|]. split; [reflexivity|].
      destruct (Hreply _ Hstart) as (Ht & Hr). split; [exact Ht|].
      intros res E. destruct (Hr res E) as (Hy & Hn).
      split; [exact Hy|]. intros Hok. destruct (Hn Hok). auto. }
    destruct (String.eqb cmd "/joingame") eqn:E2.
    { apply String.eqb_eq in E2. subst cmd. intros [= <-].
      unfold handle. cbn [ev_op ev_tg ev_now String.eqb Ascii.eqb Bool.eqb].
      split; [reflexivity|]. split; [reflexivity|].
      destruct (Hreply _ Hjoin) as (Ht & Hr). split; [exact Ht|].
      intros res E. destruct (Hr res E) as (Hy & Hn).
      split; [exact Hy|]. intros Hok. destruct (Hn Hok). auto. }
    destruct (String.eqb cmd "/buyin") eqn:E3.
    { apply String.eqb_eq in E3. subst cmd. intros [= <-].
      unfold handle. cbn [ev_op ev_tg ev_now String.eqb Ascii.eqb Bool.eqb].
      split; [reflexivity|]. split; [reflexivity|].
      destruct (Hreply _ Hbuy) as (Ht & Hr). split; [exact Ht|].
      intros res E. destruct (Hr res E) as (Hy & Hn).
      split; [exact Hy|]. intros Hok. destruct (Hn Hok). auto. }
    destruct (String.eqb cmd "/status") eqn:E4.
    { apply String.eqb_eq in E4. subst cmd. intros [= <-].
      unfold handle. cbn [ev_op ev_tg ev_now value store trace].
      split; [reflexivity|]. split; [reflexivity|].
      split; [discriminate|].
      intros res [= <-]. cbn [ok message].
      split; intros ->; [reflexivity|]. split; [reflexivity|]. congruence. }
    destruct (String.eqb cmd "/endgame") eqn:E5; [|discriminate].
    apply String.eqb_eq in E5. subst cmd. intros [= <-].
    unfold handle. cbn [ev_op ev_tg ev_now String.eqb Ascii.eqb Bool.eqb].
    split; [reflexivity|]. split; [reflexivity|].
    destruct (Hreply _ Hend) as (Ht & Hr). split; [exact Ht|].
    intros res E. destruct (Hr res E) as (Hy & Hn).
    split; [exact Hy|]. intros Hok. destruct (Hn Hok). auto.
  - intros Hz a. unfold handleCallback. apply Z.eqb_neq in Hz. rewrite Hz.
    intros [(-> & ->) | [(-> & Hb & ->) | [(-> & ->) | (-> & ->)]]];
      cbn [String.eqb Ascii.eqb Bool.eqb with_reply with_toast store trace];
      try (split; reflexivity).
    rewrite (buyIn_blank _ _ _ _ _ _ Hb). split; reflexivity.
Qed.

Lemma command_answer_witness :
  value (handleMessage tg_up 30 table_db true 1 alice "/joingame" "")
  = Sent "You are already part of this game.".
Proof.
  destruct (command_is_answered_only_when_refused tg_up 30 table_db 1 alice
              "/joingame" "") as (_ & H & _).
  destruct (H (op_join 1 alice) eq_refl) as (_ & _ & _ & H').
  destruct (H' (mkResult false "You are already part of this game."))
    as (_ & Hn).
  - vm_compute. reflexivity.
  - destruct (Hn eq_refl) as (Hs & _). exact Hs.
Defined.

(** ** The game of a chat *)

Lemma largest_id_none l : largest_id l = None -> l = [].
Proof.
  destruct l as [|g l]; [reflexivity|]. simpl.
  destruct (largest_id l) as [h|]; [|discriminate].
  destruct (GameRow.id g <? GameRow.id h); discriminate.
Qed.

Lemma largest_id_max l g :
  largest_id l = Some g -> forall g', In g' l -> GameRow.id g' <= GameRow.id g.
Proof.
  revert g. induction l as [|a l IH]; intros g; [discriminate|].
  simpl. destruct (largest_id l) as [h|] eqn:Eh.
  - destruct (GameRow.id a <? GameRow.id h) eqn:E; intros [= <-] g' [<- | Hg'].
    + apply Z.ltb_lt in E. lia.
    + now apply IH.
    + lia.
    + apply Z.ltb_ge in E. specialize (IH h eq_refl g' Hg'). lia.
  - apply largest_id_none in Eh. subst l.
    intros [= <-] g' [<- | []]. lia.
Qed.

(** X19. The game of a chat. [currentGame] finds nothing exactly when the
    chat has no active game; what it finds is an active game of the chat
    whose id is the largest among them. When the chat has at most one
    active game, every active game of the chat is the one [currentGame]
    gives for it. *)
Theorem currentGame_is_the_active_game :
  forall db chat,
    (currentGame db chat = None
     <-> forall g, In g (games db) -> is_active_in chat g = false)
    /\ (forall g,
          currentGame db chat = Some g ->
          In g (games db)
          /\ GameRow.chat_id g = chat
          /\ GameRow.status g = active
          /\ forall g', In g' (games db) -> is_active_in chat g' = true ->
                        GameRow.id g' <= GameRow.id g)
    /\ (forall g,
          (List.length (filter (is_active_in chat) (games db)) <= 1)%nat ->
          In g (games db) -> is_active_in chat g = true ->
          currentGame db chat = Some g).
Proof.
  intros db chat. split; [|split].
  - unfold currentGame. split.
    + intros H. apply largest_id_none in H. now apply filter_nil_iff.
    + intros H. apply filter_nil_iff in H. now rewrite H.
  - intros g H. destruct (currentGame_in db chat g H) as (Hin & Ha).
    split; [exact Hin|].
    pose proof Ha as Ha'. unfold is_active_in in Ha'.
    apply andb_true_iff in Ha'. destruct Ha' as (Hc & Hs).
    apply String.eqb_eq in Hc.
    split; [exact Hc|]. split; [destruct (GameRow.status g); [reflexivity | discriminate]|].
    intros g' Hg' Ha2. apply (largest_id_max _ _ H).
    apply filter_In. auto.
  - intros g H1 Hin Ha.
    unfold currentGame.
    assert (Hf : In g (filter (is_active_in chat) (games db)))
      by (apply filter_In; auto).
    destruct (filter (is_active_in chat) (games db))
      as [|a [|b l]]; simpl in *; [contradiction | | lia].
    destruct Hf as [<- | []]. reflexivity.
Qed.

Lemma currentGame_witness :
  exists g, In g (games table_db) /\ GameRow.chat_id g = "1"
            /\ GameRow.status g = active.
Proof.
  destruct (currentGame_is_the_active_game table_db "1") as (_ & H & _).
  destruct (H (GameRow.mk 1 "1" active 10 None 5000 (Some "77")) eq_refl)
    as (Hin & Hc & Hs & _).
  eexists. split; [exact Hin|]. split; [exact Hc | exact Hs].
Defined.

(** ** Amounts as they are shown *)

Lemma digits_of_uint_acc (d : Decimal.uint) (acc : positive) :
  digits_value_from (Z.pos acc) (NilEmpty.string_of_uint d)
  = Z.pos (Pos.of_uint_acc d acc).
Proof.
  revert acc. induction d; intros acc; cbn [NilEmpty.string_of_uint
    digits_value_from Pos.of_uint_acc]; [reflexivity | ..];
    rewrite <- IHd; f_equal;
    match goal with
    | |- context [digit_value ?c] =>
        let v := eval vm_compute in (digit_value c) in
        change (digit_value c) with v
    end; lia.
Qed.

Lemma digits_of_uint (d : Decimal.uint) :
  digits_value (NilEmpty.string_of_uint d) = Z.of_N (Pos.of_uint d).
Proof.
  unfold digits_value.
  induction d; cbn [NilEmpty.string_of_uint digits_value_from Pos.of_uint];
    [reflexivity | exact IHd | ..];
    cbn [Z.of_N]; rewrite <- digits_of_uint_acc; reflexivity.
Qed.

Lemma all_digits_of_uint (d : Decimal.uint) :
  all_digits (NilEmpty.string_of_uint d) = true.
Proof.
  unfold all_digits. induction d; simpl; auto.
Qed.

Lemma printed_number n :
  0 <= n ->
  all_digits (String_of_number n) = true
  /\ String_of_number n <> ""
  /\ digits_value (String_of_number n) = n.
Proof.
  intros Hn. unfold String_of_number.
  destruct n as [|p|p]; [now vm_compute | | lia].
  cbn [Z.to_int NilZero.string_of_int].
  pose proof (DecimalPos.Unsigned.to_uint_nonnil p) as Hnil.
  pose proof (DecimalPos.Unsigned.of_to p) as Hof.
  assert (E : NilZero.string_of_uint (Pos.to_uint p)
              = NilEmpty.string_of_uint (Pos.to_uint p)).
  { unfold NilZero.string_of_uint.
    destruct (Pos.to_uint p); [contradiction | reflexivity ..]. }
  rewrite E. split; [apply all_digits_of_uint|]. split.
  - destruct (Pos.to_uint p); [contradiction | discriminate ..].
  - rewrite digits_of_uint, Hof. reflexivity.
Qed.

Lemma two_digits_spec k :
  0 <= k < 100 ->
  String.length (two_digits k) = 2%nat
  /\ all_digits (two_digits k) = true
  /\ digits_value (two_digits k) = k.
Proof.
  intros Hk.
  assert (H : forall n : nat,
             (n < 100)%nat ->
             String.length (two_digits (Z.of_nat n)) = 2%nat
             /\ all_digits (two_digits (Z.of_nat n)) = true
             /\ digits_value (two_digits (Z.of_nat n)) = Z.of_nat n).
  { intros n Hlt.
    do 100 (destruct n as [|n]; [vm_compute; auto|]). lia. }
  specialize (H (Z.to_nat k)). rewrite Z2Nat.id in H by lia.
  apply H. lia.
Qed.

Lemma digits_value_from_app acc a b :
  digits_value_from acc (a ++ b)
  = digits_value_from (digits_value_from acc a) b.
Proof. revert acc. induction a; intros acc; simpl; auto. Qed.

Lemma digits_value_from_shift acc s :
  digits_value_from acc s
  = acc * 10 ^ Z.of_nat (String.length s) + digits_value s.
Proof.
  unfold digits_value. revert acc.
  induction s as [|c s IH]; intros acc; cbn [digits_value_from String.length].
  - simpl. lia.
  - rewrite IH, (IH (10 * 0 + digit_value c)).
    rewrite Nat2Z.inj_succ, Z.pow_succ_r by lia. ring.
Qed.

Lemma take_digits_app ds rest :
  all_digits ds = true -> starts_with_digit rest = false ->
  take_digits (ds ++ rest) = (ds, rest).
Proof.
  unfold all_digits. induction ds as [|c ds IH]; intros Hd Hr.
  - simpl. destruct rest as [|c rest]; [reflexivity|].
    simpl in *. now rewrite Hr.
  - simpl in Hd. apply andb_true_iff in Hd. destruct Hd as (Hc & Hd).
    change (String c ds ++ rest) with (String c (ds ++ rest)).
    cbn [take_digits]. now rewrite Hc, (IH Hd Hr).
Qed.

Lemma match_amount_decimal ds fs :
  ds <> "" -> all_digits ds = true -> all_digits fs = true ->
  match_amount (ds ++ "." ++ fs) = Some (ds, fs).
Proof.
  intros Hn Hd Hf.
  assert (Et : take_digits (ds ++ "." ++ fs) = (ds, "." ++ fs))
    by (now apply take_digits_app).
  destruct ds as [|c ds]; [contradiction|].
  assert (Hc : is_digit c = true).
  { unfold all_digits in Hd. simpl in Hd. now apply andb_true_iff in Hd. }
  change (String c ds ++ "." ++ fs) with (String c (ds ++ "." ++ fs)) in *.
  rewrite (match_amount_digit c _ Hc), Et.
  cbn [fst snd append]. cbn [Ascii.eqb Bool.eqb andb].
  rewrite <- (append_nil_r fs) at 1.
  now rewrite (take_digits_app fs "" Hf eq_refl).
Qed.

(** [nearest_dyadic] is the computation of [nearest_double]. *)
Lemma nearest_double_by_value n d :
  nearest_double n d = float_of_dyadic (nearest_dyadic n d).
Proof.
  unfold nearest_double, nearest_dyadic, binary_exponent, round_to_even.
  destruct (n =? 0); [reflexivity|]. cbv zeta.
  destruct (0 <=? Z.log2 n - Z.log2 d - 52);
    destruct (_ <? 2 ^ 52);
    match goal with
    | |- context [0 <=? Z.max ?a ?b] => destruct (0 <=? Z.max a b)
    end;
    match goal with
    | |- context [?m =? 0] => destruct (m =? 0); [reflexivity|]
    end;
    match goal with
    | |- context [(971 <? ?e) || ((?e =? 971) && (?m =? 2 ^ 53))] =>
        destruct ((971 <? e) || ((e =? 971) && (m =? 2 ^ 53)))
    end; reflexivity.
Qed.

Lemma round_to_even_error num den :
  0 <= num -> 0 < den ->
  Z.abs (2 * (round_to_even num den * den - num)) <= den.
Proof.
  intros Hn Hd. unfold round_to_even.
  pose proof (Z.div_mod num den ltac:(lia)) as E.
  pose proof (Z.mod_pos_bound num den Hd) as Hr.
  set (q := num / den) in *. set (r := num mod den) in *.
  destruct (2 * r <? den) eqn:E1; [apply Z.ltb_lt in E1; nia|].
  apply Z.ltb_ge in E1.
  destruct (den <? 2 * r) eqn:E2; [apply Z.ltb_lt in E2; nia|].
  apply Z.ltb_ge in E2.
  destruct (Z.even q); nia.
Qed.

Lemma round_to_even_integer num : round_to_even num 1 = num.
Proof.
  unfold round_to_even. rewrite Z.div_1_r, Z.mod_1_r. reflexivity.
Qed.

Lemma log2_quotient_bound n d b :
  0 < n -> 0 < d -> 0 <= b -> n < d * 2 ^ b ->
  Z.log2 n - Z.log2 d <= b.
Proof.
  intros Hn Hd Hb H.
  destruct (Z.log2_spec d Hd) as (_ & Hdu).
  assert (Hl : 0 <= Z.log2 d) by apply Z.log2_nonneg.
  assert (n < 2 ^ (Z.log2 d + 1 + b)).
  { rewrite Z.pow_add_r by lia.
    replace (Z.succ (Z.log2 d)) with (Z.log2 d + 1) in Hdu by lia.
    assert (0 < 2 ^ b) by (apply Z.pow_pos_nonneg; lia). nia. }
  apply Z.log2_lt_pow2 in H0; lia.
Qed.

Lemma binary_exponent_small n d b :
  0 < n -> 0 < d -> 0 <= b -> n < d * 2 ^ b ->
  binary_exponent n d <= Z.max (b - 52) (-1074).
Proof.
  intros Hn Hd Hb H. unfold binary_exponent.
  pose proof (log2_quotient_bound n d b Hn Hd Hb H).
  cbv zeta. destruct (_ <? 2 ^ 52); lia.
Qed.

(** An integer below 2^52 is a binary64 number. *)
Lemma integer_is_exact c :
  0 < c < 2 ^ 52 ->
  exists k, 0 < k /\ nearest_dyadic c 1 = dy_fin (c * 2 ^ k) (- k).
Proof.
  intros (Hc & Hlt).
  assert (HL : 0 <= Z.log2 c < 52).
  { split; [apply Z.log2_nonneg|]. now apply Z.log2_lt_pow2. }
  destruct (Z.log2_spec c Hc) as (Hlo & _).
  exists (52 - Z.log2 c). split; [lia|].
  unfold nearest_dyadic.
  replace (c =? 0) with false by (symmetry; apply Z.eqb_neq; lia).
  assert (Ee : binary_exponent c 1 = Z.log2 c - 52).
  { unfold binary_exponent. cbv zeta.
    change (Z.log2 1) with 0. rewrite Z.sub_0_r.
    replace (0 <=? Z.log2 c - 52) with false by (symmetry; apply Z.leb_gt; lia).
    rewrite Z.div_1_r.
    replace (- (Z.log2 c - 52)) with (52 - Z.log2 c) by lia.
    assert (2 ^ 52 <= c * 2 ^ (52 - Z.log2 c)).
    { replace (2 ^ 52) with (2 ^ Z.log2 c * 2 ^ (52 - Z.log2 c)).
      - apply Z.mul_le_mono_nonneg_r; [apply Z.pow_nonneg; lia | exact Hlo].
      - rewrite <- Z.pow_add_r by lia. f_equal. lia. }
    replace (c * 2 ^ (52 - Z.log2 c) <? 2 ^ 52) with false
      by (symmetry; apply Z.ltb_ge; lia).
    lia. }
  cbv zeta. rewrite Ee.
  replace (0 <=? Z.log2 c - 52) with false by (symmetry; apply Z.leb_gt; lia).
  rewrite round_to_even_integer.
  replace (- (Z.log2 c - 52)) with (52 - Z.log2 c) by lia.
  assert (Hp : 0 < 2 ^ (52 - Z.log2 c)) by (apply Z.pow_pos_nonneg; lia).
  replace (c * 2 ^ (52 - Z.log2 c) =? 0) with false
    by (symmetry; apply Z.eqb_neq; nia).
  replace (971 <? Z.log2 c - 52) with false by (symmetry; apply Z.ltb_ge; lia).
  replace (Z.log2 c - 52 =? 971) with false by (symmetry; apply Z.eqb_neq; lia).
  cbn [orb andb]. f_equal. lia.
Qed.

(** The quotient by 100 of an integer below 2^51, in binary64, is a
    number whose two-digit rounding is the exact quotient's. *)
Lemma quotient_shows_exactly c k :
  0 < c < 2 ^ 51 -> 0 < k ->
  toFixed2 (nearest_dyadic (c * 2 ^ k) (2 ^ k * 100)) = fixed2 c.
Proof.
  intros (Hc & Hlt) Hk.
  assert (Hp : 0 < 2 ^ k) by (apply Z.pow_pos_nonneg; lia).
  set (n := c * 2 ^ k). set (d := 2 ^ k * 100).
  assert (Hn : 0 < n) by (subst n; nia).
  assert (Hd : 0 < d) by (subst d; nia).
  assert (Hnd : n < d * 2 ^ 45).
  { subst n d. assert (c < 100 * 2 ^ 45) by (change (2 ^ 51) with 2251799813685248 in Hlt; change (2 ^ 45) with 35184372088832; lia).
    nia. }
  pose proof (binary_exponent_small n d 45 Hn Hd ltac:(lia) Hnd) as He.
  change (Z.max (45 - 52) (-1074)) with (-7) in He.
  unfold nearest_dyadic.
  replace (n =? 0) with false by (symmetry; apply Z.eqb_neq; lia).
  cbv zeta.
  set (e := binary_exponent n d) in *.
  replace (0 <=? e) with false by (symmetry; apply Z.leb_gt; lia).
  set (K := - e). assert (HK : 7 <= K) by (subst K; lia).
  assert (HpK : 128 <= 2 ^ K).
  { change 128 with (2 ^ 7). apply Z.pow_le_mono_r; lia. }
  pose proof (round_to_even_error (n * 2 ^ K) d ltac:(nia) Hd) as Herr.
  set (M := round_to_even (n * 2 ^ K) d) in *.
  assert (Hclose : Z.abs (100 * M - c * 2 ^ K) <= 50).
  { subst n d. 
    replace (2 * (M * (2 ^ k * 100) - c * 2 ^ k * 2 ^ K))
      with (2 ^ k * (2 * (100 * M - c * 2 ^ K))) in Herr by ring.
    rewrite Z.abs_mul in Herr. rewrite (Z.abs_eq (2 ^ k)) in Herr by lia.
    assert (Z.abs (2 * (100 * M - c * 2 ^ K)) <= 100) by nia.
    lia. }
  assert (HM : M <> 0) by (intros E; rewrite E in Hclose; nia).
  replace (M =? 0) with false by (symmetry; now apply Z.eqb_neq).
  replace (971 <? e) with false by (symmetry; apply Z.ltb_ge; lia).
  replace (e =? 971) with false by (symmetry; apply Z.eqb_neq; lia).
  cbn [orb andb]. unfold toFixed2.
  replace (0 <=? e) with false by (symmetry; apply Z.leb_gt; lia).
  cbn [andb]. f_equal. unfold toFixed2_digits.
  replace (0 <=? e) with false by (symmetry; apply Z.leb_gt; lia).
  fold K. replace (1 - e) with (K + 1) by (subst K; lia).
  rewrite Z.pow_add_r by lia. change (2 ^ 1) with 2.
  symmetry. apply Z.div_unique with (r := 200 * M + 2 ^ K - c * (2 ^ K * 2)).
  - left. lia.
  - ring.
Qed.

Lemma fmtMoney_exact c :
  0 <= c < 2 ^ 51 -> fmtMoney c = fixed2 c.
Proof.
  intros (Hc & Hlt). unfold fmtMoney.
  replace (c <? 0) with false by (symmetry; apply Z.ltb_ge; lia).
  rewrite Z.abs_eq by lia. cbn [append].
  destruct (Z.eq_dec c 0) as [-> | Hne]; [reflexivity|].
  destruct (integer_is_exact c) as (k & Hk & E).
  { change (2 ^ 52) with 4503599627370496. change (2 ^ 51) with 2251799813685248 in Hlt. lia. }
  rewrite E. unfold dyadic_div.
  replace (0 <=? - k) with false by (symmetry; apply Z.leb_gt; lia).
  rewrite Z.opp_involutive.
  apply quotient_shows_exactly; [lia | exact Hk].
Qed.

(** X20. An amount as it is shown can be read back. For a number of cents
    from 0 to below 2^51, the binary64 quotient by 100 that [fmtMoney]
    prints is near enough to the exact one: [fmtMoney] writes the whole
    units, a dot and exactly the two digits of the cents; the pattern of
    [startGame] and [buyIn] matches the whole of that text, and the digits
    it finds denote the same number of cents, so that [parseFloat] is
    asked for the binary64 number nearest to cents over 100; two
    different amounts in that range are never shown alike. Larger amounts
    can be: 8000000000000012 and 8000000000000013 cents are both shown
    with 13 after the dot. *)
Theorem shown_amount_reads_back :
  (forall cents,
     0 <= cents < 2 ^ 51 ->
     let ds := String_of_number (cents / 100) in
     let fs := two_digits (cents mod 100) in
     fmtMoney cents = ds ++ "." ++ fs
     /\ String.length fs = 2%nat
     /\ match_amount (fmtMoney cents) = Some (ds, fs)
     /\ digits_value (ds ++ fs) = cents
     /\ parseFloat (ds, fs) = nearest_double cents 100
     /\ (forall cents',
           0 <= cents' < 2 ^ 51 ->
           fmtMoney cents' = fmtMoney cents -> cents' = cents))
  /\ fmtMoney 8000000000000012 = "80000000000000.13"
  /\ fmtMoney 8000000000000013 = "80000000000000.13".
Proof.
  assert (Hread : forall c, 0 <= c < 2 ^ 51 ->
             fmtMoney c
             = String_of_number (c / 100) ++ "." ++ two_digits (c mod 100)
             /\ match_amount (fmtMoney c)
                = Some (String_of_number (c / 100), two_digits (c mod 100))
             /\ digits_value
                  (String_of_number (c / 100) ++ two_digits (c mod 100)) = c
             /\ String.length (two_digits (c mod 100)) = 2%nat).
  { intros c Hc.
    assert (Hq : 0 <= c / 100) by (apply Z.div_pos; lia).
    assert (Hr : 0 <= c mod 100 < 100) by (apply Z.mod_pos_bound; lia).
    destruct (printed_number _ Hq) as (Hd & Hn & Hv).
    destruct (two_digits_spec _ Hr) as (Hl & Hd2 & Hv2).
    assert (Hf : fmtMoney c
                 = String_of_number (c / 100) ++ "." ++ two_digits (c mod 100))
      by (exact (fmtMoney_exact c Hc)).
    split; [exact Hf|]. split; [|split; [|exact Hl]].
    - rewrite Hf. now apply match_amount_decimal.
    - unfold digits_value. rewrite digits_value_from_app.
      rewrite digits_value_from_shift.
      fold (digits_value (String_of_number (c / 100))).
      rewrite Hv, Hl, Hv2. change (10 ^ Z.of_nat 2) with 100.
      pose proof (Z.div_mod c 100). lia. }
  split; [|split; vm_compute; reflexivity].
  intros cents Hc ds fs. subst ds fs.
  destruct (Hread cents Hc) as (Hf & Hm & Hv & Hl).
  split; [exact Hf|]. split; [exact Hl|].
  split; [exact Hm|]. split; [exact Hv|]. split.
  - unfold parseFloat. rewrite Hv, Hl. reflexivity.
  - intros cents' Hc' E.
    destruct (Hread cents' Hc') as (_ & Hm' & Hv' & _).
    rewrite E, Hm in Hm'. inversion Hm' as [[E1 E2]].
    rewrite <- Hv', <- Hv. now rewrite E1, E2.
Qed.

Lemma shown_amount_witness :
  fmtMoney 5000 = "50" ++ "." ++ "00"
  /\ match_amount (fmtMoney 5000) = Some ("50", "00").
Proof.
  assert (H0 : 0 <= 5000 < 2 ^ 51) by (split; [discriminate | reflexivity]).
  destruct (proj1 shown_amount_reads_back 5000 H0) as (H1 & _ & H2 & _).
  split; [exact H1 | exact H2].
Defined.

(** ** The totals of the status message *)

Lemma sum_app l l' : sum (l ++ l') = sum l + sum l'.
Proof. unfold sum. induction l; simpl; lia. Qed.











(** ** The view of the other games *)

Lemma left_join_right_ext {A B} (on : A -> B -> bool) l r r' :
  (forall a, In a l -> filter (on a) r' = filter (on a) r) ->
  left_join on l r' = left_join on l r.
Proof.
  intros H. induction l as [|a l IH]; [reflexivity|].
  rewrite !left_join_cons, IH by (intros; apply H; now right).
  now rewrite (H a (or_introl eq_refl)).
Qed.

Lemma players_joined_selected db gameId :
  players_joined db gameId
  = left_join player_buyin_on
      (filter (fun p => Player.game_id p =? gameId) (players db)) (buyins db).
Proof.
  unfold players_joined.
  exact (left_join_filter_fst player_buyin_on
           (fun p => Player.game_id p =? gameId) (players db) (buyins db)).
Qed.

Lemma pending_joined_selected db gameId :
  pending_joined db gameId
  = left_join
      (fun (ba : Buyin.t * option Approval.t) p =>
         (Player.game_id p =? Buyin.game_id (fst ba))
         && String.eqb (Player.user_id p) (Buyin.user_id (fst ba)))
      (left_join (fun b a => Approval.buyin_id a =? Buyin.id b)
         (filter (is_pending_in gameId) (buyins db)) (approvals db))
      (players db).
Proof.
  unfold pending_joined.
  rewrite <- (left_join_filter_fst _ (is_pending_in gameId)).
  exact (left_join_filter_fst _ (fun ba => is_pending_in gameId (fst ba)) _ _).
Qed.

Lemma filter_map_untouched {A} (q : A -> bool) (f : A -> A) (l : list A) :
  (forall a, In a l -> f a = a \/ (q a = false /\ q (f a) = false)) ->
  filter q (map f l) = filter q l.
Proof.
  intros H. induction l as [|a l IH]; [reflexivity|].
  cbn [map filter]. rewrite IH by (intros; apply H; now right).
  destruct (H a (or_introl eq_refl)) as [E | (E1 & E2)].
  - now rewrite E.
  - now rewrite E1, E2.
Qed.

(** The view of a game reads the players of the game, their buy-ins, the
    pending buy-ins of the game and the votes on these. *)
Lemma view_unchanged db db' gameId :
  filter (fun p => Player.game_id p =? gameId) (players db')
  = filter (fun p => Player.game_id p =? gameId) (players db) ->
  (forall p, Player.game_id p = gameId ->
     filter (player_buyin_on p) (buyins db')
     = filter (player_buyin_on p) (buyins db)) ->
  filter (is_pending_in gameId) (buyins db')
  = filter (is_pending_in gameId) (buyins db) ->
  (forall b, In b (buyins db) -> is_pending_in gameId b = true ->
     filter (fun a => Approval.buyin_id a =? Buyin.id b) (approvals db')
     = filter (fun a => Approval.buyin_id a =? Buyin.id b) (approvals db)) ->
  composeGameState db' gameId = composeGameState db gameId.
Proof.
  intros Hp Hb Hq Hv. unfold composeGameState. f_equal.
  - unfold playersData. cbv zeta.
    assert (E : players_joined db' gameId = players_joined db gameId).
    { rewrite !players_joined_selected, Hp.
      apply left_join_right_ext. intros p Hin.
      apply filter_In in Hin. destruct Hin as (_ & Hg).
      apply Z.eqb_eq in Hg. now apply Hb. }
    now rewrite E.
  - unfold pendingData. cbv zeta.
    assert (E : pending_joined db' gameId = pending_joined db gameId).
    { rewrite !pending_joined_selected, Hq.
      rewrite (left_join_right_ext _ _ (approvals db) (approvals db')).
      2:{ intros b Hin. apply filter_In in Hin. destruct Hin as (Hin & Hc).
          now apply Hv. }
      apply left_join_right_ext. intros [b oa] Hin.
      apply left_join_fst in Hin. apply filter_In in Hin.
      destruct Hin as (_ & Hc). apply is_pending_in_spec in Hc.
      destruct Hc as (Hg & _). cbn [fst].
      transitivity
        (filter (fun p => String.eqb (Player.user_id p) (Buyin.user_id b))
           (filter (fun p => Player.game_id p =? gameId) (players db'))).
      - rewrite filter_filter, Hg. reflexivity.
      - rewrite Hp, filter_filter, Hg. reflexivity. }
    now rewrite E.
Qed.

Lemma view_of_tables db db' gameId :
  players db' = players db -> buyins db' = buyins db ->
  approvals db' = approvals db ->
  composeGameState db' gameId = composeGameState db gameId.
Proof.
  intros Hp Hb Hv. apply view_unchanged; intros; now rewrite ?Hp, ?Hb, ?Hv.
Qed.

Lemma view_after_refresh tg db chatId provided allowCreate gameId :
  composeGameState (store (refreshGameMessage tg db chatId provided allowCreate))
    gameId
  = composeGameState db gameId.
Proof.
  destruct (refresh_tables tg db chatId provided allowCreate) as (Hp & Hb & Hv).
  now apply view_of_tables.
Qed.

Lemma view_after_player db k user clock gameId :
  k <> gameId ->
  composeGameState (insert_player db k user clock) gameId
  = composeGameState db gameId.
Proof.
  intros Hk. apply view_unchanged; try reflexivity.
  cbn [players insert_player]. rewrite filter_app. cbn [filter Player.game_id].
  apply Z.eqb_neq in Hk. rewrite Hk. apply app_nil_r.
Qed.

Lemma view_after_buyin db k uid cents clock gameId :
  k <> gameId ->
  composeGameState (insert_buyin db k uid cents clock) gameId
  = composeGameState db gameId.
Proof.
  intros Hk. apply Z.eqb_neq in Hk.
  apply view_unchanged; try reflexivity.
  - intros p Hg. cbn [buyins insert_buyin]. rewrite filter_app.
    cbn [filter]. unfold player_buyin_on at 2. cbn [Buyin.game_id].
    rewrite Hg, Hk. cbn [andb]. apply app_nil_r.
  - cbn [buyins insert_buyin]. rewrite filter_app.
    cbn [filter]. unfold is_pending_in at 2. cbn [Buyin.game_id].
    rewrite Hk. cbn [andb]. apply app_nil_r.
Qed.

Lemma view_after_vote db i voter d clock buyin gameId :
  NoDup (map Buyin.id (buyins db)) ->
  find_buyin db i = Some buyin -> Buyin.game_id buyin <> gameId ->
  composeGameState (fst (apply_tally (record_vote db i voter d clock) i)) gameId
  = composeGameState db gameId.
Proof.
  intros Hn Hf Hg.
  assert (Hother : forall b, In b (buyins db) -> Buyin.game_id b = gameId ->
                             Buyin.id b <> i).
  { intros b Hb Hbg E. apply find_some in Hf. destruct Hf as (Hin & Hi).
    apply Z.eqb_eq in Hi.
    assert (Eb : find (fun x => Buyin.id x =? Buyin.id b) (buyins db) = Some b)
      by (now apply find_unique_key).
    assert (Eb' : find (fun x => Buyin.id x =? Buyin.id buyin) (buyins db)
                  = Some buyin) by (now apply find_unique_key).
    rewrite E, <- Hi, Eb' in Eb. inversion Eb. congruence. }
  assert (Hset : forall db0 s,
             players db0 = players db -> buyins db0 = buyins db ->
             (forall b, In b (buyins db) -> is_pending_in gameId b = true ->
                filter (fun a => Approval.buyin_id a =? Buyin.id b) (approvals db0)
                = filter (fun a => Approval.buyin_id a =? Buyin.id b)
                    (approvals db)) ->
             composeGameState (set_buyin_status db0 i s) gameId
             = composeGameState db gameId
             /\ composeGameState db0 gameId = composeGameState db gameId).
  { intros db0 s Hp Hb Hv. split.
    - apply view_unchanged.
      + cbn [players set_buyin_status]. now rewrite Hp.
      + intros p Hpg. cbn [buyins set_buyin_status]. rewrite Hb.
        apply filter_map_untouched. intros b Hin.
        destruct (Buyin.id b =? i) eqn:E; [right | now left].
        apply Z.eqb_eq in E. unfold player_buyin_on. cbn [Buyin.game_id].
        assert (Hbg : Buyin.game_id b <> gameId)
          by (intros Hbg; now apply (Hother b Hin Hbg)).
        apply Z.eqb_neq in Hbg. rewrite Hpg, Hbg. auto.
      + cbn [buyins set_buyin_status]. rewrite Hb.
        apply filter_map_untouched. intros b Hin.
        destruct (Buyin.id b =? i) eqn:E; [right | now left].
        apply Z.eqb_eq in E. unfold is_pending_in. cbn [Buyin.game_id].
        assert (Hbg : Buyin.game_id b <> gameId)
          by (intros Hbg; now apply (Hother b Hin Hbg)).
        apply Z.eqb_neq in Hbg. rewrite Hbg. auto.
      + intros b Hin Hc. cbn [approvals set_buyin_status]. now apply Hv.
    - apply view_unchanged; rewrite ?Hp, ?Hb; auto. }
  assert (Hrec : players (record_vote db i voter d clock) = players db
                 /\ buyins (record_vote db i voter d clock) = buyins db
                 /\ forall b, In b (buyins db) -> is_pending_in gameId b = true ->
                      filter (fun a => Approval.buyin_id a =? Buyin.id b)
                        (approvals (record_vote db i voter d clock))
                      = filter (fun a => Approval.buyin_id a =? Buyin.id b)
                          (approvals db)).
  { unfold record_vote, insert_approval.
    destruct (existsb _ _); cbn [players buyins approvals]; auto.
    split; [reflexivity|]. split; [reflexivity|].
    intros b Hin Hc. apply is_pending_in_spec in Hc. destruct Hc as (Hbg & _).
    rewrite filter_app. cbn [filter Approval.buyin_id].
    pose proof (Hother b Hin Hbg) as Hne.
    assert (E : (i =? Buyin.id b) = false) by (apply Z.eqb_neq; congruence).
    rewrite E. apply app_nil_r. }
  destruct Hrec as (Hp & Hb & Hv).
  unfold apply_tally.
  destruct (APPROVALS_REQUIRED <=? _);
    [|destruct (APPROVALS_REQUIRED <=? _)]; cbn [fst];
    try apply (Hset _ approved Hp Hb Hv);
    try apply (Hset _ rejected Hp Hb Hv).
Qed.

(** X22. An event changes the view of one game at most. When request ids
    are unique, handling an event leaves the projection of every game as
    it was, except for the active game of the chat when the event is a
    join or a buy-in, and for the game of the request when it is a vote.
    Starting and ending a game and the status query change no view. *)
Theorem an_event_changes_one_view_at_most :
  forall db ev gameId,
    NoDup (map Buyin.id (buyins db)) ->
    game_of_event db ev <> Some gameId ->
    composeGameState (step db ev) gameId = composeGameState db gameId.
Proof.
  intros db ev gameId Hn Hg. unfold step, handle. unfold game_of_event in Hg.
  destruct (ev_op ev) as [chatId argText | chatId user | chatId user argText
                         | chatId buyinId approver d | chatId | chatId].
  - unfold startGame.
    repeat break_match; cbn [store fail succeed];
      rewrite ?view_after_refresh; try reflexivity;
      now apply view_of_tables.
  - unfold joinGame.
    destruct (currentGame db (String_of_number chatId)) as [game|];
      [|reflexivity].
    destruct (find_player db _ _); [reflexivity|].
    cbn [store succeed]. rewrite view_after_refresh.
    apply view_after_player. cbn [option_map] in Hg. congruence.
  - unfold buyIn.
    destruct (currentGame db (String_of_number chatId)) as [game|];
      [|reflexivity].
    assert (Hk : GameRow.id game <> gameId)
      by (cbn [option_map] in Hg; congruence).
    repeat break_match; cbn [store fail succeed];
      rewrite ?view_after_refresh; try reflexivity;
      now apply view_after_buyin.
  - unfold processApproval.
    destruct (approval_checks db buyinId approver) as [msg | buyin] eqn:Ec;
      [reflexivity|].
    destruct (approval_checks_pending _ _ _ _ Ec) as (_ & Hf & _).
    rewrite Hf in Hg. cbn [option_map] in Hg.
    assert (Hk : Buyin.game_id buyin <> gameId) by congruence.
    pose proof (view_after_vote db buyinId
                  (String_of_number (TgUser.id approver)) d (ev_now ev) buyin
                  gameId Hn Hf Hk) as Hview.
    destruct (apply_tally _ _) as [db2 changed]. cbn [fst] in Hview.
    destruct (getGameById db2 _); cbn [store succeed];
      now rewrite view_after_refresh.
  - unfold endGame.
    repeat break_match; cbn [store fail succeed];
      rewrite ?view_after_refresh; try reflexivity;
      now apply view_of_tables.
  - cbn [store]. apply view_after_refresh.
Qed.

Lemma one_view_witness :
  composeGameState
    (step table_db (mkEvent (op_vote 1 1 bob approve) 20 tg_up)) 2
  = composeGameState table_db 2.
Proof.
  apply (an_event_changes_one_view_at_most table_db
           (mkEvent (op_vote 1 1 bob approve) 20 tg_up) 2).
  - exact (buyin_ids_unique _ (run_ledger_ok table_events)).
  - vm_compute. discriminate.
Defined.

(** ** The message a handler edits *)

Lemma refresh_source tg db chatId provided allowCreate :
  let r := refreshGameMessage tg db chatId provided allowCreate in
  store r = db
  \/ exists id k payload,
       k <> 0 /\ send_result tg = Some k
       /\ store r = set_status_message_id db id (String_of_number k)
       /\ In (sendMessage payload) (trace r).
Proof.
  cbv zeta. unfold refreshGameMessage.
  repeat break_match; cbn [store trace]; auto; right;
    match goal with
    | H : (?z =? 0) = false |- _ =>
        apply Z.eqb_neq in H; eexists; exists z; eexists;
        split; [exact H|]; split; [reflexivity|]; split; [reflexivity|];
        apply in_or_app; right; left; reflexivity
    end.
Qed.

Lemma refresh_edits tg db chatId provided allowCreate payload m :
  In (editMessageText payload m)
     (trace (refreshGameMessage tg db chatId provided allowCreate)) ->
  exists game s,
    refreshed_game db chatId provided = Some game
    /\ GameRow.status_message_id game = Some s
    /\ m = Number_of_string s.
Proof.
  unfold refreshGameMessage. fold (refreshed_game db chatId provided).
  destruct (refreshed_game db chatId provided) as [game|]; [|intros []].
  intros H. exists game.
  destruct (GameRow.status_message_id game) as [s|].
  - exists s. split; [reflexivity|]. split; [reflexivity|].
    revert H. repeat break_match; cbn [trace app In];
      intuition (try discriminate; congruence).
  - exfalso. revert H. repeat break_match; cbn [trace app In];
      intuition discriminate.
Qed.

(** What a handler does, as far as the status message goes: it brings the
    database to [db1], whose games refer to no message that those of [db]
    did not refer to, and then it stops or publishes the status of a game
    of [db1]. *)
Lemma handle_shape db ev :
  exists db1,
    (forall g1 s, In g1 (games db1) ->
                  GameRow.status_message_id g1 = Some s ->
                  exists g, In g (games db)
                            /\ GameRow.status_message_id g = Some s)
    /\ ((store (handle db ev) = db1 /\ trace (handle db ev) = [])
        \/ exists chatId provided allowCreate,
             store (handle db ev)
             = store (refreshGameMessage (ev_tg ev) db1 chatId provided
                        allowCreate)
             /\ trace (handle db ev)
                = trace (refreshGameMessage (ev_tg ev) db1 chatId provided
                           allowCreate)
             /\ forall game,
                  refreshed_game db1 chatId provided = Some game ->
                  In game (games db1)).
Proof.
  assert (Hsame : forall db1, games db1 = games db ->
            forall g1 s, In g1 (games db1) ->
                         GameRow.status_message_id g1 = Some s ->
                         exists g, In g (games db)
                                   /\ GameRow.status_message_id g = Some s).
  { intros db1 E g1 s Hin Hs. rewrite E in Hin. eauto. }
  unfold handle.
  destruct (ev_op ev) as [chatId argText | chatId user | chatId user argText
                         | chatId buyinId approver d | chatId | chatId].
  - unfold startGame.
    destruct (find _ (games db)); [exists db; split; [now apply Hsame | now left]|].
    destruct (match_amount argText) as [m|];
      [|exists db; split; [now apply Hsame | now left]].
    destruct (negb _); [exists db; split; [now apply Hsame | now left]|].
    destruct (toCents _) as [cents|];
      [|exists db; split; [now apply Hsame | now left]].
    cbv zeta.
    exists (insert_game db (String_of_number chatId) (ev_now ev) cents).
    split.
    + intros g1 s Hin Hs. cbn [games insert_game] in Hin.
      apply in_app_or in Hin. destruct Hin as [Hin | [<- | []]]; [eauto|].
      discriminate.
    + rewrite getGameById_inserted. right.
      eexists _, _, _. split; [reflexivity|]. split; [reflexivity|].
      intros game Hr. cbn [refreshed_game] in Hr. inversion Hr; subst.
      cbn [games insert_game]. apply in_or_app. right. now left.
  - unfold joinGame.
    destruct (currentGame db (String_of_number chatId)) as [game|] eqn:Ec;
      [|exists db; split; [now apply Hsame | now left]].
    apply currentGame_in in Ec. destruct Ec as (Hin & _).
    destruct (find_player db _ _);
      [exists db; split; [now apply Hsame | now left]|].
    exists (insert_player db (GameRow.id game) user (ev_now ev)).
    split; [now apply Hsame|]. right.
    eexists _, _, _. split; [reflexivity|]. split; [reflexivity|].
    intros g0 Hr. cbn [refreshed_game] in Hr. inversion Hr; subst. exact Hin.
  - unfold buyIn.
    destruct (currentGame db (String_of_number chatId)) as [game|] eqn:Ec;
      [|exists db; split; [now apply Hsame | now left]].
    apply currentGame_in in Ec. destruct Ec as (Hin & _).
    destruct (find_player db _ _);
      [|exists db; split; [now apply Hsame | now left]].
    repeat break_match; cbn [store trace fail succeed];
      try (exists db; split; [now apply Hsame | now left]);
      (eexists (insert_buyin db (GameRow.id game) _ _ _);
       split; [now apply Hsame|]; right;
       eexists _, _, _; split; [reflexivity|]; split; [reflexivity|];
       intros g0 Hr; cbn [refreshed_game] in Hr; inversion Hr; subst;
       exact Hin).
  - unfold processApproval.
    destruct (approval_checks db buyinId approver) as [msg | buyin];
      [exists db; split; [now apply Hsame | now left]|].
    pose proof (vote_keeps_games db buyinId
                  (String_of_number (TgUser.id approver)) d (ev_now ev)) as Eg.
    destruct (apply_tally _ _) as [db2 changed]. cbn [fst] in Eg.
    exists db2. split; [now apply Hsame|]. right.
    destruct (getGameById db2 (Buyin.game_id buyin)) as [game|] eqn:Egame.
    + eexists _, _, _. split; [reflexivity|]. split; [reflexivity|].
      intros g Hr. cbn [refreshed_game] in Hr. inversion Hr; subst.
      unfold getGameById in Egame. now apply find_some in Egame.
    + eexists _, _, _. split; [reflexivity|]. split; [reflexivity|].
      intros g Hr. cbn [refreshed_game] in Hr. now apply currentGame_in in Hr.
  - unfold endGame.
    destruct (currentGame db (String_of_number chatId)) as [game|] eqn:Ec;
      [|exists db; split; [now apply Hsame | now left]].
    exists (end_game_row db (GameRow.id game) (ev_now ev)).
    split.
    + intros g1 s Hin Hs. cbn [games end_game_row] in Hin.
      apply in_map_iff in Hin. destruct Hin as (g & E & Hin).
      exists g. split; [exact Hin|].
      destruct (GameRow.id g =? GameRow.id game); subst g1; exact Hs.
    + destruct (getGameById _ _) as [updated|] eqn:Eu; [right | now left].
      eexists _, _, _. split; [reflexivity|]. split; [reflexivity|].
      intros g Hr. cbn [refreshed_game] in Hr. inversion Hr; subst.
      unfold getGameById in Eu. now apply find_some in Eu.
  - exists db. split; [now apply Hsame|]. right.
    eexists _, _, _. cbn [store trace]. split; [reflexivity|].
    split; [reflexivity|].
    intros g Hr. cbn [refreshed_game] in Hr. now apply currentGame_in in Hr.
Qed.

Lemma step_message_source db ev g' s :
  In g' (games (step db ev)) ->
  GameRow.status_message_id g' = Some s ->
  (exists g, In g (games db) /\ GameRow.status_message_id g = Some s)
  \/ exists k payload,
       k <> 0 /\ s = String_of_number k
       /\ send_result (ev_tg ev) = Some k
       /\ In (sendMessage payload) (trace (handle db ev)).
Proof.
  unfold step. intros Hin Hs.
  destruct (handle_shape db ev)
    as (db1 & H1 & [(Est & _) | (chatId & provided & allow & Est & Etr & _)]).
  - rewrite Est in Hin. left. eauto.
  - rewrite Est in Hin. rewrite Etr.
    destruct (refresh_source (ev_tg ev) db1 chatId provided allow)
      as [E | (id & k & payload & Hk & Hsend & E & Hcall)].
    + rewrite E in Hin. left. eauto.
    + rewrite E in Hin. cbn [games set_status_message_id] in Hin.
      apply in_map_iff in Hin. destruct Hin as (g1 & Eg & Hin).
      destruct (GameRow.id g1 =? id).
      * right. exists k, payload. subst g'. cbn in Hs.
        split; [exact Hk|]. split; [congruence|]. auto.
      * left. subst g'. eauto.
Qed.

Lemma step_edit_source db ev payload m :
  In (editMessageText payload m) (trace (handle db ev)) ->
  exists g s, In g (games db)
              /\ GameRow.status_message_id g = Some s
              /\ m = Number_of_string s.
Proof.
  intros Hin.
  destruct (handle_shape db ev)
    as (db1 & H1 & [(_ & Etr) | (chatId & provided & allow & _ & Etr & Hg)]).
  - rewrite Etr in Hin. contradiction.
  - rewrite Etr in Hin. apply refresh_edits in Hin.
    destruct Hin as (game & s & Hr & Hs & Hm).
    destruct (H1 game s (Hg game Hr) Hs) as (g & Hgin & Hgs).
    exists g, s. auto.
Qed.

Lemma run_snoc evs ev db : run (evs ++ [ev]) db = step (run evs db) ev.
Proof. unfold run. now rewrite fold_left_app. Qed.

Lemma sent_during_more evs ev k : sent_during evs k -> sent_during (evs ++ [ev]) k.
Proof.
  intros (pre & ev' & post & payload & E & Hc & Hs).
  exists pre, ev', (post ++ [ev])%list, payload.
  split; [|auto]. rewrite E, <- app_assoc. reflexivity.
Qed.

Lemma stored_messages_were_sent evs g s :
  In g (games (run evs empty_db)) ->
  GameRow.status_message_id g = Some s ->
  exists k, k <> 0 /\ s = String_of_number k /\ sent_during evs k.
Proof.
  revert g s. induction evs as [|ev evs IH] using rev_ind; intros g s Hin Hs.
  - contradiction.
  - rewrite run_snoc in Hin.
    destruct (step_message_source _ _ _ _ Hin Hs)
      as [(g0 & Hin0 & Hs0) | (k & payload & Hk & Ek & Hsend & Hcall)].
    + destruct (IH g0 s Hin0 Hs0) as (k & Hk & Ek & Hsent).
      exists k. split; [exact Hk|]. split; [exact Ek|].
      now apply sent_during_more.
    + exists k. split; [exact Hk|]. split; [exact Ek|].
      exists evs, ev, [], payload. auto.
Qed.

(** X23. A handler edits only messages that were sent. After any sequence
    of events, the message id recorded for a game is a non-zero id that
    Telegram returned for a message sent while one of these events was
    handled; and whenever a handler then edits the status message, the
    message id of the edit is such an id. *)
Theorem edits_target_messages_that_were_sent :
  forall evs,
    (forall g s,
        In g (games (run evs empty_db)) ->
        GameRow.status_message_id g = Some s ->
        exists k, k <> 0 /\ s = String_of_number k /\ sent_during evs k)
    /\ (forall ev payload m,
          In (editMessageText payload m)
             (trace (handle (run evs empty_db) ev)) ->
          exists k, m = Some k /\ k <> 0 /\ sent_during evs k).
Proof.
  intros evs. split; [apply stored_messages_were_sent|].
  intros ev payload m Hin.
  destruct (step_edit_source _ _ _ _ Hin) as (g & s & Hg & Hs & Hm).
  destruct (stored_messages_were_sent evs g s Hg Hs) as (k & Hk & Ek & Hsent).
  exists k. split; [|auto]. rewrite Hm, Ek. apply Number_of_String.
Qed.

Lemma edits_target_witness :
  exists k, "77" = String_of_number k /\ sent_during table_events k.
Proof.
  destruct (edits_target_messages_that_were_sent table_events) as (H & _).
  destruct (H (GameRow.mk 1 "1" active 10 None 5000 (Some "77")) "77")
    as (k & _ & Ek & Hs).
  - vm_compute. auto.
  - reflexivity.
  - exists k. split; [exact Ek | exact Hs].
Defined.

(** ** The rows of the games *)

Lemma step_games_invariant (P : GameRow.t -> Prop) db ev :
  (forall g m,
      P g ->
      P (GameRow.mk (GameRow.id g) (GameRow.chat_id g) (GameRow.status g)
           (GameRow.started_at g) (GameRow.ended_at g)
           (GameRow.buy_in_cents g) (Some m))) ->
  (forall g clock,
      P g ->
      P (GameRow.mk (GameRow.id g) (GameRow.chat_id g) ended
           (GameRow.started_at g) (Some clock)
           (GameRow.buy_in_cents g) (GameRow.status_message_id g))) ->
  (forall id chatId clock cents,
      0 <= cents ->
      P (GameRow.mk id (String_of_number chatId) active clock None cents None)) ->
  (forall g, In g (games db) -> P g) ->
  forall g, In g (games (step db ev)) -> P g.
Proof.
  intros Hmsg Hend Hnew Hdb.
  assert (Hrefresh : forall tg db1 chatId provided allow,
             (forall g, In g (games db1) -> P g) ->
             forall g,
               In g (games (store (refreshGameMessage tg db1 chatId provided
                                     allow))) -> P g).
  { intros tg db1 chatId provided allow H1 g.
    destruct (refresh_store_cases tg db1 chatId provided allow)
      as [E | (id & m & E)]; rewrite E; [apply H1|].
    cbn [games set_status_message_id]. intros Hin.
    apply in_map_iff in Hin. destruct Hin as (g1 & <- & Hin).
    destruct (GameRow.id g1 =? id); auto. }
  assert (Hsame : forall db1, games db1 = games db ->
                              forall g, In g (games db1) -> P g).
  { intros db1 E g. rewrite E. apply Hdb. }
  unfold step, handle.
  destruct (ev_op ev) as [chatId argText | chatId user | chatId user argText
                         | chatId buyinId approver d | chatId | chatId].
  - unfold startGame.
    destruct (find _ (games db)); [exact Hdb|].
    destruct (match_amount argText) as [m|]; [|exact Hdb].
    destruct (0 <? parseFloat m)%float eqn:Hpos; [|exact Hdb].
    destruct (toCents (parseFloat m)) as [cents|] eqn:Hc; [|exact Hdb].
    cbn [negb]. cbv zeta. rewrite getGameById_inserted.
    cbn [store succeed]. apply Hrefresh.
    intros g Hin. cbn [games insert_game] in Hin.
    apply in_app_or in Hin. destruct Hin as [Hin | [<- | []]]; [auto|].
    apply Hnew. exact (toCents_nonneg _ _ Hpos Hc).
  - unfold joinGame.
    repeat break_match; cbn [store fail succeed]; try exact Hdb.
    apply Hrefresh. now apply Hsame.
  - unfold buyIn.
    repeat break_match; cbn [store fail succeed]; try exact Hdb;
      apply Hrefresh; now apply Hsame.
  - unfold processApproval.
    destruct (approval_checks db buyinId approver); [exact Hdb|].
    pose proof (vote_keeps_games db buyinId
                  (String_of_number (TgUser.id approver)) d (ev_now ev)) as Eg.
    destruct (apply_tally _ _) as [db2 changed]. cbn [fst] in Eg.
    destruct (getGameById db2 _); cbn [store succeed];
      apply Hrefresh; now apply Hsame.
  - unfold endGame.
    destruct (currentGame db (String_of_number chatId)) as [game|];
      [|exact Hdb].
    assert (H1 : forall g,
               In g (games (end_game_row db (GameRow.id game) (ev_now ev))) ->
               P g).
    { intros g Hin. cbn [games end_game_row] in Hin.
      apply in_map_iff in Hin. destruct Hin as (g1 & <- & Hin).
      destruct (GameRow.id g1 =? GameRow.id game); auto. }
    destruct (getGameById _ _); cbn [store succeed]; [|exact H1].
    now apply Hrefresh.
  - cbn [store]. now apply Hrefresh.
Qed.

(** X24. The rows of the games. After any sequence of events every game
    has a chat id that is the text of an integer and a default amount
    that is not negative, and it is either active without an end time or
    ended with one. *)
Theorem games_are_well_formed :
  forall evs g,
    In g (games (run evs empty_db)) ->
    (exists chatId, GameRow.chat_id g = String_of_number chatId)
    /\ 0 <= GameRow.buy_in_cents g
    /\ ((GameRow.status g = active /\ GameRow.ended_at g = None)
        \/ (GameRow.status g = ended
            /\ exists clock, GameRow.ended_at g = Some clock)).
Proof.
  intros evs. induction evs as [|ev evs IH] using rev_ind.
  - intros g [].
  - rewrite run_snoc.
    apply (step_games_invariant
             (fun g =>
                (exists chatId, GameRow.chat_id g = String_of_number chatId)
                /\ 0 <= GameRow.buy_in_cents g
                /\ ((GameRow.status g = active /\ GameRow.ended_at g = None)
                    \/ (GameRow.status g = ended
                        /\ exists clock, GameRow.ended_at g = Some clock)))).
    + intros g m H. exact H.
    + intros g clock (Hc & Hb & _). cbn.
      split; [exact Hc|]. split; [exact Hb|]. right. eauto.
    + intros id chatId clock cents Hc. cbn.
      split; [eauto|]. split; [exact Hc|]. left. auto.
    + exact IH.
Qed.

Lemma games_witness :
  0 <= GameRow.buy_in_cents (GameRow.mk 1 "1" active 10 None 5000 (Some "77")).
Proof.
  destruct (games_are_well_formed table_events
              (GameRow.mk 1 "1" active 10 None 5000 (Some "77")))
    as (_ & H & _).
  - vm_compute. auto.
  - exact H.
Defined.

(** ** From a request to the total *)

Lemma String_of_number_inj a b :
  String_of_number a = String_of_number b -> a = b.
Proof.
  intros E. pose proof (Number_of_String a) as Ha.
  rewrite E, Number_of_String in Ha. congruence.
Qed.

Lemma default_buyIn_store tg clock db chatId user game :
  currentGame db (String_of_number chatId) = Some game ->
  find_player db (GameRow.id game) (String_of_number (TgUser.id user)) <> None ->
  0 < GameRow.buy_in_cents game ->
  buyin_accepted db game (String_of_number (TgUser.id user))
    (GameRow.buy_in_cents game) clock
    (buyIn tg clock db chatId user None).
Proof.
  intros Hc Hp Hpos. unfold buyIn. rewrite Hc.
  destruct (find_player db _ _); [|congruence].
  replace (trimmed_nonempty None) with false by reflexivity.
  assert (E : (0 <? GameRow.buy_in_cents game) = true) by (now apply Z.ltb_lt).
  rewrite E. cbn [negb]. apply buyIn_submitted.
Qed.

Lemma set_status_of_last (rest : list Buyin.t) (b : Buyin.t) s :
  ~ In (Buyin.id b) (map Buyin.id rest) ->
  map (fun x =>
         if Buyin.id x =? Buyin.id b
         then Buyin.mk (Buyin.id x) (Buyin.game_id x) (Buyin.user_id x)
                (Buyin.amount_cents x) (Buyin.created_at x) s
         else x) (rest ++ [b])
  = (rest ++ [Buyin.mk (Buyin.id b) (Buyin.game_id b) (Buyin.user_id b)
                (Buyin.amount_cents b) (Buyin.created_at b) s])%list.
Proof.
  intros Hn. rewrite map_app. cbn [map]. rewrite Z.eqb_refl. f_equal.
  rewrite <- (map_id rest) at 2. apply map_ext_in. intros x Hx.
  destruct (Buyin.id x =? Buyin.id b) eqn:E; [|reflexivity].
  apply Z.eqb_eq in E. exfalso. apply Hn. rewrite <- E. now apply in_map.
Qed.

(** X26. From a request to the total. In a well-formed ledger, let a
    player of the chat's active game ask for the default buy-in and let
    another player of the game vote on the request, which has the next
    id. The request is pending after the first step and leaves the totals
    as they were; after the vote it has the status the vote asked for,
    the requester's approved total has grown by the amount when the vote
    approved and not at all when it rejected, and the approved total of
    everyone else is what it was. *)
Theorem an_approved_request_raises_the_total :
  forall tg1 tg2 clock1 clock2 db chatId chat2 game requester voter p d,
    ledger_ok db ->
    currentGame db (String_of_number chatId) = Some game ->
    find_player db (GameRow.id game) (String_of_number (TgUser.id requester))
    <> None ->
    find_player db (GameRow.id game) (String_of_number (TgUser.id voter))
    = Some p ->
    TgUser.id requester <> TgUser.id voter ->
    0 < GameRow.buy_in_cents game ->
    let uid := String_of_number (TgUser.id requester) in
    let i := next_id (map Buyin.id (buyins db)) in
    let db1 := store (buyIn tg1 clock1 db chatId requester None) in
    let db2 := store (processApproval tg2 clock2 db1 chat2 i voter d) in
    status_of db1 i = Some pending
    /\ (forall u, approved_total db1 (GameRow.id game) u
                  = approved_total db (GameRow.id game) u)
    /\ status_of db2 i = Some (verdict d)
    /\ approved_total db2 (GameRow.id game) uid
       = approved_total db (GameRow.id game) uid
         + match d with
           | approve => GameRow.buy_in_cents game
           | reject => 0
           end
    /\ (forall u, u <> uid ->
          approved_total db2 (GameRow.id game) u
          = approved_total db (GameRow.id game) u).
Proof.
  intros tg1 tg2 clock1 clock2 db chatId chat2 game requester voter p d
         L Hc Hreq Hvoter Hne Hpos uid i db1 db2.
  set (new := Buyin.mk i (GameRow.id game) uid (GameRow.buy_in_cents game)
                clock1 pending).
  destruct (default_buyIn_store tg1 clock1 db chatId requester game Hc Hreq Hpos)
    as (_ & Hb1 & Hp1 & Hv1).
  fold db1 uid i new in Hb1, Hp1, Hv1.
  assert (L1 : ledger_ok db1).
  { apply (statements_invariant ledger_ok statement_keeps_ledger db db1);
      [|exact L].
    exact (handle_statements db
             (mkEvent (op_buyin chatId requester None) clock1 tg1)). }
  assert (Hfresh : ~ In (Buyin.id new) (map Buyin.id (buyins db)))
    by (apply next_id_fresh).
  assert (Hfind : find_buyin db1 i = Some new).
  { unfold find_buyin. rewrite Hb1. rewrite find_app_none.
    - cbn [find Buyin.id new]. now rewrite Z.eqb_refl.
    - destruct (find _ (buyins db)) as [b|] eqn:E; [|reflexivity].
      apply find_some in E. destruct E as (Hin & E). apply Z.eqb_eq in E.
      exfalso. apply Hfresh. cbn [Buyin.id new]. rewrite <- E.
      now apply in_map. }
  assert (Hchecks : approval_checks db1 i voter = inr new).
  { apply (approval_checks_pass db1 i voter new p).
    - pose proof (next_id_positive (map Buyin.id (buyins db))). subst i. lia.
    - exact Hfind.
    - reflexivity.
    - cbn [Buyin.user_id new]. subst uid. intros E.
      apply String_of_number_inj in E. contradiction.
    - cbn [Buyin.game_id new]. unfold find_player. rewrite Hp1. exact Hvoter. }
  assert (Hvotes : votes_on db1 i = []).
  { apply (pending_has_no_votes db1 i new); auto.
    intros a Ha. destruct (votes_resolve _ L1 a Ha) as (b & Hb & Hd & _).
    eauto. }
  assert (Htotal1 : forall u s,
             buyins_of db1 (GameRow.id game) u s
             = (buyins_of db (GameRow.id game) u s
                ++ if String.eqb uid u && buyin_status_eqb pending s
                   then [new] else [])%list).
  { intros u s. unfold buyins_of. rewrite Hb1, filter_app.
    cbn [filter Buyin.game_id Buyin.user_id Buyin.status new].
    rewrite Z.eqb_refl. cbn [andb].
    now destruct (String.eqb uid u && buyin_status_eqb pending s). }
  assert (Hb2 : buyins db2
                = (buyins db
                   ++ [Buyin.mk i (GameRow.id game) uid
                         (GameRow.buy_in_cents game) clock1 (verdict d)])%list).
  { destruct (processApproval_store tg2 clock2 db1 chat2 i voter d new Hchecks)
      as (Hst & _).
    rewrite (first_vote_decides db1 i _ d clock2 Hvotes) in Hst.
    cbn [fst] in Hst. fold db2 in Hst.
    assert (E : buyins db2
                = map (fun x =>
                         if Buyin.id x =? Buyin.id new
                         then Buyin.mk (Buyin.id x) (Buyin.game_id x)
                                (Buyin.user_id x) (Buyin.amount_cents x)
                                (Buyin.created_at x) (verdict d)
                         else x) (buyins db ++ [new])).
    { destruct Hst as [E | (id & mid & _ & E)]; rewrite E;
        cbn [buyins set_buyin_status set_status_message_id];
        rewrite Hb1; reflexivity. }
    rewrite E. exact (set_status_of_last (buyins db) new (verdict d) Hfresh). }
  assert (Htotal2 : forall u s,
             buyins_of db2 (GameRow.id game) u s
             = (buyins_of db (GameRow.id game) u s
                ++ if String.eqb uid u && buyin_status_eqb (verdict d) s
                   then [Buyin.mk i (GameRow.id game) uid
                           (GameRow.buy_in_cents game) clock1 (verdict d)]
                   else [])%list).
  { intros u s. unfold buyins_of. rewrite Hb2, filter_app.
    cbn [filter Buyin.game_id Buyin.user_id Buyin.status].
    rewrite Z.eqb_refl. cbn [andb].
    now destruct (String.eqb uid u && buyin_status_eqb (verdict d) s). }
  split; [|split; [|split; [|split]]].
  - unfold status_of. now rewrite Hfind.
  - intros u. unfold approved_total. rewrite Htotal1.
    cbn [buyin_status_eqb]. rewrite andb_false_r. now rewrite app_nil_r.
  - unfold status_of, find_buyin. rewrite Hb2. rewrite find_app_none.
    + cbn [find Buyin.id]. now rewrite Z.eqb_refl.
    + destruct (find _ (buyins db)) as [b|] eqn:E; [|reflexivity].
      apply find_some in E. destruct E as (Hin & E). apply Z.eqb_eq in E.
      exfalso. apply Hfresh. cbn [Buyin.id new]. rewrite <- E.
      now apply in_map.
  - unfold approved_total. rewrite Htotal2, String.eqb_refl. cbn [andb].
    destruct d; cbn [verdict buyin_status_eqb].
    + rewrite map_app, sum_app. cbn [map Buyin.amount_cents]. unfold sum at 2.
      cbn [fold_right]. lia.
    + rewrite app_nil_r. lia.
  - intros u Hu. unfold approved_total. rewrite Htotal2.
    assert (E : String.eqb uid u = false) by (apply String.eqb_neq; congruence).
    rewrite E. cbn [andb]. now rewrite app_nil_r.
Qed.

Lemma approved_request_witness :
  status_of
    (store (processApproval tg_up 21 (store (buyIn tg_up 20 table_db 1 bob None))
              1 2 carol approve)) 2
  = Some approved.
Proof.
  assert (Hreq : find_player table_db 1 (String_of_number (TgUser.id bob)) <> None)
    by (vm_compute; discriminate).
  assert (Hne : TgUser.id bob <> TgUser.id carol) by discriminate.
  assert (Hpos : 0 < 5000) by reflexivity.
  exact (proj1 (proj2 (proj2
    (an_approved_request_raises_the_total tg_up tg_up 20 21 table_db 1 1
       (GameRow.mk 1 "1" active 10 None 5000 (Some "77")) bob carol
       (Player.mk 3 1 "1003" (Some "carol") None 13) approve
       (run_ledger_ok table_events) eq_refl Hreq eq_refl Hne Hpos)))).
Defined.

(** ** Amounts of zero *)

Lemma blank_is_no_digit c : is_blank c = true -> is_digit c = false.
Proof.
  destruct c as [[|] [|] [|] [|] [|] [|] [|] [|]]; vm_compute;
    intros H; try reflexivity; discriminate.
Qed.

Lemma high_byte_is_no_digit c n :
  (nat_of_ascii c =? n)%nat = true -> (128 <= n)%nat -> is_digit c = false.
Proof.
  intros E Hn. apply Nat.eqb_eq in E. unfold is_digit. rewrite E.
  apply andb_false_iff. right. apply Nat.leb_gt. lia.
Qed.

Lemma blank2_has_no_digit c1 c2 :
  is_blank2 c1 c2 = true -> is_digit c1 = false /\ is_digit c2 = false.
Proof.
  unfold is_blank2. intros H. apply andb_true_iff in H. destruct H as (H1 & H2).
  split; eapply high_byte_is_no_digit; eauto; lia.
Qed.

Lemma blank3_has_no_digit c1 c2 c3 :
  is_blank3 c1 c2 c3 = true ->
  is_digit c1 = false /\ is_digit c2 = false /\ is_digit c3 = false.
Proof.
  unfold is_blank3. cbv zeta. unfold is_digit.
  rewrite !orb_true_iff, !andb_true_iff, !orb_true_iff, !andb_true_iff,
    !Nat.eqb_eq, !Nat.leb_le.
  intros H.
  repeat split; apply andb_false_iff; right; apply Nat.leb_gt;
    intuition lia.
Qed.

Lemma amount_text_is_not_blank s m :
  match_amount s = Some m -> trimmed_nonempty (Some s) = true.
Proof.
  unfold trimmed_nonempty.
  assert (H : forall n s,
             (String.length s <= n)%nat ->
             match_amount s <> None -> trim_start s <> "").
  { clear s m. induction n as [|n IH]; intros s Hlen Hm.
    - destruct s; [now contradiction Hm | simpl in Hlen; lia].
    - destruct s as [|c1 s1]; [now contradiction Hm|].
      cbn [String.length] in Hlen. cbn [trim_start].
      destruct (is_blank c1) eqn:E1.
      { rewrite (match_amount_skip c1 s1 (blank_is_no_digit c1 E1)) in Hm.
        apply IH; [lia | exact Hm]. }
      destruct s1 as [|c2 s2]; [discriminate|].
      cbn [String.length] in Hlen.
      destruct (is_blank2 c1 c2) eqn:E2.
      { destruct (blank2_has_no_digit c1 c2 E2) as (D1 & D2).
        rewrite (match_amount_skip c1 _ D1), (match_amount_skip c2 _ D2) in Hm.
        apply IH; [lia | exact Hm]. }
      destruct s2 as [|c3 s3]; [discriminate|].
      cbn [String.length] in Hlen.
      destruct (is_blank3 c1 c2 c3) eqn:E3; [|discriminate].
      destruct (blank3_has_no_digit c1 c2 c3 E3) as (D1 & D2 & D3).
      rewrite (match_amount_skip c1 _ D1), (match_amount_skip c2 _ D2),
        (match_amount_skip c3 _ D3) in Hm.
      apply IH; [lia | exact Hm]. }
  intros Hm.
  assert (Hne : trim_start s <> "").
  { apply (H (String.length s) s (Nat.le_refl _)). congruence. }
  apply String.eqb_neq in Hne. now rewrite Hne.
Qed.

Lemma zero_is_not_above_zero m :
  digits_value (fst m ++ snd m) = 0 -> (0 <? parseFloat m)%float = false.
Proof.
  destruct m as [ds fs]. cbn [fst snd]. intros E.
  unfold parseFloat, nearest_double. rewrite E. reflexivity.
Qed.

(** X25. An amount of zero is refused. When the digits that the pattern
    finds in the text are all zeros, [startGame] in a chat without an
    active game answers "Buy-in must be greater than zero." and [buyIn]
    of a player of the active game answers
    "Amount must be greater than zero."; neither changes the database nor
    calls Telegram. *)
Theorem zero_amounts_are_refused :
  forall tg clock db chatId argText m,
    match_amount argText = Some m ->
    digits_value (fst m ++ snd m) = 0 ->
    (find (is_active_in (String_of_number chatId)) (games db) = None ->
     startGame tg clock db chatId argText
     = fail db "Buy-in must be greater than zero.")
    /\ (forall game user,
          currentGame db (String_of_number chatId) = Some game ->
          find_player db (GameRow.id game) (String_of_number (TgUser.id user))
          <> None ->
          buyIn tg clock db chatId user (Some argText)
          = fail db "Amount must be greater than zero.").
Proof.
  intros tg clock db chatId argText m Hm Hz.
  pose proof (zero_is_not_above_zero m Hz) as Hnot.
  split.
  - intros Hfree. unfold startGame. now rewrite Hfree, Hm, Hnot.
  - intros game user Hc Hp. unfold buyIn. rewrite Hc.
    destruct (find_player db _ _); [|congruence].
    rewrite (amount_text_is_not_blank argText m Hm).
    cbn [coalesce]. now rewrite Hm, Hnot.
Qed.

Lemma zero_amount_witness :
  startGame tg_up 10 empty_db 1 "0.00"
  = fail empty_db "Buy-in must be greater than zero.".
Proof.
  exact (proj1 (zero_amounts_are_refused tg_up 10 empty_db 1 "0.00" ("0", "00")
                  eq_refl eq_refl) eq_refl).
Defined.

Lemma passive_query_witness :
  store (handle table_db (mkEvent (op_status 1) 30 tg_down)) = table_db.
Proof.
  exact (proj2 (handler_publishes_by_one_edit_or_one_send table_db
                  (mkEvent (op_status 1) 30 tg_down))
               (ex_intro _ 1 eq_refl)).
Defined.
